(** * DuckArrow: query plumbing, connection pool and Flight client

    A shallow embedding of the Go sources of the DuckArrow extension
    (packages [main], [internal/flight] and [internal/validation]) and the
    properties of its specification that were checked against them.

    Go strings are byte sequences; they are modelled as [string] (a list of
    8-bit [ascii]).  Go's [int], [int64] and [size_t] values are modelled as
    [Z] with the conversions written out. *)

From Stdlib Require Import ZArith List Ascii String Lia Bool FinFun.
From stdpp Require Import gmap strings list fin_maps.

Import ListNotations.
Local Open Scope Z_scope.
Local Open Scope string_scope.

(* ===================================================================== *)
(** * Part I: definitions                                                  *)
(* ===================================================================== *)

(** ** Go standard library: bytes and strings *)

Module Go.

(** The double-quote character, [0x22]. *)
Definition dq : ascii := "034"%char.
(** The NUL byte. *)
Definition nul : ascii := "000"%char.

Definition DQ : string := String dq EmptyString.
Definition NUL : string := String nul EmptyString.

Definition byte_of (c : ascii) : Z := Z.of_N (N_of_ascii c).
Definition bytes_of (s : string) : list Z := map byte_of (list_ascii_of_string s).

(** [len(s)] *)
Definition len (s : string) : Z := Z.of_nat (String.length s).

(** [strings.HasPrefix(s, p)] *)
Fixpoint HasPrefix (s p : string) {struct p} : bool :=
  match p, s with
  | EmptyString, _ => true
  | String _ _, EmptyString => false
  | String a p', String b s' => if Ascii.eqb a b then HasPrefix s' p' else false
  end.

(** [strings.Contains(s, substr)] *)
Fixpoint Contains (s substr : string) : bool :=
  HasPrefix s substr ||
  match s with
  | String _ s' => Contains s' substr
  | EmptyString => false
  end.

(** [strings.ReplaceAll(s, old, new)] for a non-empty [old]: the
    occurrences of [old] are found left to right and do not overlap.
    [skip] counts the bytes of a match that are still to be dropped. *)
Fixpoint replace_from (skip : nat) (old new s : string) : string :=
  match s with
  | EmptyString => EmptyString
  | String c s' =>
      match skip with
      | S k => replace_from k old new s'
      | O =>
          if HasPrefix s old
          then new ++ replace_from (String.length old - 1) old new s'
          else String c (replace_from O old new s')
      end
  end.

Definition ReplaceAll (s old new : string) : string := replace_from O old new s.

(** [strings.Join(elems, sep)] *)
Fixpoint Join (elems : list string) (sep : string) : string :=
  match elems with
  | [] => ""
  | [x] => x
  | x :: rest => x ++ sep ++ Join rest sep
  end.

(** No byte of [s] is NUL. *)
Fixpoint nul_free (s : string) : bool :=
  match s with
  | EmptyString => true
  | String c s' => negb (Ascii.eqb c nul) && nul_free s'
  end.

(** [s] between double quotes. *)
Definition quoted (s : string) : string := DQ ++ s ++ DQ.

(** [C.CString(s)] as the C side reads it: the bytes before the first NUL. *)
Fixpoint CString (s : string) : string :=
  match s with
  | EmptyString => EmptyString
  | String c r => if Ascii.eqb c nul then EmptyString else String c (CString r)
  end.

(** [fmt.Sprintf("%v", b)] for a [bool]. *)
Definition Sprint_bool (b : bool) : string := if b then "true" else "false".

(** The decimal digit [d]. *)
Definition digit (d : Z) : ascii := ascii_of_nat (48 + Z.to_nat d).

(** The decimal digits of [n], most significant first, before [acc]. *)
Fixpoint digits_from (fuel : nat) (n : Z) (acc : string) : string :=
  match fuel with
  | O => acc
  | S fuel' =>
      let acc' := String (digit (n mod 10)) acc in
      if Z.ltb n 10 then acc' else digits_from fuel' (n / 10) acc'
  end.

(** [fmt.Sprintf("%d", n)] *)
Definition Sprint_int (n : Z) : string :=
  if Z.ltb n 0 then String "-" (digits_from (S (Z.to_nat (Z.log2 (- n)))) (- n) "")
  else digits_from (S (Z.to_nat (Z.log2 n))) n "".

End Go.

(** ** Go standard library: [crypto/sha256] and [encoding/hex] (FIPS 180-4) *)

Module Sha256.

Definition mask32 : Z := 4294967295.
Definition w32 (x : Z) : Z := Z.land x mask32.
Definition add32 (x y : Z) : Z := w32 (x + y).
Definition rotr (n x : Z) : Z := Z.lor (Z.shiftr x n) (w32 (Z.shiftl x (32 - n))).
Definition not32 (x : Z) : Z := Z.lxor x mask32.

Definition Ch (x y z : Z) : Z := Z.lxor (Z.land x y) (Z.land (not32 x) z).
Definition Maj (x y z : Z) : Z :=
  Z.lxor (Z.lxor (Z.land x y) (Z.land x z)) (Z.land y z).
Definition Sigma0 (x : Z) : Z := Z.lxor (Z.lxor (rotr 2 x) (rotr 13 x)) (rotr 22 x).
Definition Sigma1 (x : Z) : Z := Z.lxor (Z.lxor (rotr 6 x) (rotr 11 x)) (rotr 25 x).
Definition sigma0 (x : Z) : Z := Z.lxor (Z.lxor (rotr 7 x) (rotr 18 x)) (Z.shiftr x 3).
Definition sigma1 (x : Z) : Z := Z.lxor (Z.lxor (rotr 17 x) (rotr 19 x)) (Z.shiftr x 10).

(** The primes below [n + 2], by trial division. *)
Definition is_prime (p : nat) : bool :=
  forallb (fun k => negb (Nat.eqb (p mod k) 0)) (seq 2 (p - 2)).

Definition primes_below (n : nat) : list Z :=
  map Z.of_nat (filter is_prime (seq 2 n)).

(** The integer cube root of [x], found bit by bit from bit [n] down. *)
Fixpoint cube_root (n : nat) (x acc : Z) : Z :=
  match n with
  | O => acc
  | S k =>
      let c := acc + 2 ^ Z.of_nat k in
      if Z.leb (c * c * c) x then cube_root k x c else cube_root k x acc
  end.

(** The round constants: the first thirty-two bits of the fractional parts
    of the cube roots of the first sixty-four primes. *)
Definition K : list Z :=
  Eval vm_compute in
    map (fun p => w32 (cube_root 40 (p * 2 ^ 96) 0)) (primes_below 310).

(** The initial hash value: the first thirty-two bits of the fractional
    parts of the square roots of the first eight primes. *)
Definition H0 : list Z :=
  Eval vm_compute in
    map (fun p => w32 (Z.sqrt (p * 2 ^ 64))) (primes_below 18).

(** Big-endian packing of four bytes into a word, and of a block into
    sixteen words. *)
Fixpoint words_of (bs : list Z) : list Z :=
  match bs with
  | a :: b :: c :: d :: rest =>
      (Z.shiftl a 24 + Z.shiftl b 16 + Z.shiftl c 8 + d) :: words_of rest
  | _ => []
  end.

(** Message schedule: [n] further words appended to [w]. *)
Fixpoint schedule (n : nat) (w : list Z) : list Z :=
  match n with
  | O => w
  | S n' =>
      let t := List.length w in
      let at_ (k : nat) := nth (t - k) w 0 in
      schedule n'
        (w ++ [add32 (add32 (sigma1 (at_ 2%nat)) (at_ 7%nat))
                     (add32 (sigma0 (at_ 15%nat)) (at_ 16%nat))])
  end.

Record regs := Regs { ra : Z; rb : Z; rc : Z; rd : Z; re : Z; rf : Z; rg : Z; rh : Z }.

Definition round (r : regs) (kw : Z * Z) : regs :=
  let t1 := add32 (add32 (add32 (rh r) (Sigma1 (re r)))
                         (add32 (Ch (re r) (rf r) (rg r)) (fst kw))) (snd kw) in
  let t2 := add32 (Sigma0 (ra r)) (Maj (ra r) (rb r) (rc r)) in
  Regs (add32 t1 t2) (ra r) (rb r) (rc r) (add32 (rd r) t1) (re r) (rf r) (rg r).

Definition regs_of (h : list Z) : regs :=
  Regs (nth 0 h 0) (nth 1 h 0) (nth 2 h 0) (nth 3 h 0)
       (nth 4 h 0) (nth 5 h 0) (nth 6 h 0) (nth 7 h 0).

Definition list_of (r : regs) : list Z :=
  [ra r; rb r; rc r; rd r; re r; rf r; rg r; rh r].

Definition compress (h : list Z) (block : list Z) : list Z :=
  let w := schedule 48 (words_of block) in
  let r := fold_left round (combine K w) (regs_of h) in
  map (fun p => add32 (fst p) (snd p)) (combine h (list_of r)).

(** The 64-bit big-endian bit length. *)
Definition length_bytes (bits : Z) : list Z :=
  map (fun i => Z.land (Z.shiftr bits (8 * (7 - Z.of_nat i))) 255) (seq 0 8).

Definition pad (msg : list Z) : list Z :=
  let l := Z.of_nat (List.length msg) in
  let zeros := Z.to_nat ((55 - l) mod 64) in
  msg ++ [128] ++ repeat 0 zeros ++ length_bytes (8 * l).

Fixpoint blocks (n : nat) (h : list Z) (bs : list Z) : list Z :=
  match n with
  | O => h
  | S n' => blocks n' (compress h (firstn 64 bs)) (skipn 64 bs)
  end.

(** [sha256.Sum256]: the digest as thirty-two bytes. *)
Definition sum (msg : list Z) : list Z :=
  let p := pad msg in
  let h := blocks (List.length p / 64)%nat H0 p in
  flat_map (fun w => [Z.shiftr w 24; Z.land (Z.shiftr w 16) 255;
                      Z.land (Z.shiftr w 8) 255; Z.land w 255]) h.

(** [hex.EncodeToString]: two lower-case digits per byte. *)
Definition hexdigit (n : Z) : ascii :=
  nth (Z.to_nat n) (list_ascii_of_string "0123456789abcdef") "0"%char.

Fixpoint EncodeToString (bs : list Z) : string :=
  match bs with
  | [] => ""
  | b :: rest => String (hexdigit (b / 16)) (String (hexdigit (b mod 16)) (EncodeToString rest))
  end.

End Sha256.


(** A Go [(T, error)] result; an [error] is represented by its message
    ([err.Error()]), and [fmt.Errorf("ctx: %w", err)] by concatenation. *)
Inductive result (A : Type) : Type :=
| Ok (a : A)
| Err (msg : string).
Arguments Ok {A} a.
Arguments Err {A} msg.

(** [err != nil] *)
Definition is_err {A : Type} (r : result A) : bool :=
  match r with Err _ => true | Ok _ => false end.

(** ** Package [internal/flight]: configuration, client and pool *)

Module flight.

(** [type Config struct] *)
Record Config := mkConfig {
  URI : string;
  Username : string;
  Password : string;
  SkipVerify : bool
}.

(** *** Pool key *)

(** The bytes that [configKey] writes into the hash, in order. *)
Definition keyMaterial (cfg : Config) : string :=
  URI cfg ++ Go.NUL ++ Username cfg ++ Go.NUL ++ Password cfg ++ Go.NUL
    ++ Go.Sprint_bool (SkipVerify cfg).

(** [func (p *Pool) configKey(cfg Config) string] *)
Definition configKey (cfg : Config) : string :=
  Sha256.EncodeToString (Sha256.sum (Go.bytes_of (keyMaterial cfg))).

(** *** Client *)

(** The ADBC database and connection objects are identified by a handle;
    Go's [nil] is [None]. *)
Definition handle := nat.

(** [type Client struct { db adbc.Database; conn adbc.Connection }] *)
Record Client := mkClient {
  db : option handle;
  conn : option handle
}.

(** The store: [*Client] pointers are addresses into [heap]; [closed]
    holds the handles on which the driver's [Close] was called; [fresh] is
    the next unused address or handle. *)
Record World := mkWorld {
  heap : gmap nat Client;
  closed : gset handle;
  fresh : nat
}.

(** What the driver answers when [Connect] dials. *)
Inductive DialOutcome :=
| DialOk
| NewDatabaseFails (e : string)
| OpenFails (e : string).

(** [func Connect(ctx, cfg)], returning a pointer to the new client or an error *)
Definition Connect (w : World) (cfg : Config) (d : DialOutcome) : result nat * World :=
  match d with
  | NewDatabaseFails e => (Err ("create database: " ++ e), w)
  | OpenFails e =>
      (* the database object was created and is closed again *)
      (Err ("open connection: " ++ e),
       mkWorld (heap w) ({[ fresh w ]} ∪ closed w) (S (fresh w)))
  | DialOk =>
      let c := mkClient (Some (fresh w)) (Some (S (fresh w))) in
      let ptr := S (S (fresh w)) in
      (Ok ptr, mkWorld (<[ ptr := c ]> (heap w)) (closed w) (S ptr))
  end.

Definition is_nil (h : option handle) : bool :=
  match h with Some _ => false | None => true end.

(** [func (c *Client) IsHealthy() bool] *)
Definition IsHealthy (c : Client) : bool :=
  negb (is_nil (conn c)) && negb (is_nil (db c)).

Definition handles_of (c : Client) : gset handle :=
  match conn c with Some h => {[ h ]} | None => ∅ end ∪
  match db c with Some h => {[ h ]} | None => ∅ end.

(** The errors collected by [Close]: [econn] and [edb] are what the
    driver's two [Close] calls return. *)
Definition close_errs (c : Client) (econn edb : option string) : list string :=
  (match conn c, econn with Some _, Some e => [e] | _, _ => [] end ++
   match db c, edb with Some _, Some e => [e] | _, _ => [] end)%list.

(** [func (c *Client) Close() error].  The result is the returned error,
    the receiver as [Close] leaves it, and the set of closed handles.
    [fmt.Errorf("close errors: %v", errs)] prints the slice in brackets,
    its elements separated by a blank. *)
Definition Close (c : Client) (cl : gset handle) (econn edb : option string)
  : option string * Client * gset handle :=
  let errs := close_errs c econn edb in
  (match errs with
   | [] => None
   | _ => Some ("close errors: [" ++ Go.Join errs " " ++ "]")
   end,
   c,
   handles_of c ∪ cl).

(** [p.Close()] for a pointer [p] into the store. *)
Definition Close_at (w : World) (p : nat) (econn edb : option string)
  : option string * World :=
  match heap w !! p with
  | Some c =>
      let '(e, c', cl) := Close c (closed w) econn edb in
      (e, mkWorld (<[ p := c' ]> (heap w)) cl (fresh w))
  | None => (None, w)
  end.

(** [p.IsHealthy()] for a pointer [p] into the store. *)
Definition IsHealthy_at (w : World) (p : nat) : bool :=
  match heap w !! p with
  | Some c => IsHealthy c
  | None => false
  end.

(** *** Pool *)

(** [type PooledClient struct]; [client] is a [*Client]. *)
Record PooledClient := mkPooled {
  client : nat;
  lastUsed : Z;
  key : string;
  inUse : bool
}.

(** [type Pool struct]; the mutex is represented by the lock events of
    the traces below.  Durations are nanoseconds. *)
Record Pool := mkPool {
  clients : gmap string PooledClient;
  maxIdle : Z
}.

(** [type ConnectionResult struct { Client *Client; IsPooled bool }] *)
Record ConnectionResult := mkResult {
  CR_Client : nat;
  IsPooled : bool
}.

(** [func NewPool() *Pool]: [maxIdle] is five minutes. *)
Definition NewPool : Pool := mkPool ∅ (5 * 60 * 1000000000).

(** What one call does, in program order: taking and releasing the pool
    mutex, dialling the remote server, closing a client. *)
Inductive Event :=
| EvLock
| EvUnlock
| EvConnect (cfg : Config)
| EvClientClose (p : nat).

(** The tail of [Get]: "Create new connection and add to pool". *)
Definition connect_and_add (p : Pool) (w : World) (cfg : Config) (k : string)
    (now : Z) (d : DialOutcome) : result ConnectionResult * Pool * World :=
  match Connect w cfg d with
  | (Err e, w') => (Err e, p, w')
  | (Ok c, w') =>
      (Ok (mkResult c true),
       mkPool (<[ k := mkPooled c now k true ]> (clients p)) (maxIdle p),
       w')
  end.

(** [func (p *Pool) Get(ctx, cfg)], returning a connection result or an error.
    [t_since] is the clock read by [time.Since], [t_now] the one read by
    [time.Now]; the pool's use of [Close] discards its error.  The deferred
    [Unlock] runs when [Get] returns, so it ends every trace. *)
Definition Get (p : Pool) (w : World) (cfg : Config) (t_since t_now : Z)
    (d : DialOutcome) : result ConnectionResult * Pool * World * list Event :=
  let k := configKey cfg in
  match clients p !! k with
  | Some pc =>
      if inUse pc then
        (* Case 1: connection in use, create a new unmanaged connection *)
        match Connect w cfg d with
        | (Err e, w') => (Err e, p, w', [EvLock; EvConnect cfg; EvUnlock])
        | (Ok c, w') => (Ok (mkResult c false), p, w', [EvLock; EvConnect cfg; EvUnlock])
        end
      else if IsHealthy_at w (client pc) && Z.ltb (t_since - lastUsed pc) (maxIdle p) then
        (* Case 2: healthy and fresh, reuse *)
        (Ok (mkResult (client pc) true),
         mkPool (<[ k := mkPooled (client pc) t_now (key pc) true ]> (clients p)) (maxIdle p),
         w, [EvLock; EvUnlock])
      else
        (* Case 3: unhealthy or stale, close and remove *)
        let w1 := snd (Close_at w (client pc) None None) in
        let p1 := mkPool (delete k (clients p)) (maxIdle p) in
        let '(r, p2, w2) := connect_and_add p1 w1 cfg k t_now d in
        (r, p2, w2, [EvLock; EvClientClose (client pc); EvConnect cfg; EvUnlock])
  | None =>
      let '(r, p2, w2) := connect_and_add p w cfg k t_now d in
      (r, p2, w2, [EvLock; EvConnect cfg; EvUnlock])
  end.

(** [func (p *Pool) Release(cfg Config)] *)
Definition Release (p : Pool) (cfg : Config) (t_now : Z) : Pool * list Event :=
  let k := configKey cfg in
  match clients p !! k with
  | Some pc =>
      (mkPool (<[ k := mkPooled (client pc) t_now (key pc) false ]> (clients p)) (maxIdle p),
       [EvLock; EvUnlock])
  | None => (p, [EvLock; EvUnlock])
  end.

(** [func (p *Pool) Close()]: every entry is closed and deleted.  Go
    ranges over the map in an unspecified order; [map_to_list] fixes one. *)
Definition Pool_Close (p : Pool) (w : World) : Pool * World * list Event :=
  let entries := map snd (map_to_list (clients p)) in
  (mkPool ∅ (maxIdle p),
   fold_left (fun w' pc => snd (Close_at w' (client pc) None None)) entries w,
   ([EvLock] ++ map (fun pc => EvClientClose (client pc)) entries ++ [EvUnlock])%list).

(** [rpc_under_lock held tr]: some event of [tr] that calls into the
    Flight client happens while the mutex is held. *)
Fixpoint rpc_under_lock (held : bool) (tr : list Event) : bool :=
  match tr with
  | [] => false
  | EvLock :: tr' => rpc_under_lock true tr'
  | EvUnlock :: tr' => rpc_under_lock false tr'
  | EvConnect _ :: tr' => held || rpc_under_lock held tr'
  | EvClientClose _ :: tr' => held || rpc_under_lock held tr'
  end.

Definition is_lock_event (e : Event) : bool :=
  match e with EvLock | EvUnlock => true | _ => false end.

(** [bracketed tr]: the mutex is taken by the first event of [tr],
    released by the last, and not touched in between. *)
Definition bracketed (tr : list Event) : Prop :=
  exists mid, tr = (EvLock :: mid ++ [EvUnlock])%list /\
              forallb (fun e => negb (is_lock_event e)) mid = true.

(** The calls that can be made on the process-wide pool and on the
    clients it hands out, with the answers of the environment. *)
Inductive Op :=
| OpGet (cfg : Config) (t_since t_now : Z) (d : DialOutcome)
| OpRelease (cfg : Config) (t_now : Z)
| OpPoolClose
| OpClientClose (p : nat) (econn edb : option string)
| OpClientIsHealthy (p : nat).

Definition step (s : Pool * World) (o : Op) : Pool * World :=
  match o with
  | OpGet cfg t1 t2 d =>
      let '(_, p', w', _) := Get (fst s) (snd s) cfg t1 t2 d in (p', w')
  | OpRelease cfg t => (fst (Release (fst s) cfg t), snd s)
  | OpPoolClose =>
      let '(p', w', _) := Pool_Close (fst s) (snd s) in (p', w')
  | OpClientClose p econn edb => (fst s, snd (Close_at (snd s) p econn edb))
  | OpClientIsHealthy p => s
  end.

Definition initial : Pool * World := (NewPool, mkWorld ∅ ∅ 0).

(** The states of pool and store that a run of the program can be in. *)
Inductive reachable : Pool * World -> Prop :=
| reach_init : reachable initial
| reach_step s o : reachable s -> reachable (step s o).


(** The invariant of pool and store: every client of the store lies
    below the allocation mark and has both its handles; every pool entry
    points to a client of the store; no two entries share a client. *)
Definition inv (m : gmap string PooledClient) (h : gmap nat Client) (f : nat) : Prop :=
  (forall a c, h !! a = Some c -> (a < f)%nat /\ IsHealthy c = true) /\
  (forall k pc, m !! k = Some pc -> is_Some (h !! client pc)) /\
  (forall k1 k2 pc1 pc2,
      m !! k1 = Some pc1 -> m !! k2 = Some pc2 -> client pc1 = client pc2 -> k1 = k2).

Definition pool_inv (s : Pool * World) : Prop :=
  inv (clients (fst s)) (heap (snd s)) (fresh (snd s)).

(** The handles of the store: every handle of a client lies below the
    allocation mark, and no two clients share a handle. *)
Definition handles_inv (w : World) : Prop :=
  (forall a c h, heap w !! a = Some c -> h ∈ handles_of c -> (h < fresh w)%nat) /\
  (forall a1 a2 c1 c2 h,
      heap w !! a1 = Some c1 -> heap w !! a2 = Some c2 ->
      h ∈ handles_of c1 -> h ∈ handles_of c2 -> a1 = a2).

(** *** Arrow data, as far as the metadata code looks into it *)

(** A slot of an array is [None] when it is null.  A list array gives for
    every row its value offsets [(start, end)] into the child array. *)
#[warnings="-register-all"] Inductive Array :=
| StringArr (vals : list (option string))
| Int16Arr (vals : list (option Z))
| Int32Arr (vals : list (option Z))
| Int64Arr (vals : list (option Z))
| ListArr (offsets : list (option (Z * Z))) (values : Array)
| StructArr (fields : list (string * Array))
| OtherArr.

Record RecordBatch := mkBatch {
  columns : list Array;
  NumRows : Z
}.

(** A record reader: the batches that [Next] delivers, and what [Err]
    reports once [Next] has returned false. *)
Record Reader := mkReader {
  batches : list RecordBatch;
  reader_err : option string
}.

(** [arr.IsNull(i)] and [arr.Value(i)] in one: the value of slot [i], or
    [None] when it is null.  Well-formed Arrow data keeps every index in
    range; a slot out of range is read as null. *)
Definition slot {A : Type} (vals : list (option A)) (i : Z) : option A :=
  if Z.ltb i 0 then None
  else match nth_error vals (Z.to_nat i) with
       | Some v => v
       | None => None
       end.

(** The indices of [for i := lo; i < hi; i++]. *)
Definition range (lo hi : Z) : list Z :=
  map (fun k => lo + Z.of_nat k) (seq 0 (Z.to_nat (hi - lo))).

Definition NumCols (rec : RecordBatch) : Z := Z.of_nat (length (columns rec)).

(** *** Statements *)

(** What the driver answers to the three calls behind a statement. *)
Inductive StmtOutcome (A : Type) : Type :=
| NewStatementFails (e : string)
| SetSqlQueryFails (e : string)
| ExecuteFails (e : string)
| Executed (a : A).
Arguments NewStatementFails {A} e.
Arguments SetSqlQueryFails {A} e.
Arguments ExecuteFails {A} e.
Arguments Executed {A} a.

(** The calls a client makes to the remote server. *)
Inductive Rpc :=
| RpcGetObjects (schema table : option string)
| RpcQuery (sql : string)
| RpcExecuteUpdate (sql : string).

(** [func (c *Client) Query(ctx, sql)] *)
Definition Query (sql : string) (o : StmtOutcome Reader) : result Reader * list Rpc :=
  (match o with
   | NewStatementFails e => Err ("create statement: " ++ e)
   | SetSqlQueryFails e => Err ("set query: " ++ e)
   | ExecuteFails e => Err ("execute query: " ++ e)
   | Executed r => Ok r
   end, [RpcQuery sql]).

(** [func (c *Client) Execute(ctx, sql) (int64, error)]; the driver's
    [ExecuteUpdate] returns the affected-row count, which is -1 when the
    server does not report one. *)
Definition Execute (sql : string) (o : StmtOutcome Z) : result Z * list Rpc :=
  (match o with
   | NewStatementFails e => Err ("create statement: " ++ e)
   | SetSqlQueryFails e => Err ("set query: " ++ e)
   | ExecuteFails e => Err ("execute update: " ++ e)
   | Executed affected => Ok affected
   end, [RpcExecuteUpdate sql]).

(** *** Schemas *)

(** The body of the [for reader.Next()] loop of [getSchemasViaADBC]. *)
Definition schemas_of_batch (rec : RecordBatch) : list string :=
  if Z.ltb (NumCols rec) 2 then [] else
  match nth_error (columns rec) 1 with
  | Some (ListArr listArr (StructArr ((_, StringArr stringArr) :: _))) =>
      flat_map (fun i =>
        match slot listArr i with
        | None => []
        | Some (start, end_) =>
            flat_map (fun j => match slot stringArr j with
                               | Some v => [v]
                               | None => []
                               end) (range start end_)
        end) (range 0 (NumRows rec))
  | _ => []
  end.

(** [getSchemasViaADBC]; [objs] is the answer to [GetObjects]. *)
Definition getSchemasViaADBC (objs : result Reader) : result (list string) * list Rpc :=
  (match objs with
   | Err e => Err ("get objects: " ++ e)
   | Ok reader =>
       match reader_err reader with
       | Some e => Err ("read objects: " ++ e)
       | None => Ok (flat_map schemas_of_batch (batches reader))
       end
   end, [RpcGetObjects None None]).

(** The non-null values of the first column, when it is a string column. *)
Definition first_column_strings (rec : RecordBatch) : list string :=
  if Z.ltb (NumCols rec) 1 then [] else
  match nth_error (columns rec) 0 with
  | Some (StringArr stringArr) =>
      flat_map (fun v => match v with Some s => [s] | None => [] end) stringArr
  | _ => []
  end.

(** [getSchemasViaSQL] *)
Definition getSchemasViaSQL (o : StmtOutcome Reader) : result (list string) * list Rpc :=
  match Query "SELECT schema_name FROM information_schema.schemata" o with
  | (Err e, log) => (Err ("query schemas: " ++ e), log)
  | (Ok reader, log) =>
      (match reader_err reader with
       | Some e => Err ("read schemas: " ++ e)
       | None => Ok (flat_map first_column_strings (batches reader))
       end, log)
  end.

(** [func (c *Client) GetSchemas(ctx) ([]string, error)] *)
Definition GetSchemas (objs : result Reader) (o : StmtOutcome Reader)
  : result (list string) * list Rpc :=
  match getSchemasViaADBC objs with
  | (Ok schemas, log) => (Ok schemas, log)
  | (Err _, log) =>
      (* Fall back to SQL query *)
      let '(r, log') := getSchemasViaSQL o in (r, (log ++ log')%list)
  end.

(** *** Tables *)

Record TableInfo := mkTable {
  Schema : string;
  TName : string
}.

Definition tables_of_batch (rec : RecordBatch) : list TableInfo :=
  if Z.ltb (NumCols rec) 2 then [] else
  match nth_error (columns rec) 1 with
  | Some (ListArr schemasListArr
            (StructArr ((_, StringArr schemaNameArr)
                        :: (_, ListArr tablesListArr
                                 (StructArr ((_, StringArr tableNameArr) :: _)))
                        :: _))) =>
      flat_map (fun i =>
        match slot schemasListArr i with
        | None => []
        | Some (schemaStart, schemaEnd) =>
            flat_map (fun j =>
              match slot schemaNameArr j with
              | None => []
              | Some schemaName =>
                  match slot tablesListArr j with
                  | None => []
                  | Some (tableStart, tableEnd) =>
                      flat_map (fun k =>
                        match slot tableNameArr k with
                        | Some name => [mkTable schemaName name]
                        | None => []
                        end) (range tableStart tableEnd)
                  end
              end) (range schemaStart schemaEnd)
        end) (range 0 (NumRows rec))
  | _ => []
  end.

Definition getTablesViaADBC (schema : string) (objs : result Reader)
  : result (list TableInfo) * list Rpc :=
  (match objs with
   | Err e => Err ("get objects: " ++ e)
   | Ok reader =>
       match reader_err reader with
       | Some e => Err ("read objects: " ++ e)
       | None => Ok (flat_map tables_of_batch (batches reader))
       end
   end, [RpcGetObjects (Some schema) None]).

Definition getTablesViaSQL (schema : string) (o : StmtOutcome Reader)
  : result (list TableInfo) * list Rpc :=
  match Query ("SELECT table_name FROM information_schema.tables WHERE table_schema = '"
                 ++ schema ++ "'") o with
  | (Err e, log) => (Err ("query tables: " ++ e), log)
  | (Ok reader, log) =>
      (match reader_err reader with
       | Some e => Err ("read tables: " ++ e)
       | None =>
           Ok (flat_map (fun rec => map (mkTable schema) (first_column_strings rec))
                        (batches reader))
       end, log)
  end.

(** [func (c *Client) GetTables(ctx, schema) ([]TableInfo, error)] *)
Definition GetTables (schema : string) (objs : result Reader) (o : StmtOutcome Reader)
  : result (list TableInfo) * list Rpc :=
  match getTablesViaADBC schema objs with
  | (Ok tables, log) => (Ok tables, log)
  | (Err _, log) =>
      let '(r, log') := getTablesViaSQL schema o in (r, (log ++ log')%list)
  end.


(** *** Columns *)

(** [type ColumnInfo struct] *)
Record ColumnInfo := mkColumn {
  Name : string;
  TypeName : string;
  Nullable : bool;
  OrdinalPosition : Z
}.

(** The four arrays that [getColumnsViaADBC] looks up by field name in
    the column struct; [None] is Go's [nil]. *)
Record ColumnArrays := mkArrays {
  colNameArr : option (list (option string));
  ordinalArr : option (list (option Z));
  typeNameArr : option (list (option string));
  nullableArr : option (list (option Z))
}.

(** One iteration of the loop over the struct's fields: the [switch] on
    the field name, each case guarded by the type assertion. *)
Definition pick_field (a : ColumnArrays) (f : string * Array) : ColumnArrays :=
  let '(fieldName, arr) := f in
  if String.eqb fieldName "column_name" then
    match arr with
    | StringArr v => mkArrays (Some v) (ordinalArr a) (typeNameArr a) (nullableArr a)
    | _ => a
    end
  else if String.eqb fieldName "ordinal_position" then
    match arr with
    | Int32Arr v => mkArrays (colNameArr a) (Some v) (typeNameArr a) (nullableArr a)
    | _ => a
    end
  else if String.eqb fieldName "xdbc_type_name" then
    match arr with
    | StringArr v => mkArrays (colNameArr a) (ordinalArr a) (Some v) (nullableArr a)
    | _ => a
    end
  else if String.eqb fieldName "xdbc_nullable" then
    match arr with
    | Int16Arr v => mkArrays (colNameArr a) (ordinalArr a) (typeNameArr a) (Some v)
    | _ => a
    end
  else a.

Definition pick_fields (fields : list (string * Array)) : ColumnArrays :=
  fold_left pick_field fields (mkArrays None None None None).

(** The value of slot [i] of an optional array: [None] when the array is
    [nil] or the slot is null. *)
Definition opt_slot {A : Type} (arr : option (list (option A))) (i : Z) : option A :=
  match arr with
  | Some vals => slot vals i
  | None => None
  end.

(** The [ColumnInfo] built for the column at [colIdx], whose name is
    [name].  A field that is not assigned keeps Go's zero value. *)
Definition column_info (a : ColumnArrays) (name : string) (colIdx : Z) : ColumnInfo :=
  mkColumn name
    (match opt_slot (typeNameArr a) colIdx with Some t => t | None => "" end)
    (* xdbc_nullable: 0 = not nullable, 1 = nullable, 2 = unknown *)
    (match opt_slot (nullableArr a) colIdx with Some n => Z.eqb n 1 | None => false end)
    (match opt_slot (ordinalArr a) colIdx with Some o => o | None => 0 end).

(** The innermost loop: the columns of the table at [tableIdx]. *)
Definition columns_of_table (a : ColumnArrays) (names : list (option string))
    (columnsListArr : list (option (Z * Z))) (tableIdx : Z) : list ColumnInfo :=
  match slot columnsListArr tableIdx with
  | None => []
  | Some (colStart, colEnd) =>
      flat_map (fun colIdx =>
        match slot names colIdx with
        | None => []
        | Some name => [column_info a name colIdx]
        end) (range colStart colEnd)
  end.

(** The way down a batch of [GetObjects]: the offsets of the three list
    levels (schemas of a catalog, tables of a schema, columns of a table)
    and the fields of the column struct; [None] where the loop body says
    [continue]. *)
Definition columns_struct (rec : RecordBatch)
  : option (list (option (Z * Z)) * list (option (Z * Z)) * list (option (Z * Z))
            * list (string * Array)) :=
  if Z.ltb (NumCols rec) 2 then None else
  match nth_error (columns rec) 1 with
  | Some (ListArr dbSchemasListArr
            (StructArr (_ :: (_, ListArr tablesListArr
                                   (StructArr (_ :: _ :: (_, ListArr columnsListArr
                                                               (StructArr colFields)) :: _)))
                        :: _))) =>
      Some (dbSchemasListArr, tablesListArr, columnsListArr, colFields)
  | _ => None
  end.

Definition columns_of_batch (rec : RecordBatch) : list ColumnInfo :=
  match columns_struct rec with
  | None => []
  | Some (dbSchemasListArr, tablesListArr, columnsListArr, colFields) =>
      let a := pick_fields colFields in
      match colNameArr a with
      | None => []
      | Some names =>
          flat_map (fun rowIdx =>
            match slot dbSchemasListArr rowIdx with
            | None => []
            | Some (schemaStart, schemaEnd) =>
                flat_map (fun schemaIdx =>
                  match slot tablesListArr schemaIdx with
                  | None => []
                  | Some (tableStart, tableEnd) =>
                      flat_map (columns_of_table a names columnsListArr)
                               (range tableStart tableEnd)
                  end) (range schemaStart schemaEnd)
            end) (range 0 (NumRows rec))
      end
  end.

(** [getColumnsViaADBC] *)
Definition getColumnsViaADBC (schema table : string) (objs : result Reader)
  : result (list ColumnInfo) * list Rpc :=
  (match objs with
   | Err e => Err ("get objects: " ++ e)
   | Ok reader =>
       match reader_err reader with
       | Some e => Err ("read objects: " ++ e)
       | None => Ok (flat_map columns_of_batch (batches reader))
       end
   end, [RpcGetObjects (Some schema) (Some table)]).

(** The rows of one batch of the [information_schema.columns] query. *)
Definition sql_columns_of_batch (rec : RecordBatch) : list ColumnInfo :=
  if Z.ltb (NumCols rec) 4 then [] else
  match columns rec with
  | StringArr colNameArr :: StringArr dataTypeArr :: StringArr nullableArr :: ord :: _ =>
      let getOrdinal (i : Z) : Z :=
        match ord with
        | Int32Arr v | Int64Arr v => match slot v i with Some o => o | None => 0 end
        | _ => i + 1
        end in
      flat_map (fun i =>
        match slot colNameArr i with
        | None => []
        | Some name =>
            [mkColumn name
               (match slot dataTypeArr i with Some t => t | None => "" end)
               (match slot nullableArr i with Some n => String.eqb n "YES" | None => false end)
               (getOrdinal i)]
        end) (range 0 (Z.of_nat (length colNameArr)))
  | _ => []
  end.

(** [getColumnsViaSQL] *)
Definition getColumnsViaSQL (schema table : string) (o : StmtOutcome Reader)
  : result (list ColumnInfo) * list Rpc :=
  match Query ("SELECT column_name, data_type, is_nullable, ordinal_position FROM information_schema.columns WHERE table_schema = '"
                 ++ schema ++ "' AND table_name = '" ++ table
                 ++ "' ORDER BY ordinal_position") o with
  | (Err e, log) => (Err ("query columns: " ++ e), log)
  | (Ok reader, log) =>
      (match reader_err reader with
       | Some e => Err ("read columns: " ++ e)
       | None => Ok (flat_map sql_columns_of_batch (batches reader))
       end, log)
  end.

(** [func (c *Client) GetColumns(ctx, schema, table) ([]ColumnInfo, error)] *)
Definition GetColumns (schema table : string) (objs : result Reader)
    (o : StmtOutcome Reader) : result (list ColumnInfo) * list Rpc :=
  match getColumnsViaADBC schema table objs with
  | (Ok cols, log) => (Ok cols, log)
  | (Err _, log) =>
      let '(r, log') := getColumnsViaSQL schema table o in (r, (log ++ log')%list)
  end.

End flight.

(** ** Package [internal/validation] *)

Module validation.

(** The two functions of Go's library that [ValidateURI] calls:
    [strings.TrimSpace], and [url.Parse] followed by reading [Host]. *)
Record Lib := mkLib {
  TrimSpace : string -> string;
  url_Parse_Host : string -> result string
}.

Definition trim_prefix (p s : string) : string :=
  String.substring (String.length p) (String.length s - String.length p) s.

(** [func ValidateURI(uri string) error]; [None] is Go's [nil]. *)
Definition ValidateURI (lib : Lib) (uri0 : string) : option string :=
  let uri := TrimSpace lib uri0 in
  if String.eqb uri "" then Some "URI cannot be empty"
  else if Z.ltb 2048 (Go.len uri) then
    Some "URI exceeds maximum length of 2048 characters"
  else
    let hostPart :=
      if Go.HasPrefix uri "grpc+tls://" then Some (trim_prefix "grpc+tls://" uri)
      else if Go.HasPrefix uri "grpc://" then Some (trim_prefix "grpc://" uri)
      else None in
    match hostPart with
    | None => Some "URI must start with grpc:// or grpc+tls://"
    | Some h =>
        if String.eqb h "" then Some "URI must include a host"
        else match url_Parse_Host lib ("http://" ++ h) with
             | Err e => Some ("invalid URI format: " ++ e)
             | Ok host =>
                 if String.eqb host "" then Some "URI must include a valid host"
                 else None
             end
    end.

(** The end-of-line and tab bytes. *)
Definition LF : string := String "010"%char EmptyString.
Definition CR : string := String "013"%char EmptyString.
Definition TAB : string := String "009"%char EmptyString.

(** [dangerousPatterns] of [ValidateTableName]. *)
Definition dangerousPatterns : list string :=
  [";"; "--"; "/*"; "*/"; Go.NUL; LF; CR; TAB].

(** [func ValidateTableName(name string) error]; [None] is Go's [nil]. *)
Definition ValidateTableName (name : string) : option string :=
  if Z.eqb (Go.len name) 0 then Some "table name cannot be empty"
  else if Z.ltb 255 (Go.len name) then
    Some "table name exceeds maximum length of 255 characters"
  else if existsb (Go.Contains name) dangerousPatterns then
    Some "table name contains invalid characters"
  else None.

End validation.

(** ** Package [main]: query builder *)

Module main.

Definition DQDQ : string := Go.DQ ++ Go.DQ.

(** [func buildProjectedQuery(tableName string, columns []string) string] *)
Definition buildProjectedQuery (tableName : string) (columns : list string) : string :=
  let escapedTable := Go.ReplaceAll tableName Go.DQ DQDQ in
  let columnList :=
    match columns with
    | [] => "*"
    | _ => Go.Join (map (fun col => Go.DQ ++ Go.ReplaceAll col Go.DQ DQDQ ++ Go.DQ) columns) ", "
    end in
  "SELECT " ++ columnList ++ " FROM " ++ Go.DQ ++ escapedTable ++ Go.DQ.

(** [func buildSchemaQuery(tableName string) string] *)
Definition buildSchemaQuery (tableName : string) : string :=
  "SELECT * FROM " ++ Go.DQ ++ Go.ReplaceAll tableName Go.DQ DQDQ ++ Go.DQ ++ " WHERE 1=0".

(** *** The two regular expressions of [extractTableName]

    Go's [regexp] finds the leftmost match and, among the matches that
    start there, the one a backtracking search meets first.  The matchers
    below follow the two patterns piece by piece. *)

(** [\s] is one of tab, newline, form feed, carriage return, blank. *)
Definition is_space (c : ascii) : bool :=
  let n := Go.byte_of c in
  Z.eqb n 9 || Z.eqb n 10 || Z.eqb n 12 || Z.eqb n 13 || Z.eqb n 32.

Definition is_upper (c : ascii) : bool :=
  let n := Go.byte_of c in Z.leb 65 n && Z.leb n 90.

Definition to_lower (c : ascii) : ascii :=
  if is_upper c then ascii_of_N (N_of_ascii c + 32) else c.

(** [(?i)lit] at the head of [s], for an upper-case ASCII literal: the
    rest of [s] after the match.  Under [(?i)] the letter S also matches
    U+017F, whose UTF-8 encoding is the bytes [0xC5 0xBF]. *)
Fixpoint lit_ci (lit s : string) : option string :=
  match lit with
  | EmptyString => Some s
  | String a lit' =>
      match s with
      | EmptyString => None
      | String b s' =>
          if Ascii.eqb (to_lower a) (to_lower b) then lit_ci lit' s'
          else if Ascii.eqb a "S"%char && Ascii.eqb b "197"%char then
            match s' with
            | String b2 s'' => if Ascii.eqb b2 "191"%char then lit_ci lit' s'' else None
            | EmptyString => None
            end
          else None
      end
  end.

Fixpoint skip_spaces (s : string) : string :=
  match s with
  | String c s' => if is_space c then skip_spaces s' else s
  | EmptyString => s
  end.

(** [\s+] at the head of [s]; what follows [\s+] in both patterns cannot
    start with a space, so all the spaces are taken. *)
Definition spaces1 (s : string) : option string :=
  match s with
  | String c s' => if is_space c then Some (skip_spaces s') else None
  | EmptyString => None
  end.

Definition star (s : string) : option string :=
  match s with
  | String c s' => if Ascii.eqb c "*"%char then Some s' else None
  | EmptyString => None
  end.

Definition bind {A B : Type} (o : option A) (f : A -> option B) : option B :=
  match o with Some a => f a | None => None end.

(** [(?i)SELECT\s+\*\s+FROM\s+] at the head of [s]. *)
Definition select_star_from (s : string) : option string :=
  bind (lit_ci "SELECT" s) (fun s1 =>
  bind (spaces1 s1) (fun s2 =>
  bind (star s2) (fun s3 =>
  bind (spaces1 s3) (fun s4 =>
  bind (lit_ci "FROM" s4) (fun s5 =>
  spaces1 s5))))).

(** The capture group (any run of bytes other than the double quote,
    then any number of times a doubled quote and such a run) followed by
    the closing quote, at the head of [s]: the text captured by the group.
    The repetition is
    greedy: a doubled quote continues the group when the rest can still be
    closed, and otherwise its first quote closes it. *)
Fixpoint quoted_body (s : string) : option string :=
  match s with
  | EmptyString => None
  | String c rest =>
      if Ascii.eqb c Go.dq then
        match rest with
        | String c2 rest2 =>
            if Ascii.eqb c2 Go.dq then
              match quoted_body rest2 with
              | Some r => Some (String Go.dq (String Go.dq r))
              | None => Some EmptyString
              end
            else Some EmptyString
        | EmptyString => Some EmptyString
        end
      else
        match quoted_body rest with
        | Some r => Some (String c r)
        | None => None
        end
  end.

Definition quoted_at (s : string) : option string :=
  bind (select_star_from s) (fun s1 =>
  match s1 with
  | String c s2 => if Ascii.eqb c Go.dq then quoted_body s2 else None
  | EmptyString => None
  end).

(** [(\S+)] at the head of [s]: the longest run of non-space bytes. *)
Fixpoint non_spaces (s : string) : string :=
  match s with
  | String c s' => if is_space c then EmptyString else String c (non_spaces s')
  | EmptyString => EmptyString
  end.

Definition bare_at (s : string) : option string :=
  bind (select_star_from s) (fun s1 =>
  match non_spaces s1 with
  | EmptyString => None
  | m => Some m
  end).

(** The leftmost match of a pattern that is tried at every position. *)
Fixpoint leftmost (at_ : string -> option string) (s : string) : option string :=
  match at_ s with
  | Some m => Some m
  | None =>
      match s with
      | String _ s' => leftmost at_ s'
      | EmptyString => None
      end
  end.

(** [func extractTableName(query string) string] *)
Definition extractTableName (query : string) : string :=
  match leftmost quoted_at query with
  | Some m => Go.ReplaceAll m DQDQ Go.DQ
  | None =>
      match leftmost bare_at query with
      | Some m => m
      | None => ""
      end
  end.


(** *** Scan of a table of an attached database *)

(** [type ScanBindData struct], the fields that bind and init use.
    [Reader] is [None] until init has run the query. *)
Record ScanBindData := mkScan {
  SchemaName : string;
  TableName : string;
  ColumnNames : list string;
  ProjectedColumns : list Z;
  Reader : option flight.Reader
}.

(** [int(v)] for a [size_t] value [v]: the 64-bit pattern read as signed. *)
Definition int_of_size_t (v : Z) : Z :=
  let u := v mod 2 ^ 64 in
  if Z.ltb u (2 ^ 63) then u else u - 2 ^ 64.

(** The projected column indices that [duckarrow_go_scan_init] reads from
    the C array [columnIDs] of [count] elements; with a [nil] array the
    slice keeps its zeros.  The caller passes the data and the size of one
    vector, so the array has [count] elements and [count] fits an [int]. *)
Definition projected_columns (columnIDs : option (list Z)) (count : nat) : list Z :=
  match columnIDs, count with
  | Some ids, S _ => map int_of_size_t (firstn count ids)
  | _, _ => repeat 0 count
  end.

(** [cols[i]] for the projected index [colIdx]: the quoted name, or the
    empty string that [make] left there when the index is out of range. *)
Definition projected_name (names : list string) (colIdx : Z) : string :=
  if Z.leb 0 colIdx && Z.ltb colIdx (Z.of_nat (length names)) then
    Go.quoted (Go.ReplaceAll (nth (Z.to_nat colIdx) names "") Go.DQ DQDQ)
  else "".

(** "Build query with projected columns". *)
Definition scan_column_list (names : list string) (projected : list Z) : string :=
  let count := length projected in
  if Nat.eqb count 0 || Nat.eqb count (length names) then "*"
  else Go.Join (map (projected_name names) projected) ", ".

(** The table the scan selects from. *)
Definition scan_target (schemaName tableName : string) : string :=
  if String.eqb schemaName "" then
    Go.quoted (Go.ReplaceAll tableName Go.DQ DQDQ)
  else
    Go.quoted (Go.ReplaceAll schemaName Go.DQ DQDQ) ++ "."
      ++ Go.quoted (Go.ReplaceAll tableName Go.DQ DQDQ).

Definition scan_query (b : ScanBindData) (projected : list Z) : string :=
  "SELECT " ++ scan_column_list (ColumnNames b) projected
    ++ " FROM " ++ scan_target (SchemaName b) (TableName b).

(** The value behind a [DuckArrowScanHandle]: nil, a handle that does
    not hold bind data, or the bind data of a scan. *)
Inductive ScanHandle :=
| NilHandle
| ForeignHandle
| BindHandle (bindData : ScanBindData).

(** [func duckarrow_go_scan_init(scanHandle, columnIDs, columnCount) *C.char]:
    the returned error ([None] on success), the bind data behind the
    handle afterwards, and the calls made to the remote server. *)
Definition duckarrow_go_scan_init (scanHandle : ScanHandle)
    (columnIDs : option (list Z)) (columnCount : nat)
    (o : flight.StmtOutcome flight.Reader)
  : option string * ScanHandle * list flight.Rpc :=
  match scanHandle with
  | NilHandle => (Some "duckarrow_go_scan_init: nil scan handle", NilHandle, [])
  | ForeignHandle => (Some "duckarrow_go_scan_init: invalid scan handle", ForeignHandle, [])
  | BindHandle bindData =>
      let projectedColumns := projected_columns columnIDs columnCount in
      let b1 := mkScan (SchemaName bindData) (TableName bindData)
                       (ColumnNames bindData) projectedColumns (Reader bindData) in
      let query := scan_query b1 projectedColumns in
      match flight.Query query o with
      | (Err e, log) =>
          (Some ("duckarrow_go_scan_init: query failed: " ++ e), BindHandle b1, log)
      | (Ok reader, log) =>
          (None,
           BindHandle (mkScan (SchemaName b1) (TableName b1) (ColumnNames b1)
                              projectedColumns (Some reader)),
           log)
      end
  end.

(** The SQL text that a list of calls sent to the remote server. *)
Definition remote_sql (log : list flight.Rpc) : list string :=
  flat_map (fun r => match r with
                     | flight.RpcQuery sql | flight.RpcExecuteUpdate sql => [sql]
                     | flight.RpcGetObjects _ _ => []
                     end) log.

(** *** Process-wide configuration *)

(** [type DuckArrowConfig struct]; the lock is not represented, since
    every access below is one atomic step. *)
Record DuckArrowConfig := mkGlobal {
  uri : string;
  username : string;
  password : string;
  skipVerify : bool
}.

(** [var duckArrowConfig = &DuckArrowConfig{}] *)
Definition duckArrowConfig0 : DuckArrowConfig := mkGlobal "" "" "" false.

(** [func SetDuckArrowConfig(uri, username, password string, skipVerify bool)] *)
Definition SetDuckArrowConfig (u n p : string) (s : bool) : DuckArrowConfig :=
  mkGlobal u n p s.

(** [func GetDuckArrowConfig()] *)
Definition GetDuckArrowConfig (g : DuckArrowConfig) : string * string * string * bool :=
  (uri g, username g, password g, skipVerify g).

(** [maxDuckDBChunkSize] *)
Definition maxDuckDBChunkSize : Z := 2048.

(** *** [duckarrow_configure] *)

(** One row of the input chunk: a [VARCHAR] is [None] when it is NULL;
    [arg_skip] is [None] when the call has no fourth argument.  The
    strings are what [extractString] reads from the vectors, which fails
    only on a string without data pointer. *)
Record ConfigureRow := mkRow {
  arg_uri : option string;
  arg_username : option string;
  arg_password : option string;
  arg_skip : option (option bool)
}.

(** What a scalar function leaves behind: one output slot per row it got
    to ([None] is NULL), and the error it set, if any. *)
Record ScalarResult (A : Type) := mkScalar {
  output : list (option A);
  error : option string
}.
Arguments mkScalar {A} output error.
Arguments output {A} s.
Arguments error {A} s.

(** The process environment, as [os.Getenv] reads it. *)
Definition Environ := string -> string.

(** The loop of [duckarrow_configure_callback] over the rows.  The
    callback is given the process environment like every function of the
    process; its body does not read it. *)
Fixpoint configure_rows (lib : validation.Lib) (env : Environ)
    (g : DuckArrowConfig) (rows : list ConfigureRow)
  : DuckArrowConfig * ScalarResult string :=
  match rows with
  | [] => (g, mkScalar [] None)
  | r :: rest =>
      match arg_uri r with
      | None =>
          (* NULL URI - return NULL *)
          let '(g', res) := configure_rows lib env g rest in
          (g', mkScalar (None :: output res) (error res))
      | Some u =>
          match validation.ValidateURI lib u with
          | Some e => (g, mkScalar [] (Some ("duckarrow_configure: " ++ e)))
          | None =>
              let n := match arg_username r with Some s => s | None => "" end in
              let p := match arg_password r with Some s => s | None => "" end in
              let s := match arg_skip r with Some (Some b) => b | _ => false end in
              let '(g', res) := configure_rows lib env (SetDuckArrowConfig u n p s) rest in
              (g', mkScalar (Some "DuckArrow configured successfully" :: output res)
                            (error res))
          end
      end
  end.

(** [func duckarrow_configure_callback(info, input, output)] *)
Definition duckarrow_configure_callback (lib : validation.Lib) (env : Environ)
    (g : DuckArrowConfig) (rows : list ConfigureRow)
  : DuckArrowConfig * ScalarResult string :=
  if Z.ltb maxDuckDBChunkSize (Z.of_nat (length rows)) then
    (g, mkScalar [] (Some "duckarrow_configure: input chunk size exceeds maximum"))
  else configure_rows lib env g rows.

(** *** [duckarrow_execute] *)

(** [maxSQLLength] *)
Definition maxSQLLength : Z := 1024 * 1024.

Definition has_nul (s : string) : bool :=
  existsb (fun c => Ascii.eqb c Go.nul) (list_ascii_of_string s).

(** [func setExecuteError(info, msg string)]: the error that the host
    reads from the C string it is given. *)
Definition setExecuteError (msg : string) : string :=
  Go.CString ("duckarrow_execute: " ++ msg).

(** The loop of [duckarrow_execute_callback] over the rows; every row
    comes with the answer the remote server gives if the row's statement
    is executed. *)
Fixpoint execute_rows (rows : list (option string * flight.StmtOutcome Z))
  : ScalarResult Z * list flight.Rpc :=
  match rows with
  | [] => (mkScalar [] None, [])
  | (None, _) :: rest =>
      let '(res, log) := execute_rows rest in
      (mkScalar (None :: output res) (error res), log)
  | (Some sql, o) :: rest =>
      if String.eqb sql "" then
        (mkScalar [] (Some (setExecuteError "SQL statement cannot be empty")), [])
      else if Z.ltb maxSQLLength (Go.len sql) then
        (mkScalar [] (Some (setExecuteError "SQL statement exceeds maximum length (1MB)")), [])
      else if has_nul sql then
        (mkScalar [] (Some (setExecuteError "SQL statement contains invalid null byte")), [])
      else
        match flight.Execute sql o with
        | (Err e, log) =>
            (mkScalar [] (Some (setExecuteError ("remote server: " ++ e))), log)
        | (Ok affected, log) =>
            let '(res, log') := execute_rows rest in
            (mkScalar (Some affected :: output res) (error res), (log ++ log')%list)
        end
  end.

(** [func duckarrow_execute_callback(info, input, output)]: the result of
    the function, the pool and the store afterwards, and the calls made to
    the remote server.  [d] and the clocks are what [GetConnection] and the
    deferred [ReleaseConnection] meet. *)
Definition duckarrow_execute_callback (g : DuckArrowConfig)
    (s : flight.Pool * flight.World)
    (rows : list (option string * flight.StmtOutcome Z))
    (t_since t_now t_release : Z) (d : flight.DialOutcome)
  : ScalarResult Z * (flight.Pool * flight.World) * list flight.Rpc :=
  match rows with
  | [] => (mkScalar [] None, s, [])
  | _ =>
      if Z.ltb maxDuckDBChunkSize (Z.of_nat (length rows)) then
        (mkScalar [] (Some (setExecuteError "input chunk size exceeds maximum")), s, [])
      else
        let '(u, n, p, sv) := GetDuckArrowConfig g in
        if String.eqb u "" then
          (mkScalar [] (Some (setExecuteError "not configured - call duckarrow_configure() first")),
           s, [])
        else
          let cfg := flight.mkConfig u n p sv in
          match flight.Get (fst s) (snd s) cfg t_since t_now d with
          | (Err e, pool1, w1, _) =>
              (mkScalar [] (Some (setExecuteError ("connection failed: " ++ e))),
               (pool1, w1), [])
          | (Ok connResult, pool1, w1, _) =>
              let '(res, log) := execute_rows rows in
              (* the deferred release or close *)
              let s2 :=
                if flight.IsPooled connResult
                then (fst (flight.Release pool1 cfg t_release), w1)
                else (pool1, snd (flight.Close_at w1 (flight.CR_Client connResult) None None)) in
              (res, s2, log)
          end
  end.

(** A statement that passes the three checks of the loop. *)
Definition valid_sql (sql : string) : Prop :=
  sql <> "" /\ Go.len sql <= maxSQLLength /\ has_nul sql = false.

(** A row that the loop gets past: a NULL, or a valid statement that the
    remote server executes. *)
Definition row_passes (row : option string * flight.StmtOutcome Z) : Prop :=
  match row with
  | (None, _) => True
  | (Some sql, flight.Executed _) => valid_sql sql
  | (Some _, _) => False
  end.

(** The affected-row count that the driver reports for a row. *)
Definition row_count (row : option string * flight.StmtOutcome Z) : option Z :=
  match row with
  | (Some _, flight.Executed affected) => Some affected
  | _ => None
  end.

(** The statements of the rows that are not NULL. *)
Definition row_statements (rows : list (option string * flight.StmtOutcome Z))
  : list string :=
  flat_map (fun row => match fst row with Some sql => [sql] | None => [] end) rows.

(** *** Replacement scan *)

(** [func GetDuckArrowURI() string] *)
Definition GetDuckArrowURI (g : DuckArrowConfig) : string := uri g.

(** "Strip exactly one pair of surrounding quotes if present". *)
Definition strip_quotes (name : string) : string :=
  let n := String.length name in
  match String.get 0 name, String.get (n - 1) name with
  | Some a, Some b =>
      if Nat.leb 2 n && Ascii.eqb a Go.dq && Ascii.eqb b Go.dq
      then String.substring 1 (n - 2) name
      else name
  | _, _ => name
  end.

(** What the callback tells the host: nothing (the reference is left to
    the host), an error, or the table function and its parameters that
    replace the reference. *)
Inductive Replacement :=
| Declined
| ReplacementError (msg : string)
| Rewritten (funcName : string) (params : list string).

(** [func duckarrow_replacement_scan_callback(info, tableName, extraData)].
    [ShouldSkipTable] is the filter of package [validation]. *)
Definition duckarrow_replacement_scan_callback (ShouldSkipTable : string -> bool)
    (g : DuckArrowConfig) (name : string) : Replacement :=
  let u := GetDuckArrowURI g in
  if String.eqb u "" then Declined
  else
    let actualTable := strip_quotes name in
    if ShouldSkipTable actualTable then Declined
    else
      match validation.ValidateTableName actualTable with
      | Some e => ReplacementError ("duckarrow: " ++ e)
      | None =>
          let escapedTable := Go.ReplaceAll actualTable Go.DQ DQDQ in
          let query := "SELECT * FROM " ++ Go.DQ ++ escapedTable ++ Go.DQ in
          Rewritten "duckarrow_query" [u; query]
      end.

(** *** Validity masks *)

(** A validity mask is an array of 64-bit words, one bit per row; [None]
    is the nil pointer.  [word mask i] reads entry [i]. *)
Definition word (mask : list Z) (i : Z) : Z :=
  match mask !! Z.to_nat i with Some w => w | None => 0 end.

(** The guards shared by [rowIsValid] and [setRowInvalid]: the entry of
    the row, when the row is inside the chunk.  The arguments are [uint64]
    values. *)
Definition mask_entry (rowIdx chunkSize : Z) : option Z :=
  if Z.leb chunkSize rowIdx || Z.leb maxDuckDBChunkSize rowIdx then None
  else
    let entryIdx := rowIdx / 64 in
    let requiredEntries := ((chunkSize + 63) mod 2 ^ 64) / 64 in
    if Z.leb requiredEntries entryIdx then None else Some entryIdx.

(** [func rowIsValid(validity *C.uint64_t, rowIdx uint64, chunkSize uint64) bool] *)
Definition rowIsValid (validity : option (list Z)) (rowIdx chunkSize : Z) : bool :=
  match validity with
  | None => true
  | Some mask =>
      match mask_entry rowIdx chunkSize with
      | None => false
      | Some entryIdx =>
          negb (Z.eqb (Z.land (word mask entryIdx) (Z.shiftl 1 (rowIdx mod 64))) 0)
      end
  end.

(** [func setRowInvalid(validity *C.uint64_t, rowIdx uint64, chunkSize uint64)]:
    the mask afterwards. *)
Definition setRowInvalid (validity : option (list Z)) (rowIdx chunkSize : Z)
  : option (list Z) :=
  match validity with
  | None => None
  | Some mask =>
      match mask_entry rowIdx chunkSize with
      | None => Some mask
      | Some entryIdx =>
          Some (<[ Z.to_nat entryIdx :=
                   Z.ldiff (word mask entryIdx) (Z.shiftl 1 (rowIdx mod 64)) ]> mask)
      end
  end.

(** *** Streaming a scan: [duckarrow_go_scan_next] *)

(** Arrow arrays as the type switch of [convertArrowToDuckDBVector] tells
    them apart.  A slot is [None] when it is null.  A [float64] value is the
    64 bits that are copied; an array of any other type carries the text that
    [ValueStr] (or [%v]) gives for each slot. *)
Inductive ArrowColumn :=
| ColString (vals : list (option string))
| ColInt64 (vals : list (option Z))
| ColInt32 (vals : list (option Z))
| ColFloat64 (vals : list (option Z))
| ColBoolean (vals : list (option bool))
| ColOther (texts : list (option string)).

(** A record batch of a scan. *)
Record Batch := mkScanBatch {
  batch_columns : list ArrowColumn;
  batch_rows : Z
}.

(** What is written into one slot of a host vector: a string element that
    is assigned ([duckdb_vector_assign_string_element]), or a value that is
    stored in the data array of the vector as [int64_t], [int32_t], [double]
    or [uint8_t]. *)
Inductive Cell :=
| CellString (s : string)
| CellInt64 (v : Z)
| CellInt32 (v : Z)
| CellFloat64 (bits : Z)
| CellUInt8 (v : Z).

(** The slot of the host vector for the source slot [srcIdx]: [None] when
    the source is null (the row is marked invalid and nothing is written).
    A string is handed over as a C string, which ends at its first NUL
    byte. *)
Definition cell_at (col : ArrowColumn) (srcIdx : Z) : option Cell :=
  match col with
  | ColString vals =>
      option_map (fun val => CellString (Go.CString val)) (flight.slot vals srcIdx)
  | ColInt64 vals => option_map CellInt64 (flight.slot vals srcIdx)
  | ColInt32 vals => option_map CellInt32 (flight.slot vals srcIdx)
  | ColFloat64 vals => option_map CellFloat64 (flight.slot vals srcIdx)
  | ColBoolean vals =>
      option_map (fun b : bool => CellUInt8 (if b then 1 else 0)) (flight.slot vals srcIdx)
  | ColOther texts =>
      option_map (fun val => CellString (Go.CString val)) (flight.slot texts srcIdx)
  end.

(** A host vector after the call: the logical type that the host created
    it with, and the slots written.  The Go code never asks for the type of
    a vector, so the model is generic in the type [T] of logical types; the
    type is [None] when the chunk has no vector at the index of the column,
    which the host excludes. *)
Record Vector (T : Type) := mkVector {
  vector_type : option T;
  slots : list (option Cell)
}.
Arguments mkVector {T} vector_type slots.
Arguments vector_type {T} v.
Arguments slots {T} v.

(** [func convertArrowToDuckDBVector(arrowCol, duckVec, offset, count) error]:
    the [count] slots written to the host vector [duckVec], whatever its
    type is.  It returns no error. *)
Definition convertArrowToDuckDBVector {T : Type} (arrowCol : ArrowColumn)
    (duckVec : option T) (offset count : Z) : Vector T :=
  mkVector duckVec (map (fun i => cell_at arrowCol (offset + i)) (flight.range 0 count)).

(** A host data chunk as the call leaves it: the vectors written, one per
    column of the batch, and its size. *)
Record Chunk (T : Type) := mkChunk {
  vectors : list (Vector T);
  chunk_size : Z
}.
Arguments mkChunk {T} vectors chunk_size.
Arguments vectors {T} c.
Arguments chunk_size {T} c.

(** The columns of a batch, each with the type of the vector that
    [duckdb_data_chunk_get_vector] finds at its index in the chunk whose
    vectors have the types [output]. *)
Fixpoint with_vectors {T : Type} (output : list T) (cols : list ArrowColumn)
  : list (option T * ArrowColumn) :=
  match cols with
  | [] => []
  | col :: rest => (hd_error output, col) :: with_vectors (tl output) rest
  end.

(** The record reader of a scan: the batches that [Next] has still to
    deliver, and what [Err] reports when there is none left. *)
Record ScanReader := mkScanReader {
  pending_batches : list Batch;
  scan_err : option string
}.

(** The fields of [ScanBindData] that the streaming uses; [StreamReader]
    is [None] until init has run the query. *)
Record ScanStream := mkStream {
  StreamReader : option ScanReader;
  CurrentBatch : option Batch;
  BatchPosition : Z;
  Done : bool
}.

(** [maxChunkSize] of [duckarrow_go_scan_next]. *)
Definition maxChunkSize : Z := 2048.

(** "Get next batch if needed". *)
Definition needs_batch (st : ScanStream) : bool :=
  match CurrentBatch st with
  | None => true
  | Some b => Z.leb (batch_rows b) (BatchPosition st)
  end.

(** The tail of [duckarrow_go_scan_next], once the current batch [b] and
    the position [pos] are settled. *)
Definition emit_rows {T : Type} (output : list T) (reader : ScanReader) (b : Batch)
    (pos : Z) : Z * ScanStream * option (Chunk T) :=
  let remaining := batch_rows b - pos in
  let rowsToEmit := if Z.ltb maxChunkSize remaining then maxChunkSize else remaining in
  (rowsToEmit,
   mkStream (Some reader) (Some b) (pos + rowsToEmit) false,
   Some (mkChunk (map (fun vc => convertArrowToDuckDBVector (snd vc) (fst vc) pos rowsToEmit)
                      (with_vectors output (batch_columns b)))
                 rowsToEmit)).

(** [func duckarrow_go_scan_next(scanHandle, output) C.int64_t]: the value
    returned, the scan afterwards, and the chunk written ([None] when the
    output is not touched).  The handle is [None] when it is nil or does not
    hold bind data; [output] gives the types of the vectors of the chunk
    that the host hands in. *)
Definition duckarrow_go_scan_next {T : Type} (scanHandle : option ScanStream)
    (output : list T) : Z * option ScanStream * option (Chunk T) :=
  match scanHandle with
  | None => (-1, None, None)
  | Some st =>
      if Done st then (0, Some st, None)
      else
        match StreamReader st with
        | None => (-1, Some st, None)
        | Some reader =>
            if needs_batch st then
              match pending_batches reader with
              | [] =>
                  match scan_err reader with
                  | Some _ => (-1, Some (mkStream (Some reader) None (BatchPosition st) false), None)
                  | None => (0, Some (mkStream (Some reader) None (BatchPosition st) true), None)
                  end
              | b :: rest =>
                  let '(r, st', out) :=
                    emit_rows output (mkScanReader rest (scan_err reader)) b 0 in
                  (r, Some st', out)
              end
            else
              match CurrentBatch st with
              | Some b =>
                  let '(r, st', out) := emit_rows output reader b (BatchPosition st) in
                  (r, Some st', out)
              | None => (-1, Some st, None)
              end
        end
  end.

(** The rows of a chunk, and of a batch: per row, the slot of every vector
    with the type of the vector it was written to. *)
Definition chunk_rows {T : Type} (c : Chunk T) : list (list (option T * option Cell)) :=
  map (fun i => map (fun v => (vector_type v, nth i (slots v) None)) (vectors c))
      (seq 0 (Z.to_nat (chunk_size c))).

Definition batch_rows_from {T : Type} (output : list T) (b : Batch) (pos : Z)
  : list (list (option T * option Cell)) :=
  map (fun j => map (fun vc => (fst vc, cell_at (snd vc) j))
                    (with_vectors output (batch_columns b)))
      (flight.range pos (batch_rows b)).

(** The batches up to the first one without rows. *)
Fixpoint until_empty (bs : list Batch) : list Batch :=
  match bs with
  | [] => []
  | b :: rest => if Z.leb (batch_rows b) 0 then [] else b :: until_empty rest
  end.

(** A scan in a regular state: batches have no negative row count, and the
    position lies inside the current batch. *)
Definition stream_ok (st : ScanStream) : Prop :=
  (forall r, StreamReader st = Some r ->
     Forall (fun b => 0 <= batch_rows b) (pending_batches r)) /\
  (forall b, CurrentBatch st = Some b -> 0 <= BatchPosition st <= batch_rows b).

(** What is still to be written for the host: the rest of the current
    batch and the batches that follow, up to the first one without rows. *)
Definition remaining_rows {T : Type} (output : list T) (st : ScanStream)
  : list (list (option T * option Cell)) :=
  (match CurrentBatch st with
   | Some b => batch_rows_from output b (BatchPosition st)
   | None => []
   end ++
   match StreamReader st with
   | Some r =>
       flat_map (fun b => batch_rows_from output b 0) (until_empty (pending_batches r))
   | None => []
   end)%list.

(** A regular scan that is running: init has set the reader, and the scan
    is not done. *)
Definition running (st : ScanStream) : Prop :=
  stream_ok st /\ Done st = false /\ exists r, StreamReader st = Some r.

(** Whether the reader of the scan comes to its error: it reports one, and
    no batch without rows lies before it. *)
Definition ends_with_error (st : ScanStream) : bool :=
  match StreamReader st with
  | Some r =>
      forallb (fun b => Z.ltb 0 (batch_rows b)) (pending_batches r) &&
      match scan_err r with Some _ => true | None => false end
  | None => false
  end.

(** *** Binding and freeing a scan *)

(** The Arrow type ids that [arrowTypeToString] tells apart; [OTHER] is any
    other id.  A [DECIMAL128] type has its precision and scale, both
    [int32]. *)
Inductive ArrowType :=
| STRING | LARGE_STRING
| INT64 | INT32 | INT16 | INT8
| UINT64 | UINT32 | UINT16 | UINT8
| FLOAT64 | FLOAT32
| BOOL
| TIMESTAMP
| DATE32 | DATE64
| TIME32 | TIME64
| BINARY | LARGE_BINARY
| DECIMAL128 (Precision Scale : Z)
| OTHER.

(** [func arrowTypeToString(t arrow.DataType) string] *)
Definition arrowTypeToString (t : ArrowType) : string :=
  match t with
  | STRING | LARGE_STRING => "VARCHAR"
  | INT64 => "BIGINT"
  | INT32 => "INTEGER"
  | INT16 => "SMALLINT"
  | INT8 => "TINYINT"
  | UINT64 => "UBIGINT"
  | UINT32 => "UINTEGER"
  | UINT16 => "USMALLINT"
  | UINT8 => "UTINYINT"
  | FLOAT64 => "DOUBLE"
  | FLOAT32 => "FLOAT"
  | BOOL => "BOOLEAN"
  | TIMESTAMP => "TIMESTAMP"
  | DATE32 | DATE64 => "DATE"
  | TIME32 | TIME64 => "TIME"
  | BINARY | LARGE_BINARY => "BLOB"
  | DECIMAL128 precision scale =>
      "DECIMAL(" ++ Go.Sprint_int precision ++ "," ++ Go.Sprint_int scale ++ ")"
  | OTHER => "VARCHAR"
  end.

(** [Precision] and [Scale] of a decimal type are [int32] values. *)
Definition int32_fields (t : ArrowType) : Prop :=
  match t with
  | DECIMAL128 precision scale =>
      - 2 ^ 31 <= precision <= 2 ^ 31 - 1 /\ - 2 ^ 31 <= scale <= 2 ^ 31 - 1
  | _ => True
  end.

(** [arrow.Field]: a name and a type. *)
Record Field := mkField {
  Name : string;
  Type_ : ArrowType
}.

(** The fields of [ScanBindData] about the connection, which bind sets and
    free reads, and the column types.  [Client] is a pointer into the store,
    [None] when nil. *)
Record ScanConn := mkScanConn {
  Client : option nat;
  Config : flight.Config;
  IsPooled : bool;
  URI : string;
  ColumnTypes : list string
}.

(** [C.DuckArrowScanBindResult]; the handle stands for the bind data, and
    the error is the C string as the host reads it. *)
Record DuckArrowScanBindResult := mkBindResult {
  bind_handle : option (ScanConn * ScanBindData);
  bind_error : option string;
  column_count : Z
}.

(** "Build schema query to get column metadata" *)
Definition bind_query (schemaStr tableStr : string) : string :=
  if String.eqb schemaStr "" then
    "SELECT * FROM " ++ Go.quoted (Go.ReplaceAll tableStr Go.DQ DQDQ) ++ " WHERE 1=0"
  else
    "SELECT * FROM " ++ Go.quoted (Go.ReplaceAll schemaStr Go.DQ DQDQ) ++ "."
      ++ Go.quoted (Go.ReplaceAll tableStr Go.DQ DQDQ) ++ " WHERE 1=0".

(** What bind and free do with a connection they are done with. *)
Definition give_back (s : flight.Pool * flight.World) (isPooled : bool)
    (cfg : flight.Config) (client : nat) (t_release : Z)
  : flight.Pool * flight.World :=
  if isPooled then (fst (flight.Release (fst s) cfg t_release), snd s)
  else (fst s, snd (flight.Close_at (snd s) client None None)).

(** [func duckarrow_go_scan_table_bind(uri, schemaName, tableName)]: the
    result, the pool and the store afterwards, and the calls made to the
    remote server.  A C string is [None] when it is nil.  [d] and the clocks
    are what [GetConnection] and [ReleaseConnection] meet, [o] is the answer
    to the schema query and [fields] the schema of the reader it returns. *)
Definition duckarrow_go_scan_table_bind (g : DuckArrowConfig)
    (s : flight.Pool * flight.World)
    (uri schemaName tableName : option string)
    (t_since t_now t_release : Z) (d : flight.DialOutcome)
    (o : flight.StmtOutcome flight.Reader) (fields : list Field)
  : DuckArrowScanBindResult * (flight.Pool * flight.World) * list flight.Rpc :=
  match uri, tableName with
  | Some uriStr, Some tableStr =>
      let schemaStr := match schemaName with Some x => x | None => "" end in
      let '(_, configUsername, configPassword, configSkipVerify) := GetDuckArrowConfig g in
      let cfg := flight.mkConfig uriStr configUsername configPassword configSkipVerify in
      match flight.Get (fst s) (snd s) cfg t_since t_now d with
      | (Err e, pool1, w1, _) =>
          (mkBindResult None
             (Some (Go.CString ("duckarrow_go_scan_table_bind: connection failed: " ++ e))) 0,
           (pool1, w1), [])
      | (Ok connResult, pool1, w1, _) =>
          let query := bind_query schemaStr tableStr in
          match flight.Query query o with
          | (Err e, log) =>
              (mkBindResult None
                 (Some (Go.CString
                          ("duckarrow_go_scan_table_bind: schema query failed: " ++ e))) 0,
               give_back (pool1, w1) (flight.IsPooled connResult) cfg
                         (flight.CR_Client connResult) t_release,
               log)
          | (Ok _, log) =>
              let columnNames := map Name fields in
              let columnTypes := map (fun field => arrowTypeToString (Type_ field)) fields in
              (mkBindResult
                 (Some (mkScanConn (Some (flight.CR_Client connResult)) cfg
                                   (flight.IsPooled connResult) uriStr columnTypes,
                        mkScan schemaStr tableStr columnNames [] None))
                 None (Z.of_nat (length columnNames)),
               (pool1, w1), log)
          end
      end
  | _, _ =>
      (mkBindResult None
         (Some (Go.CString "duckarrow_go_scan_table_bind: uri and table_name are required")) 0,
       s, [])
  end.

(** [func duckarrow_go_scan_get_column(scanHandle, index)]: the name and
    the type name as the host reads the two C strings, [None] when they stay
    nil.  The handle is [None] when it is nil or does not hold bind data.
    Bind gives [ColumnTypes] the length of [ColumnNames]. *)
Definition duckarrow_go_scan_get_column (scanHandle : option (ScanConn * ScanBindData))
    (index : Z) : option string * option string :=
  match scanHandle with
  | None => (None, None)
  | Some (c, bindData) =>
      let idx := int_of_size_t index in
      if Z.ltb idx 0 || Z.leb (Z.of_nat (length (ColumnNames bindData))) idx then (None, None)
      else (Some (Go.CString (nth (Z.to_nat idx) (ColumnNames bindData) "")),
            Some (Go.CString (nth (Z.to_nat idx) (ColumnTypes c) "")))
  end.

(** [func duckarrow_go_scan_free(scanHandle)]: the pool and the store
    afterwards.  The handle is [None] when it is nil or does not hold bind
    data. *)
Definition duckarrow_go_scan_free (s : flight.Pool * flight.World)
    (scanHandle : option ScanConn) (t_release : Z) : flight.Pool * flight.World :=
  match scanHandle with
  | None => s
  | Some bindData =>
      match Client bindData with
      | None => s
      | Some client => give_back s (IsPooled bindData) (Config bindData) client t_release
      end
  end.

End main.

(** ** The C++ side of the scan ([cpp/duckarrow_table.cpp]) *)

Module cpp.

(** A C++ call returns or throws. *)
Inductive Host (A : Type) : Type :=
| Returned (a : A)
| Thrown (msg : string).
Arguments Returned {A} a.
Arguments Thrown {A} msg.

(** [struct DuckArrowScanGlobalState] *)
Record DuckArrowScanGlobalState := mkGlobalState {
  initialized : bool;
  finished : bool;
  column_ids : list Z
}.

(** [DuckArrowScanFunction]: the global state and the scan behind the
    handle afterwards, and the cardinality and the written vectors of the
    output chunk.  The two callbacks are the function pointers
    [g_scan_init_callback] and [g_scan_next_callback], [None] while they are
    not registered; [H] is what the opaque scan handle stands for, and
    [output] gives the types of the vectors of the output chunk. *)
Definition DuckArrowScanFunction {H T : Type}
    (g_scan_init_callback : option (H -> list Z -> option string * H))
    (g_scan_next_callback : option (H -> list T -> Z * H * option (main.Chunk T)))
    (gs : DuckArrowScanGlobalState) (h : H) (output : list T)
  : Host (DuckArrowScanGlobalState * H * main.Chunk T) :=
  if finished gs then Returned (gs, h, main.mkChunk [] 0)
  else
    let after_init :=
      if initialized gs then Returned (gs, h)
      else
        match g_scan_init_callback with
        | None => Thrown "DuckArrow scan init callback not registered"
        | Some init =>
            match init h (column_ids gs) with
            | (Some e, _) => Thrown ("Failed to initialize scan: " ++ e)
            | (None, h') => Returned (mkGlobalState true (finished gs) (column_ids gs), h')
            end
        end in
    match after_init with
    | Thrown e => Thrown e
    | Returned (gs1, h1) =>
        match g_scan_next_callback with
        | None => Thrown "DuckArrow scan next callback not registered"
        | Some next =>
            let '(row_count, h2, out) := next h1 output in
            if Z.ltb row_count 0 then Thrown "Error during scan"
            else
              let gs2 :=
                if Z.eqb row_count 0
                then mkGlobalState (initialized gs1) true (column_ids gs1)
                else gs1 in
              Returned (gs2, h2,
                        main.mkChunk (match out with
                                      | Some c => main.vectors c
                                      | None => []
                                      end) row_count)
        end
    end.

(** The host calls the scan function, each time with a chunk whose vectors
    have the types [output], until it returns an empty chunk, and keeps the
    rows of the chunks; [None] when [fuel] calls were not enough. *)
Fixpoint host_scan {H T : Type}
    (init : option (H -> list Z -> option string * H))
    (next : option (H -> list T -> Z * H * option (main.Chunk T)))
    (fuel : nat) (gs : DuckArrowScanGlobalState) (h : H) (output : list T)
  : option (Host (list (list (option T * option main.Cell)))) :=
  match fuel with
  | O => None
  | S fuel' =>
      match DuckArrowScanFunction init next gs h output with
      | Thrown e => Some (Thrown e)
      | Returned (gs', h', c) =>
          if Z.eqb (main.chunk_size c) 0 then Some (Returned [])
          else
            match host_scan init next fuel' gs' h' output with
            | Some (Returned rows) => Some (Returned (main.chunk_rows c ++ rows)%list)
            | other => other
            end
      end
  end.

(** *** Type conversion *)

(** [std::toupper] in the C locale, and [StringUtil::Upper]. *)
Definition toupper (c : ascii) : ascii :=
  let n := nat_of_ascii c in
  if Nat.leb 97 n && Nat.leb n 122 then ascii_of_nat (n - 32) else c.

Fixpoint Upper (s : string) : string :=
  match s with
  | EmptyString => EmptyString
  | String c r => String (toupper c) (Upper r)
  end.

Definition StartsWith (s prefix : string) : bool := Go.HasPrefix s prefix.

(** [s.find(c)]: the first index of [c], [None] for [npos]. *)
Fixpoint find (s : string) (c : ascii) : option nat :=
  match s with
  | EmptyString => None
  | String a r => if Ascii.eqb a c then Some O else option_map S (find r c)
  end.

(** [s.substr(pos, count)] for [pos] within the string, as at its three
    uses below; [count] is [None] for [npos] and for a count that has wrapped
    around below zero, which both reach to the end of the string. *)
Definition substr (s : string) (pos : nat) (count : option nat) : string :=
  let avail := (String.length s - pos)%nat in
  String.substring pos (match count with
                        | Some n => Nat.min n avail
                        | None => avail
                        end) s.

(** [std::stoi]: white space is skipped, a sign is read, then the longest
    run of decimal digits; what follows is ignored.  [None] when it throws:
    no digit, or a value that is not an [int]. *)
Definition isspace (c : ascii) : bool :=
  let n := nat_of_ascii c in
  Nat.eqb n 32 || (Nat.leb 9 n && Nat.leb n 13).

Definition isdigit (c : ascii) : bool :=
  let n := nat_of_ascii c in
  Nat.leb 48 n && Nat.leb n 57.

Fixpoint skip_space (s : string) : string :=
  match s with
  | String c r => if isspace c then skip_space r else s
  | EmptyString => s
  end.

Fixpoint read_digits (s : string) (acc : option Z) : option Z :=
  match s with
  | String c r =>
      if isdigit c then
        read_digits r (Some (10 * (match acc with Some a => a | None => 0 end)
                             + (Z.of_nat (nat_of_ascii c) - 48)))
      else acc
  | EmptyString => acc
  end.

Definition stoi (s : string) : option Z :=
  let s1 := skip_space s in
  let '(negative, s2) :=
    match s1 with
    | String "-" r => (true, r)
    | String "+" r => (false, r)
    | _ => (false, s1)
    end in
  match read_digits s2 None with
  | None => None
  | Some v =>
      let n := if negative then - v else v in
      if Z.leb (- 2 ^ 31) n && Z.leb n (2 ^ 31 - 1) then Some n else None
  end.

(** The logical types that [FlightSQLTypeToDuckDB] returns, by the static
    member of [duckdb::LogicalType] it takes them from.  [DECIMAL width
    scale] stands for the call [LogicalType::DECIMAL(width, scale)] with the
    values that its two [uint8_t] parameters receive, and [JSON] for the
    call [LogicalType::JSON()].  What the host makes of the two calls is the
    host's: the stand-ins for them in [duckdb_stubs.cpp] keep the type id
    only ([DECIMAL] without width and scale, [VARCHAR] for [JSON]). *)
Inductive LogicalType :=
| VARCHAR | BIGINT | INTEGER | SMALLINT | TINYINT
| UBIGINT | UINTEGER | USMALLINT | UTINYINT
| DOUBLE | FLOAT | BOOLEAN
| DATE | TIME | TIMESTAMP | TIMESTAMP_TZ | INTERVAL
| BLOB | UUID | JSON
| DECIMAL (width scale : Z)
| HUGEINT.

(** An [int] passed for a [uint8_t] parameter. *)
Definition uint8_t (v : Z) : Z := v mod 256.

(** [LogicalType::DECIMAL(precision, scale)] called with two [int]
    values. *)
Definition LogicalType_DECIMAL (precision scale : Z) : LogicalType :=
  DECIMAL (uint8_t precision) (uint8_t scale).

(** "DuckDB max precision is 38" *)
Definition clamp_precision (precision : Z) : Z :=
  if Z.ltb 38 precision then 38 else precision.

(** The branch of [FlightSQLTypeToDuckDB] for [DECIMAL] and [NUMERIC] with
    precision and scale. *)
Definition decimal_type (upper_type : string) : LogicalType :=
  match find upper_type "(", find upper_type ")" with
  | Some paren_start, Some paren_end =>
      let params :=
        substr upper_type (paren_start + 1)
               (if Nat.ltb paren_end (paren_start + 1) then None
                else Some (paren_end - paren_start - 1)%nat) in
      match find params "," with
      | Some comma_pos =>
          match stoi (substr params 0 (Some comma_pos)) with
          | Some precision =>
              match stoi (substr params (comma_pos + 1) None) with
              | Some scale => LogicalType_DECIMAL (clamp_precision precision) scale
              | None => LogicalType_DECIMAL 18 3
              end
          | None => LogicalType_DECIMAL 18 3
          end
      | None =>
          match stoi params with
          | Some precision => LogicalType_DECIMAL (clamp_precision precision) 0
          | None => LogicalType_DECIMAL 18 3
          end
      end
  | _, _ => LogicalType_DECIMAL 18 3
  end.

(** [duckdb::LogicalType FlightSQLTypeToDuckDB(const duckdb::string &type_str)] *)
Definition FlightSQLTypeToDuckDB (type_str : string) : LogicalType :=
  let upper_type := Upper type_str in
  let named := String.eqb upper_type in
  if named "VARCHAR" || named "STRING" || named "TEXT" || named "CHAR" || named "BPCHAR" || named "NAME"
  then VARCHAR
  else if named "BIGINT" || named "INT8" || named "INT64" || named "LONG" then BIGINT
  else if named "INTEGER" || named "INT" || named "INT4" || named "INT32" then INTEGER
  else if named "SMALLINT" || named "INT2" || named "INT16" || named "SHORT" then SMALLINT
  else if named "TINYINT" || named "INT1" || named "INT8" then TINYINT
  else if named "UBIGINT" || named "UINT8" || named "UINT64" || named "ULONG" then UBIGINT
  else if named "UINTEGER" || named "UINT" || named "UINT4" || named "UINT32" then UINTEGER
  else if named "USMALLINT" || named "UINT2" || named "UINT16" || named "USHORT" then USMALLINT
  else if named "UTINYINT" || named "UINT1" then UTINYINT
  else if named "DOUBLE" || named "FLOAT8" || named "DOUBLE PRECISION" || named "NUMERIC" || named "REAL8"
  then DOUBLE
  else if named "FLOAT" || named "FLOAT4" || named "REAL" then FLOAT
  else if named "BOOLEAN" || named "BOOL" then BOOLEAN
  else if named "DATE" then DATE
  else if named "TIME" || named "TIME WITHOUT TIME ZONE" then TIME
  else if named "TIMESTAMP" || named "DATETIME" || named "TIMESTAMP WITHOUT TIME ZONE" then TIMESTAMP
  else if named "TIMESTAMPTZ" || named "TIMESTAMP WITH TIME ZONE" then TIMESTAMP_TZ
  else if named "INTERVAL" then INTERVAL
  else if named "BLOB" || named "BYTEA" || named "BINARY" || named "VARBINARY" || named "BYTES" then BLOB
  else if named "UUID" then UUID
  else if named "JSON" || named "JSONB" then JSON
  else if StartsWith upper_type "DECIMAL" || StartsWith upper_type "NUMERIC"
  then decimal_type upper_type
  else if named "HUGEINT" || named "INT128" then HUGEINT
  else VARCHAR.

(** *** Table entries of a schema *)












End cpp.

(** ** Sample data for the worked examples *)

Module sample.

(** A [GetObjects] answer for table [main.t] with the columns [a] and
    [b], whose nullable indicators are [indicators]. *)
Definition columns_batch (indicators : list (option Z)) : flight.RecordBatch :=
  let column_struct :=
    flight.StructArr
      [("column_name", flight.StringArr [Some "a"; Some "b"]);
       ("ordinal_position", flight.Int32Arr [Some 1; Some 2]);
       ("xdbc_nullable", flight.Int16Arr indicators)] in
  let table_struct :=
    flight.StructArr
      [("table_name", flight.StringArr [Some "t"]);
       ("table_type", flight.StringArr [Some "TABLE"]);
       ("table_columns", flight.ListArr [Some (0, 2)] column_struct)] in
  let schema_struct :=
    flight.StructArr
      [("db_schema_name", flight.StringArr [Some "main"]);
       ("db_schema_tables", flight.ListArr [Some (0, 1)] table_struct)] in
  flight.mkBatch [flight.StringArr [Some "db"];
                  flight.ListArr [Some (0, 1)] schema_struct] 1.

Definition columns_reader (indicators : list (option Z)) : flight.Reader :=
  flight.mkReader [columns_batch indicators] None.

(** The scan of the specification's first scenario: table [Order] with
    the columns [id], [name], [status]. *)
Definition order_scan : main.ScanBindData :=
  main.mkScan "" "Order" ["id"; "name"; "status"] [] None.

(** A configuration as [duckarrow_configure] stores it. *)
Definition config : flight.Config :=
  flight.mkConfig "grpc://localhost:31337" "user" "pass" false.

(** A scan after init: the server answers with a batch of two rows, a batch
    without rows and a batch of one row.  The columns are an [int64] array,
    a string array whose first string holds a NUL byte, and an [int16]
    array, which the type switch takes for any other array. *)
Definition scan_stream : main.ScanStream :=
  main.mkStream
    (Some (main.mkScanReader
             [main.mkScanBatch [main.ColInt64 [Some 1; None];
                                main.ColString [Some ("x" ++ Go.NUL ++ "z"); Some "y"];
                                main.ColOther [Some "7"; Some "8"]] 2;
              main.mkScanBatch [main.ColInt64 []; main.ColString []; main.ColOther []] 0;
              main.mkScanBatch [main.ColInt64 [Some 3]; main.ColString [None];
                                main.ColOther [Some "9"]] 1]
             None))
    None 0 false.

(** The types that bind declares for these three columns. *)
Definition scan_types : list cpp.LogicalType := [cpp.BIGINT; cpp.VARCHAR; cpp.SMALLINT].

(** A scan after init whose stream breaks behind a batch of one row. *)
Definition failing_stream : main.ScanStream :=
  main.mkStream
    (Some (main.mkScanReader [main.mkScanBatch [main.ColInt64 [Some 1]] 1]
                             (Some "rpc error")))
    None 0 false.

End sample.
(* ===================================================================== *)
(** * Part II: theorems                                                    *)
(* ===================================================================== *)

(** ** Test vectors for the hash (FIPS 180-4, appendix B) *)

Example sha_constants :
  length Sha256.K = 64%nat /\ nth 0 Sha256.K 0 = 0x428a2f98 /\
  nth 63 Sha256.K 0 = 0xc67178f2 /\
  length Sha256.H0 = 8%nat /\ nth 0 Sha256.H0 0 = 0x6a09e667 /\
  nth 7 Sha256.H0 0 = 0x5be0cd19.
Proof. repeat split. Qed.

Example sha_empty :
  Sha256.EncodeToString (Sha256.sum (Go.bytes_of "")) =
  "e3b0c44298fc1c149afbf4c8996fb92427ae41e4649b934ca495991b7852b855".
Proof. vm_compute. reflexivity. Qed.

Example sha_abc :
  Sha256.EncodeToString (Sha256.sum (Go.bytes_of "abc")) =
  "ba7816bf8f01cfea414140de5dae2223b00361a396177a9cb410ff61f20015ad".
Proof. vm_compute. reflexivity. Qed.

Example sha_two_blocks :
  Sha256.EncodeToString (Sha256.sum (Go.bytes_of
    "abcdbcdecdefdefgefghfghighijhijkijkljklmklmnlmnomnopnopq")) =
  "248d6a61d20638b8e5c026930c3e6039a33ce45964ff2167f6ecedd419db06c1".
Proof. vm_compute. reflexivity. Qed.

(** ** The repository's own test tables for the query builder *)

Example TestExtractTableName :
  main.extractTableName ("SELECT * FROM " ++ Go.quoted "Order") = "Order" /\
  main.extractTableName ("SELECT * FROM " ++ Go.quoted ("table" ++ main.DQDQ ++ "name"))
    = "table" ++ Go.DQ ++ "name" /\
  main.extractTableName ("SELECT * FROM " ++ Go.quoted ("a" ++ main.DQDQ ++ "b" ++ main.DQDQ ++ "c"))
    = "a" ++ Go.DQ ++ "b" ++ Go.DQ ++ "c" /\
  main.extractTableName ("select * from " ++ Go.quoted "MyTable") = "MyTable" /\
  main.extractTableName ("SELECT  *  FROM  " ++ Go.quoted "TestTable") = "TestTable" /\
  main.extractTableName "" = "" /\
  main.extractTableName "INSERT INTO table VALUES (1)" = "".
Proof. repeat split; reflexivity. Qed.

Example TestBuildProjectedQuery :
  main.buildProjectedQuery "Order" ["id"] = "SELECT " ++ Go.quoted "id" ++ " FROM " ++ Go.quoted "Order" /\
  main.buildProjectedQuery "Order" ["id"; "name"; "status"]
    = "SELECT " ++ Go.quoted "id" ++ ", " ++ Go.quoted "name" ++ ", " ++ Go.quoted "status" ++ " FROM " ++ Go.quoted "Order" /\
  main.buildProjectedQuery "Order" [] = "SELECT * FROM " ++ Go.quoted "Order" /\
  main.buildProjectedQuery ("My" ++ Go.DQ ++ "Table") ["col1"]
    = "SELECT " ++ Go.quoted "col1" ++ " FROM " ++ Go.quoted ("My" ++ main.DQDQ ++ "Table") /\
  main.buildProjectedQuery "Order" ["col" ++ Go.DQ ++ "1"; "col2"]
    = "SELECT " ++ Go.quoted ("col" ++ main.DQDQ ++ "1") ++ ", " ++ Go.quoted "col2" ++ " FROM " ++ Go.quoted "Order".
Proof. repeat split; reflexivity. Qed.


(** ** Quote escaping *)

Lemma escape_cons (c : ascii) (t : string) :
  Go.ReplaceAll (String c t) Go.DQ main.DQDQ =
  if Ascii.eqb c Go.dq
  then String Go.dq (String Go.dq (Go.ReplaceAll t Go.DQ main.DQDQ))
  else String c (Go.ReplaceAll t Go.DQ main.DQDQ).
Proof.
  unfold Go.ReplaceAll, Go.DQ.
  cbn [Go.replace_from Go.HasPrefix String.length Nat.sub].
  rewrite (Ascii.eqb_sym Go.dq c). destruct (Ascii.eqb c Go.dq); reflexivity.
Qed.

(** Unescaping undoes escaping: replacing every doubled quote of an escaped
    name by one quote gives the name back. *)
Lemma unescape_escape (t : string) :
  Go.ReplaceAll (Go.ReplaceAll t Go.DQ main.DQDQ) main.DQDQ Go.DQ = t.
Proof.
  induction t as [|c t IH]; [reflexivity|].
  rewrite escape_cons. destruct (Ascii.eqb c Go.dq) eqn:E.
  - apply Ascii.eqb_eq in E. subst c.
    unfold Go.ReplaceAll in *. cbn. f_equal. exact IH.
  - unfold Go.ReplaceAll in *.
    change main.DQDQ with (String Go.dq (String Go.dq "")) in *.
    cbn [Go.replace_from Go.HasPrefix].
    rewrite (Ascii.eqb_sym Go.dq c), E. f_equal. exact IH.
Qed.

Lemma append_cons (c : ascii) (s r : string) : String c s ++ r = String c (s ++ r).
Proof. reflexivity. Qed.

(** The quoted-identifier matcher reads an escaped name up to the quote
    that closes it. *)
Lemma quoted_body_escape (t : string) :
  main.quoted_body (Go.ReplaceAll t Go.DQ main.DQDQ ++ Go.DQ)
  = Some (Go.ReplaceAll t Go.DQ main.DQDQ).
Proof.
  induction t as [|c t IH]; [reflexivity|].
  rewrite escape_cons. destruct (Ascii.eqb c Go.dq) eqn:E.
  - rewrite !append_cons. cbn [main.quoted_body].
    rewrite Ascii.eqb_refl, IH. reflexivity.
  - rewrite append_cons. cbn [main.quoted_body]. rewrite E, IH. reflexivity.
Qed.

Lemma append_assoc (a b c : string) : (a ++ b) ++ c = a ++ (b ++ c).
Proof.
  induction a as [|x a IH]; [reflexivity|].
  rewrite !append_cons. now rewrite IH.
Qed.

Lemma leftmost_hit (at_ : string -> option string) (s m : string) :
  at_ s = Some m -> main.leftmost at_ s = Some m.
Proof. intros H. destruct s; cbn [main.leftmost]; rewrite H; reflexivity. Qed.

(** C8 (as amended).  For every table name [t], with any number of double
    quotes in it, extracting the table name from the query that
    [buildProjectedQuery] builds for the empty column list (the [SELECT *]
    form that [extractTableName] reads) and unescaping it returns [t]. *)
Theorem extract_build_roundtrip (t : string) :
  main.extractTableName (main.buildProjectedQuery t []) = t.
Proof.
  unfold main.extractTableName, main.buildProjectedQuery.
  rewrite (leftmost_hit _ _ (Go.ReplaceAll t Go.DQ main.DQDQ)).
  - apply unescape_escape.
  - rewrite <- quoted_body_escape. reflexivity.
Qed.

(** C8 (as stated) fails: with a non-empty column list the query is not of
    the [SELECT *] form, no pattern of [extractTableName] matches, and the
    result is the empty string. *)
Lemma extract_build_roundtrip_counterexample :
  main.extractTableName (main.buildProjectedQuery "Order" ["id"]) = ""
  /\ main.extractTableName (main.buildProjectedQuery "Order" ["id"]) <> "Order".
Proof. split; [reflexivity | discriminate]. Qed.

(** ** Pool keys *)

Lemma length_append (a b : string) :
  String.length (a ++ b) = (String.length a + String.length b)%nat.
Proof.
  induction a as [|x a IH]; [reflexivity|].
  rewrite append_cons. cbn [String.length]. now rewrite IH.
Qed.

(** Two strings that end in tails of the same length agree on the tails and
    on what precedes them. *)
Lemma append_inv_tail (p1 p2 t1 t2 : string) :
  String.length t1 = String.length t2 ->
  p1 ++ t1 = p2 ++ t2 -> p1 = p2 /\ t1 = t2.
Proof.
  revert p2. induction p1 as [|a p1 IH]; intros [|b p2] Hlen H.
  - split; [reflexivity | exact H].
  - exfalso. apply (f_equal String.length) in H.
    change ("" ++ t1) with t1 in H.
    rewrite length_append in H. cbn [String.length] in H. lia.
  - exfalso. apply (f_equal String.length) in H.
    change ("" ++ t2) with t2 in H.
    rewrite length_append in H. cbn [String.length] in H. lia.
  - rewrite !append_cons in H. injection H as -> H.
    destruct (IH _ Hlen H) as [-> ->]. split; reflexivity.
Qed.

(** A NUL-free field is delimited by the first NUL that follows it. *)
Lemma split_at_nul (s1 s2 r1 r2 : string) :
  Go.nul_free s1 = true -> Go.nul_free s2 = true ->
  s1 ++ Go.NUL ++ r1 = s2 ++ Go.NUL ++ r2 -> s1 = s2 /\ r1 = r2.
Proof.
  revert s2. induction s1 as [|a s1 IH]; intros [|b s2] H1 H2 H.
  - injection H as H. split; [reflexivity | exact H].
  - exfalso. rewrite append_cons in H. injection H as Hb _. subst b.
    cbn in H2. discriminate.
  - exfalso. rewrite append_cons in H. injection H as Ha _. subst a.
    cbn in H1. discriminate.
  - rewrite !append_cons in H. injection H as -> H.
    cbn [Go.nul_free] in H1, H2.
    apply andb_true_iff in H1 as [_ H1]. apply andb_true_iff in H2 as [_ H2].
    destruct (IH _ H1 H2 H) as [-> ->]. split; reflexivity.
Qed.

(** The last field, whatever bytes it holds, is delimited by the NUL that
    precedes [true] or [false]. *)
Lemma split_at_flag (p1 p2 : string) (b1 b2 : bool) :
  p1 ++ Go.NUL ++ Go.Sprint_bool b1 = p2 ++ Go.NUL ++ Go.Sprint_bool b2 ->
  p1 = p2 /\ b1 = b2.
Proof.
  destruct b1, b2; intros H.
  - apply append_inv_tail in H as [-> _]; [split|]; reflexivity.
  - exfalso.
    change (Go.Sprint_bool false) with "false" in H.
    rewrite <- (append_assoc p2 Go.NUL "false") in H.
    apply append_inv_tail in H as [_ H]; [discriminate | reflexivity].
  - exfalso.
    change (Go.Sprint_bool false) with "false" in H.
    rewrite <- (append_assoc p1 Go.NUL "false") in H.
    apply append_inv_tail in H as [_ H]; [discriminate | reflexivity].
  - apply append_inv_tail in H as [-> _]; [split|]; reflexivity.
Qed.

(** Where the key is sound: on configs whose URI and username hold no NUL
    byte, the string that is hashed determines the config. *)
Lemma keyMaterial_injective (c1 c2 : flight.Config) :
  Go.nul_free (flight.URI c1) = true -> Go.nul_free (flight.Username c1) = true ->
  Go.nul_free (flight.URI c2) = true -> Go.nul_free (flight.Username c2) = true ->
  flight.keyMaterial c1 = flight.keyMaterial c2 -> c1 = c2.
Proof.
  destruct c1 as [u1 n1 p1 b1], c2 as [u2 n2 p2 b2].
  unfold flight.keyMaterial. cbn [flight.URI flight.Username flight.Password flight.SkipVerify].
  intros Hu1 Hn1 Hu2 Hn2 H.
  apply split_at_nul in H as [-> H]; [|assumption..].
  apply split_at_nul in H as [-> H]; [|assumption..].
  apply split_at_flag in H as [-> ->]. reflexivity.
Qed.

(** C1.  The code at the failing input: two configs that differ in username
    and password, each with a NUL byte in one of them, write the same bytes
    into the hash and so get the same pool key. *)
Theorem configKey_collision :
  let c1 := flight.mkConfig "grpc://localhost:31337" ("u" ++ Go.NUL ++ "p") "q" false in
  let c2 := flight.mkConfig "grpc://localhost:31337" "u" ("p" ++ Go.NUL ++ "q") false in
  c1 <> c2 /\
  flight.keyMaterial c1 = flight.keyMaterial c2 /\
  flight.configKey c1 = flight.configKey c2.
Proof.
  cbv zeta. split; [discriminate|]. split; reflexivity.
Qed.

(** The collision of the repository's own test (TestConfigKeyCollisionAttack)
    is avoided. *)
Example TestConfigKeyCollisionAttack :
  flight.configKey (flight.mkConfig "grpc://localhost:31337" ("u" ++ Go.NUL ++ "p") "" false)
  <> flight.configKey (flight.mkConfig "grpc://localhost:31337" "u" (Go.NUL ++ "p") false).
Proof. vm_compute. discriminate. Qed.

(** ** Metadata: structured call and SQL fallback *)

(** C6 (as stated) fails: when the structured call and the fallback both
    fail, the error that [GetSchemas] returns is the fallback's alone; the
    message of the structured call's failure is not in it. *)
Lemma metadata_fallback_counterexample :
  exists msg log,
    flight.GetSchemas (Err "rpc unavailable") (flight.ExecuteFails "no such table")
      = (Err msg, log) /\
    Go.Contains msg "no such table" = true /\
    Go.Contains msg "rpc unavailable" = false.
Proof. do 2 eexists. split; [reflexivity|]. split; reflexivity. Qed.

(** C6 (as amended).  For each of [GetSchemas], [GetTables] and
    [GetColumns]: when the structured metadata call fails, the
    [information_schema] query is attempted exactly once (the calls made are
    the structured call and then that one query), and what is returned is
    exactly what the fallback returns; if the fallback fails too, the
    returned error is the fallback's error alone. *)
Theorem metadata_fallback_once
    (schema table : string) (objs : result flight.Reader)
    (o : flight.StmtOutcome flight.Reader) :
  (is_err (fst (flight.getSchemasViaADBC objs)) = true ->
   flight.GetSchemas objs o =
     (fst (flight.getSchemasViaSQL o),
      [flight.RpcGetObjects None None;
       flight.RpcQuery "SELECT schema_name FROM information_schema.schemata"]))
  /\
  (is_err (fst (flight.getTablesViaADBC schema objs)) = true ->
   flight.GetTables schema objs o =
     (fst (flight.getTablesViaSQL schema o),
      [flight.RpcGetObjects (Some schema) None;
       flight.RpcQuery ("SELECT table_name FROM information_schema.tables WHERE table_schema = '"
                          ++ schema ++ "'")]))
  /\
  (is_err (fst (flight.getColumnsViaADBC schema table objs)) = true ->
   flight.GetColumns schema table objs o =
     (fst (flight.getColumnsViaSQL schema table o),
      [flight.RpcGetObjects (Some schema) (Some table);
       flight.RpcQuery ("SELECT column_name, data_type, is_nullable, ordinal_position FROM information_schema.columns WHERE table_schema = '"
                          ++ schema ++ "' AND table_name = '" ++ table
                          ++ "' ORDER BY ordinal_position")])).
Proof.
  repeat split.
  - unfold flight.GetSchemas, flight.getSchemasViaADBC, flight.getSchemasViaSQL, flight.Query.
    destruct objs as [r|e]; [destruct (flight.reader_err r)|]; cbn; try discriminate;
      intros _; destruct o as [| | |r']; try reflexivity;
      destruct (flight.reader_err r'); reflexivity.
  - unfold flight.GetTables, flight.getTablesViaADBC, flight.getTablesViaSQL, flight.Query.
    destruct objs as [r|e]; [destruct (flight.reader_err r)|]; cbn; try discriminate;
      intros _; destruct o as [| | |r']; try reflexivity;
      destruct (flight.reader_err r'); reflexivity.
  - unfold flight.GetColumns, flight.getColumnsViaADBC, flight.getColumnsViaSQL, flight.Query.
    destruct objs as [r|e]; [destruct (flight.reader_err r)|]; cbn; try discriminate;
      intros _; destruct o as [| | |r']; try reflexivity;
      destruct (flight.reader_err r'); reflexivity.
Qed.

Lemma metadata_fallback_once_witness :
  let objs : result flight.Reader := Err "rpc unavailable" in
  let o : flight.StmtOutcome flight.Reader := flight.ExecuteFails "no such table" in
  flight.GetSchemas objs o
    = (Err "query schemas: execute query: no such table",
       [flight.RpcGetObjects None None;
        flight.RpcQuery "SELECT schema_name FROM information_schema.schemata"])
  /\ fst (flight.GetTables "main" objs o)
     = Err "query tables: execute query: no such table"
  /\ fst (flight.GetColumns "main" "t" objs o)
     = Err "query columns: execute query: no such table".
Proof.
  cbv zeta.
  destruct (metadata_fallback_once "main" "t" (Err "rpc unavailable")
              (flight.ExecuteFails "no such table")) as (H1 & H2 & H3).
  split; [exact (H1 eq_refl)|].
  split; [rewrite (H2 eq_refl) | rewrite (H3 eq_refl)]; reflexivity.
Defined.

(** ** [duckarrow_execute] *)

(** The stage at which a statement failed, as [Execute] tags it. *)
Lemma Execute_error (sql : string) (o : flight.StmtOutcome Z) :
  fst (flight.Execute sql o) =
  match o with
  | flight.NewStatementFails e => Err ("create statement: " ++ e)
  | flight.SetSqlQueryFails e => Err ("set query: " ++ e)
  | flight.ExecuteFails e => Err ("execute update: " ++ e)
  | flight.Executed affected => Ok affected
  end.
Proof. destruct o; reflexivity. Qed.

(** C7 (as stated) fails: the remote error reaches the user behind three
    prefixes, the function name, [remote server: ] and the stage of
    [Execute] that failed, not behind the function name alone. *)
Lemma execute_error_prefix_counterexample :
  let g := main.mkGlobal "grpc://localhost:31337" "user" "pass" false in
  let sql := "DROP TABLE " ++ Go.quoted "t" in
  let res := fst (fst (main.duckarrow_execute_callback g flight.initial
                         [(Some sql, flight.ExecuteFails "table t does not exist")]
                         0 0 0 flight.DialOk)) in
  main.error res = Some "duckarrow_execute: remote server: execute update: table t does not exist"
  /\ main.error res <> Some ("duckarrow_execute: " ++ "table t does not exist").
Proof. cbv zeta. split; [vm_compute; reflexivity | vm_compute; discriminate]. Qed.

(** A C string without a NUL byte is read whole, and a prefix without a NUL
    byte is read before the rest. *)
Lemma CString_no_nul (s : string) : main.has_nul s = false -> Go.CString s = s.
Proof.
  unfold main.has_nul. induction s as [|c s IH]; [reflexivity|].
  cbn [list_ascii_of_string existsb Go.CString]. intros H.
  apply orb_false_iff in H as [Hc Hs]. rewrite Hc, (IH Hs). reflexivity.
Qed.

Lemma CString_prefix (a b : string) :
  main.has_nul a = false -> Go.CString (a ++ b) = a ++ Go.CString b.
Proof.
  unfold main.has_nul. induction a as [|c a IH]; [reflexivity|].
  cbn [list_ascii_of_string existsb]. intros H.
  apply orb_false_iff in H as [Hc Ha]. rewrite !append_cons. cbn [Go.CString].
  rewrite Hc, (IH Ha). reflexivity.
Qed.

(** The error that [setExecuteError] leaves for a remote failure. *)
Lemma setExecuteError_remote (stage e : string) :
  main.has_nul stage = false ->
  main.setExecuteError ("remote server: " ++ stage ++ e)
  = "duckarrow_execute: remote server: " ++ stage ++ Go.CString e.
Proof.
  intros Hs. unfold main.setExecuteError.
  change ("duckarrow_execute: " ++ "remote server: " ++ stage ++ e)
    with ("duckarrow_execute: remote server: " ++ stage ++ e).
  rewrite (CString_prefix "duckarrow_execute: remote server: ") by reflexivity.
  rewrite (CString_prefix stage) by exact Hs. reflexivity.
Qed.

(** The loop over rows that all pass. *)
Lemma execute_rows_passes (rows : list (option string * flight.StmtOutcome Z)) :
  Forall main.row_passes rows ->
  main.output (fst (main.execute_rows rows)) = map main.row_count rows /\
  main.error (fst (main.execute_rows rows)) = None /\
  main.remote_sql (snd (main.execute_rows rows)) = main.row_statements rows.
Proof.
  induction rows as [|[[sql|] o] rows IH]; intros H.
  - repeat split.
  - inversion H as [|? ? Hrow Hrest]. specialize (IH Hrest).
    destruct o as [e|e|e|affected]; cbn [main.row_passes] in Hrow; try contradiction.
    destruct Hrow as (Hne & Hlen & Hnul). cbn [main.execute_rows].
    destruct (String.eqb sql "") eqn:E; [apply String.eqb_eq in E; contradiction|].
    destruct (Z.ltb main.maxSQLLength (Go.len sql)) eqn:E2; [apply Z.ltb_lt in E2; lia|].
    rewrite Hnul. cbn [flight.Execute].
    destruct (main.execute_rows rows) as [res log]. cbn [fst snd] in *.
    destruct IH as (-> & -> & Hlog). repeat split.
    unfold main.remote_sql in *. rewrite flat_map_app, Hlog. reflexivity.
  - inversion H as [|? ? Hrow Hrest]. specialize (IH Hrest).
    cbn [main.execute_rows]. destruct (main.execute_rows rows) as [res log].
    cbn [fst snd] in *. destruct IH as (-> & -> & Hlog). repeat split. exact Hlog.
Qed.

(** The loop up to the first statement that the remote server fails. *)
Lemma execute_rows_fails (pre post : list (option string * flight.StmtOutcome Z))
    (sql : string) (o : flight.StmtOutcome Z) (m : string) :
  Forall main.row_passes pre -> main.valid_sql sql ->
  fst (flight.Execute sql o) = Err m ->
  main.error (fst (main.execute_rows (pre ++ (Some sql, o) :: post)))
    = Some (main.setExecuteError ("remote server: " ++ m)) /\
  main.remote_sql (snd (main.execute_rows (pre ++ (Some sql, o) :: post)))
    = (main.row_statements pre ++ [sql])%list.
Proof.
  intros Hpre (Hne & Hlen & Hnul) Hm.
  induction pre as [|[[sql'|] o'] pre IH]; cbn [app].
  - cbn [main.execute_rows].
    destruct (String.eqb sql "") eqn:E; [apply String.eqb_eq in E; contradiction|].
    destruct (Z.ltb main.maxSQLLength (Go.len sql)) eqn:E2; [apply Z.ltb_lt in E2; lia|].
    rewrite Hnul. destruct (flight.Execute sql o) as [[a|e] log] eqn:HE;
      cbn [fst] in Hm; [discriminate|]. injection Hm as ->.
    cbn [fst snd main.error]. split; [reflexivity|].
    unfold flight.Execute in HE. injection HE as _ <-. reflexivity.
  - inversion Hpre as [|? ? Hrow Hrest]. specialize (IH Hrest).
    destruct o' as [e|e|e|affected]; cbn [main.row_passes] in Hrow; try contradiction.
    destruct Hrow as (Hne' & Hlen' & Hnul'). cbn [main.execute_rows].
    destruct (String.eqb sql' "") eqn:E; [apply String.eqb_eq in E; contradiction|].
    destruct (Z.ltb main.maxSQLLength (Go.len sql')) eqn:E2; [apply Z.ltb_lt in E2; lia|].
    rewrite Hnul'. cbn [flight.Execute].
    destruct (main.execute_rows (pre ++ (Some sql, o) :: post)) as [res log].
    cbn [fst snd main.error] in *. destruct IH as [-> Hlog]. split; [reflexivity|].
    unfold main.remote_sql in *. rewrite flat_map_app, Hlog. reflexivity.
  - inversion Hpre as [|? ? Hrow Hrest]. specialize (IH Hrest).
    cbn [main.execute_rows].
    destruct (main.execute_rows (pre ++ (Some sql, o) :: post)) as [res log].
    cbn [fst snd main.error] in *. exact IH.
Qed.

(** C7 (as amended).  For every call of the execute function on a chunk of
    at most 2048 rows, with a configured URI and a connection obtained from
    the pool.  When every row is NULL or a valid statement (not empty, at
    most 1 MiB, no NUL byte) that the remote server executes, the statements
    are sent as they are and in their order, and the result holds for each
    of them the affected-row count that the driver reports (-1 when the
    server reports none), and NULL for a NULL row.  When the remote server
    fails a valid statement that comes behind such rows, that statement is
    the last one sent, and the error is the prefix
    [duckarrow_execute: remote server: ], the stage that failed
    ([create statement: ], [set query: ] or [execute update: ]) and the
    remote message up to its first NUL byte: the whole message, verbatim,
    when it holds none. *)
Theorem execute_passthrough
    (g : main.DuckArrowConfig) (s : flight.Pool * flight.World)
    (rows : list (option string * flight.StmtOutcome Z))
    (t_since t_now t_release : Z) (d : flight.DialOutcome) :
  main.uri g <> "" ->
  rows <> [] -> (Z.of_nat (length rows) <= main.maxDuckDBChunkSize)%Z ->
  is_err (fst (fst (fst (flight.Get (fst s) (snd s)
                           (flight.mkConfig (main.uri g) (main.username g)
                                            (main.password g) (main.skipVerify g))
                           t_since t_now d)))) = false ->
  let R := main.duckarrow_execute_callback g s rows t_since t_now t_release d in
  let res := fst (fst R) in
  let log := snd R in
  (Forall main.row_passes rows ->
   main.output res = map main.row_count rows /\ main.error res = None /\
   main.remote_sql log = main.row_statements rows) /\
  (forall pre sql o post,
     rows = (pre ++ (Some sql, o) :: post)%list ->
     Forall main.row_passes pre -> main.valid_sql sql ->
     let failed (stage e : string) :=
       main.remote_sql log = (main.row_statements pre ++ [sql])%list /\
       main.error res
         = Some ("duckarrow_execute: remote server: " ++ stage ++ Go.CString e) /\
       (main.has_nul e = false ->
        main.error res = Some ("duckarrow_execute: remote server: " ++ stage ++ e)) in
     match o with
     | flight.Executed _ => True
     | flight.NewStatementFails e => failed "create statement: " e
     | flight.SetSqlQueryFails e => failed "set query: " e
     | flight.ExecuteFails e => failed "execute update: " e
     end).
Proof.
  intros Huri Hrows Hsize Hget. cbv zeta.
  unfold main.duckarrow_execute_callback.
  destruct rows as [|row rows]; [contradiction|]. clear Hrows.
  destruct (Z.ltb main.maxDuckDBChunkSize (Z.of_nat (length (row :: rows)))) eqn:E0;
    [apply Z.ltb_lt in E0; lia|].
  cbn [main.GetDuckArrowConfig].
  destruct (String.eqb (main.uri g) "") eqn:E; [apply String.eqb_eq in E; contradiction|].
  destruct (flight.Get _ _ _ _ _ _) as [[[r p1] w1] tr]. cbn [fst] in Hget.
  destruct r as [cr|e]; [|discriminate].
  destruct (main.execute_rows (row :: rows)) as [res log] eqn:HE. cbn [fst snd].
  split.
  - intros Hall. pose proof (execute_rows_passes _ Hall) as H. rewrite HE in H. exact H.
  - intros pre sql o post Heq Hpre Hvalid.
    assert (Hfail : forall stage e,
              main.has_nul stage = false ->
              fst (flight.Execute sql o) = Err (stage ++ e) ->
              main.remote_sql log = (main.row_statements pre ++ [sql])%list /\
              main.error res
                = Some ("duckarrow_execute: remote server: " ++ stage ++ Go.CString e) /\
              (main.has_nul e = false ->
               main.error res = Some ("duckarrow_execute: remote server: " ++ stage ++ e))).
    { intros stage e Hs Hm.
      pose proof (execute_rows_fails pre post sql o _ Hpre Hvalid Hm) as H.
      rewrite <- Heq, HE in H. cbn [fst snd] in H. destruct H as [He Hl].
      rewrite (setExecuteError_remote stage e Hs) in He.
      split; [exact Hl|]. split; [exact He|].
      intros Hn. rewrite He, (CString_no_nul e Hn). reflexivity. }
    destruct o as [e|e|e|affected]; [| | |exact I]; apply Hfail; reflexivity.
Qed.

Lemma execute_passthrough_witness :
  let g := main.mkGlobal "grpc://localhost:31337" "user" "pass" false in
  let sql := "DROP TABLE " ++ Go.quoted "t" in
  let rows := [(Some sql, flight.Executed (-1)%Z); (None, flight.Executed 0%Z)] in
  let R := main.duckarrow_execute_callback g flight.initial rows 0 0 0 flight.DialOk in
  main.output (fst (fst R)) = [Some (-1)%Z; None] /\ main.error (fst (fst R)) = None /\
  main.remote_sql (snd R) = [sql].
Proof.
  intros g sql rows R.
  apply (execute_passthrough g flight.initial rows 0 0 0 flight.DialOk).
  - discriminate.
  - discriminate.
  - vm_compute. discriminate.
  - reflexivity.
  - repeat constructor; try discriminate; try (vm_compute; discriminate).
Defined.

(** ** [duckarrow_configure] *)

(** What one accepted row stores: the credentials as given. *)
Lemma configure_stores_parameters
    (lib : validation.Lib) (env : main.Environ) (g : main.DuckArrowConfig)
    (u : string) (n p : option string) (sv : option (option bool)) :
  validation.ValidateURI lib u = None ->
  fst (main.duckarrow_configure_callback lib env g [main.mkRow (Some u) n p sv]) =
  main.mkGlobal u
    (match n with Some s => s | None => "" end)
    (match p with Some s => s | None => "" end)
    (match sv with Some (Some b) => b | _ => false end).
Proof.
  intros Hv. unfold main.duckarrow_configure_callback.
  cbn [length Z.of_nat]. change (Z.ltb main.maxDuckDBChunkSize (Z.of_nat 1)) with false.
  cbv iota. cbn [main.configure_rows main.arg_uri main.arg_username main.arg_password main.arg_skip].
  rewrite Hv. reflexivity.
Qed.

(** C2.  The code at the failing input: with [DUCKARROW_USERNAME] and
    [DUCKARROW_PASSWORD] set in the environment, configuring with empty
    username and password stores the empty strings, not the values of the
    environment. *)
Theorem configure_ignores_environment
    (lib : validation.Lib) (env : main.Environ) (g : main.DuckArrowConfig) :
  env "DUCKARROW_USERNAME" = "test_user" ->
  env "DUCKARROW_PASSWORD" = "test_pass" ->
  validation.ValidateURI lib "grpc+tls://localhost:31337" = None ->
  let g' := fst (main.duckarrow_configure_callback lib env g
                   [main.mkRow (Some "grpc+tls://localhost:31337")
                               (Some "") (Some "") (Some (Some true))]) in
  main.username g' = "" /\ main.password g' = "" /\
  main.username g' <> env "DUCKARROW_USERNAME" /\
  main.password g' <> env "DUCKARROW_PASSWORD".
Proof.
  intros Hn Hp Hv. cbv zeta.
  rewrite (configure_stores_parameters lib env g _ _ _ _ Hv), Hn, Hp.
  cbn. repeat split; discriminate.
Qed.

Lemma configure_ignores_environment_witness :
  let lib := validation.mkLib (fun s => s) (fun _ => Ok "localhost:31337") in
  let env : main.Environ := fun name =>
    if String.eqb name "DUCKARROW_USERNAME" then "test_user"
    else if String.eqb name "DUCKARROW_PASSWORD" then "test_pass" else "" in
  let g' := fst (main.duckarrow_configure_callback lib env main.duckArrowConfig0
                   [main.mkRow (Some "grpc+tls://localhost:31337")
                               (Some "") (Some "") (Some (Some true))]) in
  main.username g' = "" /\ main.password g' = "".
Proof.
  cbv zeta.
  destruct (configure_ignores_environment
              (validation.mkLib (fun s => s) (fun _ => Ok "localhost:31337"))
              (fun name =>
                 if String.eqb name "DUCKARROW_USERNAME" then "test_user"
                 else if String.eqb name "DUCKARROW_PASSWORD" then "test_pass" else "")
              main.duckArrowConfig0 eq_refl eq_refl eq_refl) as (Hn & Hp & _).
  exact (conj Hn Hp).
Defined.

(** ** Column metadata: nullability *)

(** The arrays that the loop over the fields of the column struct picks
    are arrays of the struct: the names are a string field [column_name],
    and the nullable indicators are a 16-bit integer field [xdbc_nullable],
    if the struct has one. *)
Lemma pick_fields_from (fields : list (string * flight.Array)) (a : flight.ColumnArrays) :
  let a' := fold_left flight.pick_field fields a in
  (forall names, flight.colNameArr a' = Some names ->
     flight.colNameArr a = Some names \/
     In ("column_name", flight.StringArr names) fields) /\
  (forall nulls, flight.nullableArr a' = Some nulls ->
     flight.nullableArr a = Some nulls \/
     In ("xdbc_nullable", flight.Int16Arr nulls) fields) /\
  (flight.nullableArr a' = None ->
     flight.nullableArr a = None /\
     forall nulls, ~ In ("xdbc_nullable", flight.Int16Arr nulls) fields).
Proof.
  revert a. induction fields as [|[n arr] fields IH]; intros a; cbn [fold_left].
  - repeat split; try (intros; left; assumption); try assumption. intros nulls [].
  - destruct (IH (flight.pick_field a (n, arr))) as (Hn & Hv & Hnone).
    assert (Hname : forall names,
              flight.colNameArr (flight.pick_field a (n, arr)) = Some names ->
              flight.colNameArr a = Some names \/
              (n, arr) = ("column_name", flight.StringArr names)).
    { intros names. unfold flight.pick_field.
      destruct (String.eqb n "column_name") eqn:E1.
      { apply String.eqb_eq in E1. subst n.
        destruct arr; cbn; intros H; try (left; exact H).
        injection H as <-. right. reflexivity. }
      destruct (String.eqb n "ordinal_position");
        [destruct arr; cbn; intros H; left; exact H|].
      destruct (String.eqb n "xdbc_type_name");
        [destruct arr; cbn; intros H; left; exact H|].
      destruct (String.eqb n "xdbc_nullable");
        [destruct arr; cbn; intros H; left; exact H|].
      intros H; left; exact H. }
    assert (Hnull : (forall nulls,
              flight.nullableArr (flight.pick_field a (n, arr)) = Some nulls ->
              flight.nullableArr a = Some nulls \/
              (n, arr) = ("xdbc_nullable", flight.Int16Arr nulls)) /\
             (flight.nullableArr (flight.pick_field a (n, arr)) = None ->
              flight.nullableArr a = None /\
              forall nulls, (n, arr) <> ("xdbc_nullable", flight.Int16Arr nulls))).
    { unfold flight.pick_field.
      destruct (String.eqb n "column_name") eqn:E1.
      { apply String.eqb_eq in E1. subst n.
        split; [intros nulls|]; destruct arr; cbn; intros H;
          try (left; exact H); (split; [exact H | intros nulls; discriminate]). }
      destruct (String.eqb n "ordinal_position") eqn:E2.
      { apply String.eqb_eq in E2. subst n.
        split; [intros nulls|]; destruct arr; cbn; intros H;
          try (left; exact H); (split; [exact H | intros nulls; discriminate]). }
      destruct (String.eqb n "xdbc_type_name") eqn:E3.
      { apply String.eqb_eq in E3. subst n.
        split; [intros nulls|]; destruct arr; cbn; intros H;
          try (left; exact H); (split; [exact H | intros nulls; discriminate]). }
      destruct (String.eqb n "xdbc_nullable") eqn:E4.
      { apply String.eqb_eq in E4. subst n.
        split; [intros nulls|]; destruct arr; cbn; intros H;
          try (left; exact H); try discriminate H;
          try (split; [exact H | intros nulls; discriminate]).
        injection H as <-. right. reflexivity. }
      apply String.eqb_neq in E4.
      split; [intros nulls H; left; exact H|].
      intros H. split; [exact H|]. intros nulls [= Heq _]. contradiction. }
    destruct Hnull as [Hsome Hnone']. split; [|split].
    + intros names H. destruct (Hn names H) as [H'|H']; [|right; right; exact H'].
      destruct (Hname names H') as [H''|H'']; [left; exact H''|right; left; exact H''].
    + intros nulls H. destruct (Hv nulls H) as [H'|H']; [|right; right; exact H'].
      destruct (Hsome nulls H') as [H''|H'']; [left; exact H''|right; left; exact H''].
    + intros H. destruct (Hnone H) as [H1 H2]. destruct (Hnone' H1) as [H3 H4].
      split; [exact H3|]. intros nulls [Heq|Hin]; [exact (H4 nulls Heq) | exact (H2 nulls Hin)].
Qed.

(** Every column of a batch comes from one index of the column struct of
    the batch: its name is the slot of the names at that index, and it is
    nullable exactly when the slot of the indicators at that index is 1. *)
Lemma columns_of_batch_inv (rec : flight.RecordBatch) (col : flight.ColumnInfo) :
  In col (flight.columns_of_batch rec) ->
  exists dbs tbls cls fields names colIdx,
    flight.columns_struct rec = Some (dbs, tbls, cls, fields) /\
    flight.colNameArr (flight.pick_fields fields) = Some names /\
    flight.slot names colIdx = Some (flight.Name col) /\
    flight.Nullable col
    = match flight.opt_slot (flight.nullableArr (flight.pick_fields fields)) colIdx with
      | Some n => Z.eqb n 1
      | None => false
      end.
Proof.
  unfold flight.columns_of_batch.
  destruct (flight.columns_struct rec) as [[[[dbs tbls] cls] fields]|]; [|intros []].
  destruct (flight.colNameArr (flight.pick_fields fields)) as [names|] eqn:Hnames;
    [|intros []].
  intros H. exists dbs, tbls, cls, fields, names.
  apply in_flat_map in H as (rowIdx & _ & H).
  destruct (flight.slot dbs rowIdx) as [[s e]|]; [|destruct H].
  apply in_flat_map in H as (schemaIdx & _ & H).
  destruct (flight.slot tbls schemaIdx) as [[ts te]|]; [|destruct H].
  apply in_flat_map in H as (tableIdx & _ & H).
  unfold flight.columns_of_table in H.
  destruct (flight.slot cls tableIdx) as [[cs ce]|]; [|destruct H].
  apply in_flat_map in H as (colIdx & _ & H).
  destruct (flight.slot names colIdx) as [name|] eqn:Hname; [|destruct H].
  destruct H as [<-|[]]. exists colIdx. cbn [flight.column_info flight.Name flight.Nullable].
  split; [reflexivity|]. split; [exact Hnames|]. split; [exact Hname | reflexivity].
Qed.

(** C3 (as stated) fails: a column whose nullable indicator is 2, and one
    that has no indicator, are both reported as not nullable. *)
Lemma nullable_unknown_counterexample :
  let column_struct :=
    flight.StructArr
      [("column_name", flight.StringArr [Some "a"; Some "b"]);
       ("ordinal_position", flight.Int32Arr [Some 1; Some 2]);
       ("xdbc_nullable", flight.Int16Arr [Some 2; None])] in
  let table_struct :=
    flight.StructArr
      [("table_name", flight.StringArr [Some "t"]);
       ("table_type", flight.StringArr [Some "TABLE"]);
       ("table_columns", flight.ListArr [Some (0, 2)] column_struct)] in
  let schema_struct :=
    flight.StructArr
      [("db_schema_name", flight.StringArr [Some "main"]);
       ("db_schema_tables", flight.ListArr [Some (0, 1)] table_struct)] in
  let rec := flight.mkBatch [flight.StringArr [Some "db"];
                             flight.ListArr [Some (0, 1)] schema_struct] 1 in
  fst (flight.GetColumns "main" "t" (Ok (flight.mkReader [rec] None))
                         (flight.ExecuteFails "unused"))
  = Ok [flight.mkColumn "a" "" false 1; flight.mkColumn "b" "" false 2].
Proof. vm_compute. reflexivity. Qed.

(** C3 (as amended).  For every column row that [GetColumns] produces
    through the structured metadata call: the row comes from one index of
    the column struct of a batch, at which the field [column_name] holds the
    name of the column, and the column is reported nullable exactly when the
    field [xdbc_nullable] holds 1 at that same index.  When that indicator
    is 0, is 2, or is absent (a null slot, or no such field), the column is
    reported as not nullable. *)
Theorem nullable_iff_indicator_one
    (schema table : string) (reader : flight.Reader)
    (cols : list flight.ColumnInfo) (col : flight.ColumnInfo) :
  fst (flight.getColumnsViaADBC schema table (Ok reader)) = Ok cols ->
  In col cols ->
  exists rec dbs tbls cls fields names colIdx,
    In rec (flight.batches reader) /\
    flight.columns_struct rec = Some (dbs, tbls, cls, fields) /\
    In ("column_name", flight.StringArr names) fields /\
    flight.slot names colIdx = Some (flight.Name col) /\
    ((exists nulls,
        In ("xdbc_nullable", flight.Int16Arr nulls) fields /\
        let indicator := flight.slot nulls colIdx in
        (flight.Nullable col = true <-> indicator = Some 1) /\
        (indicator = Some 0 \/ indicator = Some 2 \/ indicator = None ->
         flight.Nullable col = false)) \/
     ((forall nulls, ~ In ("xdbc_nullable", flight.Int16Arr nulls) fields) /\
      flight.Nullable col = false)).
Proof.
  unfold flight.getColumnsViaADBC. cbn [fst].
  destruct (flight.reader_err reader); [discriminate|].
  intros [= <-] Hin.
  apply in_flat_map in Hin as (rec & Hrec & Hin).
  destruct (columns_of_batch_inv _ _ Hin)
    as (dbs & tbls & cls & fields & names & colIdx & Hs & Hnames & Hname & Hn).
  exists rec, dbs, tbls, cls, fields, names, colIdx.
  destruct (pick_fields_from fields (flight.mkArrays None None None None))
    as (Hfn & Hfv & Hfnone).
  fold (flight.pick_fields fields) in Hfn, Hfv, Hfnone.
  split; [exact Hrec|]. split; [exact Hs|]. split.
  { destruct (Hfn names Hnames) as [H|H]; [discriminate H | exact H]. }
  split; [exact Hname|].
  destruct (flight.nullableArr (flight.pick_fields fields)) as [nulls|] eqn:Hnulls.
  - left. exists nulls. split.
    { destruct (Hfv nulls eq_refl) as [H|H]; [discriminate H | exact H]. }
    cbv zeta. cbn [flight.opt_slot] in Hn. rewrite Hn.
    destruct (flight.slot nulls colIdx) as [n|].
    + split.
      * split; [intros H; apply Z.eqb_eq in H; now subst | intros [= ->]; reflexivity].
      * intros [[= ->]|[[= ->]|H]]; [reflexivity | reflexivity | discriminate].
    + split; [split; discriminate | reflexivity].
  - right. split; [apply Hfnone; reflexivity | exact Hn].
Qed.

Lemma nullable_iff_indicator_one_witness :
  exists rec dbs tbls cls fields names colIdx,
    In rec (flight.batches (sample.columns_reader [Some 1; Some 0])) /\
    flight.columns_struct rec = Some (dbs, tbls, cls, fields) /\
    In ("column_name", flight.StringArr names) fields /\
    flight.slot names colIdx = Some "a" /\
    ((exists nulls,
        In ("xdbc_nullable", flight.Int16Arr nulls) fields /\
        let indicator := flight.slot nulls colIdx in
        (true = true <-> indicator = Some 1) /\
        (indicator = Some 0 \/ indicator = Some 2 \/ indicator = None -> true = false)) \/
     ((forall nulls, ~ In ("xdbc_nullable", flight.Int16Arr nulls) fields) /\
      true = false)).
Proof.
  exact (nullable_iff_indicator_one "main" "t" (sample.columns_reader [Some 1; Some 0])
           [flight.mkColumn "a" "" true 1; flight.mkColumn "b" "" false 2]
           (flight.mkColumn "a" "" true 1) eq_refl (or_introl eq_refl)).
Defined.

(** ** Projection pushdown in [duckarrow_go_scan_init] *)

Lemma firstn_length_all {A : Type} (l : list A) : firstn (length l) l = l.
Proof. induction l as [|x l IH]; cbn; [reflexivity | now rewrite IH]. Qed.

Lemma int_of_size_t_small (v : Z) :
  (0 <= v < 2 ^ 63)%Z -> main.int_of_size_t v = v.
Proof.
  intros H. unfold main.int_of_size_t.
  rewrite Z.mod_small by lia.
  destruct (Z.ltb v (2 ^ 63)) eqn:E; [reflexivity | apply Z.ltb_ge in E; lia].
Qed.

(** The slice of projected indices that init reads from the caller's
    array is the projection itself, when its indices are column indices. *)
Lemma projected_columns_in_range (n : nat) (p : list Z) :
  (Z.of_nat n < 2 ^ 63)%Z ->
  (forall i, In i p -> (0 <= i < Z.of_nat n)%Z) ->
  main.projected_columns (Some p) (length p) = p.
Proof.
  intros Hn Hp. unfold main.projected_columns.
  destruct p as [|x p]; [reflexivity|].
  change (length (x :: p)) with (S (length p)) at 1.
  cbv iota. rewrite firstn_length_all.
  rewrite <- (map_id (x :: p)) at 2. apply map_ext_in.
  intros i Hi. apply int_of_size_t_small. specialize (Hp i Hi). lia.
Qed.

Lemma projected_names_in_range (names : list string) (p : list Z) :
  (forall i, In i p -> (0 <= i < Z.of_nat (length names))%Z) ->
  map (main.projected_name names) p =
  map (fun i => Go.quoted (Go.ReplaceAll (nth (Z.to_nat i) names "") Go.DQ main.DQDQ)) p.
Proof.
  intros Hp. apply map_ext_in. intros i Hi. specialize (Hp i Hi).
  unfold main.projected_name.
  destruct (Z.leb 0 i) eqn:E1; [|apply Z.leb_gt in E1; lia].
  destruct (Z.ltb i (Z.of_nat (length names))) eqn:E2; [|apply Z.ltb_ge in E2; lia].
  reflexivity.
Qed.

(** A duplicate-free list of column indices has as many entries as there
    are columns exactly when it holds every column index. *)
Lemma projection_full_iff_length (n : nat) (p : list Z) :
  (forall i, In i p -> (0 <= i < Z.of_nat n)%Z) -> List.NoDup p ->
  (length p = n <-> forall j, (0 <= j < Z.of_nat n)%Z -> In j p).
Proof.
  intros Hp Hnd.
  set (all := map Z.of_nat (seq 0 n)).
  assert (Hall : forall j, In j all <-> (0 <= j < Z.of_nat n)%Z).
  { intros j. unfold all. rewrite in_map_iff. split.
    - intros (k & <- & Hk). apply in_seq in Hk. lia.
    - intros Hj. exists (Z.to_nat j). split; [lia|]. apply in_seq. lia. }
  assert (Hlen : length all = n) by (unfold all; now rewrite length_map, length_seq).
  assert (Hnd' : List.NoDup all).
  { unfold all. apply Finite.Injective_map_NoDup; [|apply seq_NoDup].
    intros a b Hab. lia. }
  assert (Hincl : incl p all) by (intros i Hi; apply Hall, Hp, Hi).
  split.
  - intros Hl j Hj.
    refine (List.NoDup_length_incl Hnd _ Hincl j _); [lia | now apply Hall].
  - intros Hfull.
    assert (Hincl' : incl all p) by (intros j Hj; apply Hfull, Hall, Hj).
    pose proof (List.NoDup_incl_length Hnd Hincl).
    pose proof (List.NoDup_incl_length Hnd' Hincl'). lia.
Qed.

(** C4.  For every initialized scan with bound column descriptors and a
    projection [p] (an ordered subset of the column indices: every entry is
    the index of a bound column and no index occurs twice): if [p] is empty
    or holds every column, the select list of the remote SQL is [*];
    otherwise the select list is exactly the quoted identifiers of the
    projected columns, in the order of [p]. *)
Theorem scan_init_projection
    (b : main.ScanBindData) (p : list Z) (o : flight.StmtOutcome flight.Reader) :
  (Z.of_nat (length (main.ColumnNames b)) < 2 ^ 63)%Z ->
  (forall i, In i p -> (0 <= i < Z.of_nat (length (main.ColumnNames b)))%Z) ->
  List.NoDup p ->
  let '(_, _, log) :=
    main.duckarrow_go_scan_init (main.BindHandle b) (Some p) (length p) o in
  let full := forall j, (0 <= j < Z.of_nat (length (main.ColumnNames b)))%Z -> In j p in
  let target := main.scan_target (main.SchemaName b) (main.TableName b) in
  (p = [] \/ full -> main.remote_sql log = ["SELECT * FROM " ++ target]) /\
  (p <> [] /\ ~ full ->
   main.remote_sql log =
     ["SELECT "
        ++ Go.Join (map (fun i => Go.quoted (Go.ReplaceAll
                                   (nth (Z.to_nat i) (main.ColumnNames b) "")
                                   Go.DQ main.DQDQ)) p) ", "
        ++ " FROM " ++ target]).
Proof.
  intros Hn Hp Hnd.
  unfold main.duckarrow_go_scan_init.
  rewrite (projected_columns_in_range _ _ Hn Hp).
  assert (Hlog : forall r, main.remote_sql (snd (flight.Query r o)) = [r]) by reflexivity.
  set (query := main.scan_query _ p).
  specialize (Hlog query).
  destruct (flight.Query query o) as [[reader|e] log]; cbn [snd] in Hlog; rewrite Hlog;
    clear Hlog; subst query; unfold main.scan_query, main.scan_column_list;
    cbn [main.ColumnNames main.SchemaName main.TableName];
    pose proof (projection_full_iff_length _ _ Hp Hnd) as Hfull.
  all: split.
  all: try (intros [-> | Hf];
            [reflexivity
            | apply Hfull in Hf; rewrite Hf, Nat.eqb_refl, orb_true_r; reflexivity]).
  all: intros [Hne Hnf];
       destruct (Nat.eqb (length p) 0) eqn:E0;
       [apply Nat.eqb_eq in E0; destruct p; [contradiction | discriminate]|];
       destruct (Nat.eqb (length p) (length (main.ColumnNames b))) eqn:E1;
       [apply Nat.eqb_eq in E1; exfalso; apply Hnf, Hfull, E1|];
       cbn [orb]; rewrite (projected_names_in_range _ _ Hp); reflexivity.
Qed.

(** Outside the data model's projections the select list is decided by
    the length alone: a list that repeats an index and is as long as the
    column list gives [*], and an index that is no column index (here the
    [size_t] value [2^64 - 1]) leaves its slot of the select list empty. *)
Example scan_column_list_outside_projection :
  main.scan_column_list ["a"; "b"] [0; 0]%Z = "*" /\
  main.scan_column_list ["a"; "b"; "c"]
    (main.projected_columns (Some [2 ^ 64 - 1]%Z) 1) = "".
Proof. split; reflexivity. Qed.

(** The specification's first scenario: columns [id], [name], [status] and
    projection [[0, 2]] on table [Order]. *)
Lemma scan_init_projection_witness :
  main.remote_sql
    (snd (main.duckarrow_go_scan_init (main.BindHandle sample.order_scan)
            (Some [0; 2]%Z) 2 (flight.Executed (flight.mkReader [] None))))
  = ["SELECT " ++ Go.quoted "id" ++ ", " ++ Go.quoted "status"
       ++ " FROM " ++ Go.quoted "Order"].
Proof.
  assert (Hr : forall i, In i [0; 2]%Z ->
                 (0 <= i < Z.of_nat (length (main.ColumnNames sample.order_scan)))%Z).
  { intros i [<-|[<-|[]]]; cbn; lia. }
  assert (Hd : List.NoDup [0; 2]%Z).
  { constructor; [intros [H|[]]; discriminate|]. constructor; [intros []|constructor]. }
  pose proof (scan_init_projection sample.order_scan [0; 2]%Z
                (flight.Executed (flight.mkReader [] None)) eq_refl Hr Hd) as H.
  cbn in H. destruct H as [_ H]. apply H. split; [discriminate|].
  intros Hf. destruct (Hf 1%Z ltac:(lia)) as [E|[E|[]]]; discriminate.
Defined.

(** ** The pool mutex *)

(** C9 (as stated) fails: a [Get] for a key that is not in the pool dials
    the remote server between taking and releasing the pool mutex. *)
Lemma connect_under_mutex_counterexample :
  snd (flight.Get flight.NewPool (flight.mkWorld ∅ ∅ 0) sample.config 0 0 flight.DialOk)
  = [flight.EvLock; flight.EvConnect sample.config; flight.EvUnlock]
  /\ flight.rpc_under_lock false
       (snd (flight.Get flight.NewPool (flight.mkWorld ∅ ∅ 0) sample.config 0 0 flight.DialOk))
     = true.
Proof. split; reflexivity. Qed.

(** The traces of [Get]. *)
Lemma Get_trace (p : flight.Pool) (w : flight.World) (cfg : flight.Config)
    (t_since t_now : Z) (d : flight.DialOutcome) :
  let tr := snd (flight.Get p w cfg t_since t_now d) in
  match flight.clients p !! flight.configKey cfg with
  | Some pc =>
      if flight.inUse pc then tr = [flight.EvLock; flight.EvConnect cfg; flight.EvUnlock]
      else if flight.IsHealthy_at w (flight.client pc)
              && Z.ltb (t_since - flight.lastUsed pc) (flight.maxIdle p)
      then tr = [flight.EvLock; flight.EvUnlock]
      else tr = [flight.EvLock; flight.EvClientClose (flight.client pc);
                 flight.EvConnect cfg; flight.EvUnlock]
  | None => tr = [flight.EvLock; flight.EvConnect cfg; flight.EvUnlock]
  end.
Proof.
  cbv zeta. unfold flight.Get.
  destruct (flight.clients p !! flight.configKey cfg) as [pc|].
  - destruct (flight.inUse pc).
    + destruct (flight.Connect w cfg d) as [[c|e] w']; reflexivity.
    + destruct (flight.IsHealthy_at w (flight.client pc)
                && Z.ltb (t_since - flight.lastUsed pc) (flight.maxIdle p)); [reflexivity|].
      destruct (flight.connect_and_add _ _ _ _ _ _) as [[r p2] w2]. reflexivity.
  - destruct (flight.connect_and_add _ _ _ _ _ _) as [[r p2] w2]. reflexivity.
Qed.

(** C9 (as amended).  In every execution of [Get], [Release] and [Close]
    the pool mutex is taken once, on entry, and released once, on return.
    [Release] holds it for map operations only.  [Get] holds it for map
    operations only when it reuses an idle, healthy and fresh entry; whenever
    it dials (the key is absent, its entry is in use, or its entry is evicted)
    [Connect] runs while the mutex is held, and the eviction and [Close] close
    clients while it is held. *)
Theorem pool_mutex_discipline
    (p : flight.Pool) (w : flight.World) (cfg : flight.Config)
    (t_since t_now : Z) (d : flight.DialOutcome) :
  let trG := snd (flight.Get p w cfg t_since t_now d) in
  let trR := snd (flight.Release p cfg t_now) in
  let trC := snd (flight.Pool_Close p w) in
  let reuses :=
    match flight.clients p !! flight.configKey cfg with
    | Some pc => negb (flight.inUse pc) && flight.IsHealthy_at w (flight.client pc)
                 && Z.ltb (t_since - flight.lastUsed pc) (flight.maxIdle p)
    | None => false
    end in
  flight.bracketed trG /\ flight.bracketed trR /\ flight.bracketed trC /\
  trR = [flight.EvLock; flight.EvUnlock] /\
  (reuses = true -> trG = [flight.EvLock; flight.EvUnlock]) /\
  (reuses = false ->
   In (flight.EvConnect cfg) trG /\ flight.rpc_under_lock false trG = true) /\
  (flight.clients p <> ∅ -> flight.rpc_under_lock false trC = true).
Proof.
  cbv zeta. pose proof (Get_trace p w cfg t_since t_now d) as HG. cbv zeta in HG.
  assert (HR : snd (flight.Release p cfg t_now) = [flight.EvLock; flight.EvUnlock]).
  { unfold flight.Release. destruct (flight.clients p !! flight.configKey cfg); reflexivity. }
  split; [|split; [|split; [|split; [|split; [|split]]]]].
  - destruct (flight.clients p !! flight.configKey cfg) as [pc|].
    + destruct (flight.inUse pc);
        [|destruct (flight.IsHealthy_at w (flight.client pc)
                    && Z.ltb (t_since - flight.lastUsed pc) (flight.maxIdle p))];
        rewrite HG.
      * exists [flight.EvConnect cfg]. split; reflexivity.
      * exists []. split; reflexivity.
      * exists [flight.EvClientClose (flight.client pc); flight.EvConnect cfg].
        split; reflexivity.
    + rewrite HG. exists [flight.EvConnect cfg]. split; reflexivity.
  - rewrite HR. exists []. split; reflexivity.
  - unfold flight.Pool_Close. cbn [snd].
    eexists. split; [reflexivity|].
    induction (map snd (map_to_list (flight.clients p))); [reflexivity | exact IHl].
  - exact HR.
  - destruct (flight.clients p !! flight.configKey cfg) as [pc|]; [|discriminate].
    destruct (flight.inUse pc); [discriminate|]. cbn [negb andb].
    intros H. rewrite H in HG. exact HG.
  - destruct (flight.clients p !! flight.configKey cfg) as [pc|].
    + destruct (flight.inUse pc); cbn [negb andb].
      * intros _. rewrite HG. split; [cbn; tauto | reflexivity].
      * intros H. rewrite H in HG. rewrite HG. split; [cbn; tauto | reflexivity].
    + intros _. rewrite HG. split; [cbn; tauto | reflexivity].
  - intros Hne. unfold flight.Pool_Close. cbn [snd].
    destruct (map_to_list (flight.clients p)) as [|[k pc] l] eqn:E.
    + apply map_to_list_empty_iff in E. contradiction.
    + reflexivity.
Qed.

Lemma pool_mutex_discipline_witness :
  In (flight.EvConnect sample.config)
     (snd (flight.Get flight.NewPool (flight.mkWorld ∅ ∅ 0) sample.config 0 0 flight.DialOk))
  /\ flight.rpc_under_lock false
       (snd (flight.Get flight.NewPool (flight.mkWorld ∅ ∅ 0) sample.config 0 0 flight.DialOk))
     = true.
Proof.
  destruct (pool_mutex_discipline flight.NewPool (flight.mkWorld ∅ ∅ 0) sample.config
              0 0 flight.DialOk) as (_ & _ & _ & _ & _ & H & _).
  exact (H eq_refl).
Defined.

(** ** The pool and the store: invariant *)

Section PoolInvariant.

Import flight.

Lemma Close_at_heap (w : World) (a : nat) (econn edb : option string) :
  heap (snd (Close_at w a econn edb)) = heap w /\
  fresh (snd (Close_at w a econn edb)) = fresh w.
Proof.
  unfold Close_at. destruct (heap w !! a) as [c|] eqn:E; [|split; reflexivity].
  cbn. split; [apply insert_id; exact E | reflexivity].
Qed.

Lemma Connect_inv (w : World) (cfg : Config) (d : DialOutcome) :
  match Connect w cfg d with
  | (Ok a, w') =>
      (fresh w <= a)%nat /\ fresh w' = S a /\
      exists c, IsHealthy c = true /\ heap w' = <[ a := c ]> (heap w)
  | (Err _, w') => heap w' = heap w /\ (fresh w <= fresh w')%nat
  end.
Proof.
  destruct d; cbn.
  - split; [lia|]. split; [reflexivity|].
    exists (mkClient (Some (fresh w)) (Some (S (fresh w)))). split; reflexivity.
  - split; [reflexivity | lia].
  - split; [reflexivity | lia].
Qed.

Lemma inv_fresh_mono m h (f f' : nat) : inv m h f -> (f <= f')%nat -> inv m h f'.
Proof.
  intros (H1 & H2 & H3) Hle. split; [|split; assumption].
  intros a c Ha. destruct (H1 a c Ha). split; [lia | assumption].
Qed.

(** Allocating a healthy client above the mark, with or without a pool
    entry for it. *)
Lemma inv_alloc m h (f a : nat) (c : Client) :
  inv m h f -> (f <= a)%nat -> IsHealthy c = true -> inv m (<[ a := c ]> h) (S a).
Proof.
  intros (H1 & H2 & H3) Hle Hc. split; [|split].
  - intros a' c' Ha. rewrite lookup_insert in Ha. case_decide.
    + subst a'. injection Ha as <-. split; [lia | assumption].
    + destruct (H1 a' c' Ha). split; [lia | assumption].
  - intros k pc Hk. rewrite lookup_insert. case_decide; [eauto | eapply H2; eauto].
  - exact H3.
Qed.

Lemma inv_connect_add m h (f a : nat) (c : Client) (k : string) (pc : PooledClient) :
  inv m h f -> (f <= a)%nat -> IsHealthy c = true -> client pc = a ->
  inv (<[ k := pc ]> m) (<[ a := c ]> h) (S a).
Proof.
  intros (H1 & H2 & H3) Hle Hc Hpc.
  assert (Hold : forall k' pc', m !! k' = Some pc' -> client pc' <> a).
  { intros k' pc' Hk'. destruct (H2 k' pc' Hk') as [c' Hc'].
    destruct (H1 _ _ Hc'). lia. }
  split; [|split].
  - intros a' c' Ha. rewrite lookup_insert in Ha. case_decide.
    + subst a'. injection Ha as <-. split; [lia | assumption].
    + destruct (H1 a' c' Ha). split; [lia | assumption].
  - intros k' pc' Hk'. rewrite lookup_insert in Hk'. case_decide.
    + injection Hk' as <-. rewrite Hpc, lookup_insert_eq. eauto.
    + rewrite lookup_insert. case_decide; [eauto | eapply H2; eauto].
  - intros k1 k2 pc1 pc2 Hk1 Hk2 Heq.
    rewrite lookup_insert in Hk1. rewrite lookup_insert in Hk2.
    destruct (decide (k = k1)) as [E1|E1], (decide (k = k2)) as [E2|E2].
    + congruence.
    + injection Hk1 as <-. exfalso. eapply Hold; [exact Hk2 | congruence].
    + injection Hk2 as <-. exfalso. eapply Hold; [exact Hk1 | congruence].
    + eapply H3; eauto.
Qed.

(** Rewriting an entry in place: the client stays. *)
Lemma inv_update m h (f : nat) (k : string) (pc pc' : PooledClient) :
  inv m h f -> m !! k = Some pc -> client pc' = client pc ->
  inv (<[ k := pc' ]> m) h f.
Proof.
  intros (H1 & H2 & H3) Hk Hc. split; [exact H1 | split].
  - intros k' pc1 Hk'. rewrite lookup_insert in Hk'. case_decide.
    + injection Hk' as <-. rewrite Hc. eapply H2; eauto.
    + eapply H2; eauto.
  - intros k1 k2 pc1 pc2 Hk1 Hk2 Heq.
    rewrite lookup_insert in Hk1. rewrite lookup_insert in Hk2.
    destruct (decide (k = k1)) as [E1|E1], (decide (k = k2)) as [E2|E2].
    + congruence.
    + injection Hk1 as <-. subst k1.
      eapply H3; [exact Hk | exact Hk2 | congruence].
    + injection Hk2 as <-. subst k2.
      eapply H3; [exact Hk1 | exact Hk | congruence].
    + eapply H3; eauto.
Qed.

Lemma inv_delete m h (f : nat) (k : string) : inv m h f -> inv (delete k m) h f.
Proof.
  intros (H1 & H2 & H3). split; [exact H1 | split].
  - intros k' pc Hk'. apply lookup_delete_Some in Hk' as [_ Hk']. eapply H2; eauto.
  - intros k1 k2 pc1 pc2 Hk1 Hk2.
    apply lookup_delete_Some in Hk1 as [_ Hk1].
    apply lookup_delete_Some in Hk2 as [_ Hk2]. eapply H3; eauto.
Qed.

Lemma inv_empty m h (f : nat) : inv m h f -> inv ∅ h f.
Proof.
  intros (H1 & _ & _). split; [exact H1 | split].
  - intros k pc Hk. rewrite lookup_empty in Hk. discriminate.
  - intros k1 k2 pc1 pc2 Hk. rewrite lookup_empty in Hk. discriminate.
Qed.

Lemma connect_and_add_inv (p : Pool) (w : World) (cfg : Config) (k : string)
    (now : Z) (d : DialOutcome) :
  pool_inv (p, w) ->
  let '(_, p', w') := connect_and_add p w cfg k now d in pool_inv (p', w').
Proof.
  unfold pool_inv, connect_and_add. cbn [fst snd]. intros Hinv.
  pose proof (Connect_inv w cfg d) as HC.
  destruct (Connect w cfg d) as [[a|e] w']; cbn [fst snd clients].
  - destruct HC as (Hle & -> & c & Hc & ->).
    apply (inv_connect_add _ _ (fresh w)); [assumption..|reflexivity].
  - destruct HC as [-> Hle]. eapply inv_fresh_mono; eauto.
Qed.

Lemma Get_inv (p : Pool) (w : World) (cfg : Config) (t_since t_now : Z)
    (d : DialOutcome) :
  pool_inv (p, w) ->
  let '(_, p', w', _) := Get p w cfg t_since t_now d in pool_inv (p', w').
Proof.
  intros Hinv. unfold Get.
  destruct (clients p !! configKey cfg) as [pc|] eqn:Hk.
  - destruct (inUse pc).
    + pose proof (Connect_inv w cfg d) as HC.
      destruct (Connect w cfg d) as [[a|e] w']; unfold pool_inv in *; cbn [fst snd] in *.
      * destruct HC as (Hle & -> & c & Hc & ->).
        apply (inv_alloc _ _ (fresh w)); assumption.
      * destruct HC as [-> Hle]. eapply inv_fresh_mono; eauto.
    + destruct (IsHealthy_at w (client pc) && _).
      * unfold pool_inv in *. cbn [fst snd clients] in *.
        eapply inv_update; eauto.
      * pose proof (connect_and_add_inv
                      (mkPool (delete (configKey cfg) (clients p)) (maxIdle p))
                      (snd (Close_at w (client pc) None None))
                      cfg (configKey cfg) t_now d) as H.
        destruct (connect_and_add _ _ _ _ _ _) as [[r p2] w2]. apply H.
        unfold pool_inv in *. cbn [fst snd clients] in *.
        destruct (Close_at_heap w (client pc) None None) as [-> ->].
        apply inv_delete. assumption.
  - pose proof (connect_and_add_inv p w cfg (configKey cfg) t_now d Hinv) as H.
    destruct (connect_and_add _ _ _ _ _ _) as [[r p2] w2]. exact H.
Qed.

Lemma Release_inv (p : Pool) (w : World) (cfg : Config) (t : Z) :
  pool_inv (p, w) -> pool_inv (fst (Release p cfg t), w).
Proof.
  intros Hinv. unfold Release.
  destruct (clients p !! configKey cfg) as [pc|] eqn:Hk; [|exact Hinv].
  unfold pool_inv in *. cbn [fst snd clients] in *. eapply inv_update; eauto.
Qed.

Lemma fold_Close_at_heap (l : list PooledClient) (w : World) :
  let w' := fold_left (fun w' pc => snd (Close_at w' (client pc) None None)) l w in
  heap w' = heap w /\ fresh w' = fresh w.
Proof.
  revert w. induction l as [|pc l IH]; intros w; [split; reflexivity|].
  cbn [fold_left]. destruct (IH (snd (Close_at w (client pc) None None))) as [-> ->].
  apply Close_at_heap.
Qed.

Lemma step_inv (s : Pool * World) (o : Op) : pool_inv s -> pool_inv (step s o).
Proof.
  destruct s as [p w]. intros Hinv. destruct o; cbn [step fst snd].
  - pose proof (Get_inv p w cfg t_since t_now d Hinv) as H.
    destruct (Get p w cfg t_since t_now d) as [[[r p'] w'] tr]. exact H.
  - apply Release_inv. exact Hinv.
  - unfold Pool_Close, pool_inv in *. cbn [fst snd clients] in *.
    destruct (fold_Close_at_heap (map snd (map_to_list (clients p))) w) as [-> ->].
    eapply inv_empty; eauto.
  - unfold pool_inv in *. cbn [fst snd] in *.
    destruct (Close_at_heap w p0 econn edb) as [-> ->]. exact Hinv.
  - exact Hinv.
Qed.

Lemma reachable_inv (s : Pool * World) : reachable s -> pool_inv s.
Proof.
  induction 1 as [|s o _ IH]; [|apply step_inv; exact IH].
  unfold pool_inv, initial, inv. cbn. repeat split.
  - rewrite lookup_empty in H. discriminate.
  - rewrite lookup_empty in H. discriminate.
  - intros k pc Hk. rewrite lookup_empty in Hk. discriminate.
  - intros k1 k2 pc1 pc2 Hk. rewrite lookup_empty in Hk. discriminate.
Qed.

End PoolInvariant.

(** ** Clients keep their handles *)

Section ClientHealth.

Import flight.

Lemma Connect_heap (w : World) (cfg : Config) (d : DialOutcome) (a : nat) (c : Client) :
  (forall a' c', heap w !! a' = Some c' -> (a' < fresh w)%nat) ->
  heap w !! a = Some c -> heap (snd (Connect w cfg d)) !! a = Some c.
Proof.
  intros Hf Ha. pose proof (Connect_inv w cfg d) as HC.
  destruct (Connect w cfg d) as [[a'|e] w']; cbn [snd].
  - destruct HC as (Hle & _ & c' & _ & ->).
    rewrite lookup_insert_ne; [exact Ha|]. specialize (Hf _ _ Ha). lia.
  - destruct HC as [-> _]. exact Ha.
Qed.

(** No call overwrites a client of the store. *)
Lemma step_heap (s : Pool * World) (o : Op) (a : nat) (c : Client) :
  pool_inv s -> heap (snd s) !! a = Some c -> heap (snd (step s o)) !! a = Some c.
Proof.
  destruct s as [p w]. intros (H1 & _ & _) Ha. cbn [fst snd] in *.
  assert (Hf : forall a' c', heap w !! a' = Some c' -> (a' < fresh w)%nat)
    by (intros a' c' H; apply (H1 a' c' H)).
  destruct o; cbn [step fst snd].
  - unfold Get. destruct (clients p !! configKey cfg) as [pc|].
    + destruct (inUse pc).
      * pose proof (Connect_heap w cfg d a c Hf Ha) as H.
        destruct (Connect w cfg d) as [[a'|e] w']; exact H.
      * destruct (IsHealthy_at w (client pc) && _); [exact Ha|].
        unfold connect_and_add.
        destruct (Close_at_heap w (client pc) None None) as [Hh Hfr].
        pose proof (Connect_heap (snd (Close_at w (client pc) None None)) cfg d a c) as H.
        rewrite Hh, Hfr in H. specialize (H Hf Ha).
        destruct (Connect _ cfg d) as [[a'|e] w']; exact H.
    + unfold connect_and_add.
      pose proof (Connect_heap w cfg d a c Hf Ha) as H.
      destruct (Connect w cfg d) as [[a'|e] w']; exact H.
  - exact Ha.
  - unfold Pool_Close. cbn [snd].
    destruct (fold_Close_at_heap (map snd (map_to_list (clients p))) w) as [-> _].
    exact Ha.
  - destruct (Close_at_heap w p0 econn edb) as [-> _]. exact Ha.
  - exact Ha.
Qed.

(** C10.  For every client for which [Connect] succeeded (every client
    of the store, in every reachable state): both handles are non-nil, and
    every later call, [Close] included, leaves the client as it is.  So
    [IsHealthy] is true even after [Close] has closed both handles, and the
    health check of [Get] finds every pool entry healthy. *)
Theorem client_stays_healthy (s : Pool * World) :
  reachable s ->
  (forall a c, heap (snd s) !! a = Some c ->
     IsHealthy c = true /\
     (forall o, heap (snd (step s o)) !! a = Some c) /\
     (forall econn edb,
        let w' := snd (Close_at (snd s) a econn edb) in
        heap w' !! a = Some c /\ handles_of c ⊆ closed w' /\ IsHealthy_at w' a = true)) /\
  (forall k pc, clients (fst s) !! k = Some pc ->
     IsHealthy_at (snd s) (client pc) = true).
Proof.
  intros Hr. pose proof (reachable_inv s Hr) as Hinv.
  pose proof Hinv as (H1 & H2 & _). split.
  - intros a c Ha. destruct (H1 a c Ha) as [_ Hc].
    split; [exact Hc|]. split; [intros o; apply step_heap; assumption|].
    intros econn edb. cbv zeta.
    destruct (Close_at_heap (snd s) a econn edb) as [Hh _].
    split; [rewrite Hh; exact Ha|]. split.
    + unfold Close_at. rewrite Ha. cbn. apply union_subseteq_l.
    + unfold IsHealthy_at. rewrite Hh, Ha. exact Hc.
  - intros k pc Hk. destruct (H2 k pc Hk) as [c Hc].
    unfold IsHealthy_at. rewrite Hc. apply (H1 _ _ Hc).
Qed.

End ClientHealth.

Lemma client_stays_healthy_witness :
  let s := flight.step (flight.step flight.initial
                          (flight.OpGet sample.config 0 0 flight.DialOk))
                       (flight.OpClientClose 2 None None) in
  flight.IsHealthy_at (snd s) 2 = true /\
  flight.closed (snd s) = {[ 0%nat; 1%nat ]} /\
  flight.IsHealthy_at (snd (flight.step s (flight.OpGet sample.config 1 1 flight.DialOk))) 2
    = true.
Proof.
  cbv zeta.
  pose proof (client_stays_healthy _
                (flight.reach_step _ (flight.OpClientClose 2 None None)
                   (flight.reach_step _ (flight.OpGet sample.config 0 0 flight.DialOk)
                      flight.reach_init))) as [H _].
  specialize (H 2%nat (flight.mkClient (Some 0%nat) (Some 1%nat)) eq_refl).
  destruct H as (Hc & Hstep & _).
  split; [exact Hc|]. split; [vm_compute; reflexivity|].
  unfold flight.IsHealthy_at.
  rewrite (Hstep (flight.OpGet sample.config 1 1 flight.DialOk)). exact Hc.
Defined.

(** ** In-use entries *)

Section InUse.

Import flight.

(** A client that [Connect] returns is new to the store, and healthy. *)
Lemma Connect_fresh (m : gmap string PooledClient) (w : World) (cfg : Config)
    (d : DialOutcome) (a : nat) (w' : World) :
  inv m (heap w) (fresh w) ->
  Connect w cfg d = (Ok a, w') ->
  heap w !! a = None /\ IsHealthy_at w' a = true /\
  (forall k pc, m !! k = Some pc -> client pc <> a).
Proof.
  intros (H1 & H2 & _) HC. pose proof (Connect_inv w cfg d) as HI. rewrite HC in HI.
  destruct HI as (Hle & _ & c & Hc & Hh).
  assert (Hnone : heap w !! a = None).
  { destruct (heap w !! a) as [c'|] eqn:E; [|reflexivity].
    destruct (H1 _ _ E). lia. }
  split; [exact Hnone|]. split.
  - unfold IsHealthy_at. rewrite Hh, lookup_insert_eq. exact Hc.
  - intros k pc Hk Heq. destruct (H2 k pc Hk) as [c' Hc'].
    rewrite Heq, Hnone in Hc'. discriminate.
Qed.

Lemma Connect_err_not_ok (w : World) (cfg : Config) (d : DialOutcome) (e : string)
    (w' : World) :
  Connect w cfg d = (Err e, w') -> d <> DialOk.
Proof. destruct d; [discriminate | intros _; discriminate..]. Qed.

(** What [Get] does to the entry of another key, and which client it
    hands out. *)
Lemma Get_other_key (p : Pool) (w : World) (cfg : Config) (t_since t_now : Z)
    (d : DialOutcome) (k : string) (pc : PooledClient) :
  pool_inv (p, w) -> clients p !! k = Some pc -> configKey cfg <> k ->
  let '(r, p', _, _) := Get p w cfg t_since t_now d in
  clients p' !! k = Some pc /\ forall cr, r = Ok cr -> CR_Client cr <> client pc.
Proof.
  intros Hinv Hk Hne. pose proof Hinv as (H1 & H2 & H3). cbn [fst snd] in *.
  unfold Get. destruct (clients p !! configKey cfg) as [pc'|] eqn:Hk'.
  - destruct (inUse pc').
    + destruct (Connect w cfg d) as [[a|e] w'] eqn:HC.
      * split; [exact Hk|]. intros cr [= <-]. cbn.
        destruct (Connect_fresh _ _ _ _ _ _ Hinv HC) as (_ & _ & Hf).
        intros Heq. apply (Hf _ _ Hk). congruence.
      * split; [exact Hk | discriminate].
    + destruct (IsHealthy_at w (client pc') && _).
      * cbn [clients]. rewrite lookup_insert_ne by exact Hne.
        split; [exact Hk|]. intros cr [= <-]. cbn. intros Heq.
        apply Hne. apply (H3 _ _ _ _ Hk' Hk Heq).
      * unfold connect_and_add.
        destruct (Connect _ cfg d) as [[a|e] w'] eqn:HC; cbn [clients].
        -- rewrite lookup_insert_ne by exact Hne.
           rewrite lookup_delete_ne by exact Hne.
           split; [exact Hk|]. intros cr [= <-]. cbn.
           assert (Hinv' : inv (clients p)
                             (heap (snd (Close_at w (client pc') None None)))
                             (fresh (snd (Close_at w (client pc') None None)))).
           { destruct (Close_at_heap w (client pc') None None) as [-> ->]. exact Hinv. }
           destruct (Connect_fresh _ _ _ _ _ _ Hinv' HC) as (_ & _ & Hf).
           intros Heq. apply (Hf _ _ Hk). congruence.
        -- rewrite lookup_delete_ne by exact Hne. split; [exact Hk | discriminate].
  - unfold connect_and_add.
    destruct (Connect w cfg d) as [[a|e] w'] eqn:HC; cbn [clients].
    + rewrite lookup_insert_ne by exact Hne.
      split; [exact Hk|]. intros cr [= <-]. cbn.
      destruct (Connect_fresh _ _ _ _ _ _ Hinv HC) as (_ & _ & Hf).
      intros Heq. apply (Hf _ _ Hk). congruence.
    + split; [exact Hk | discriminate].
Qed.

(** [Get] for the key of an entry that is in use. *)
Lemma Get_in_use (p : Pool) (w : World) (cfg : Config) (t_since t_now : Z)
    (d : DialOutcome) (pc : PooledClient) :
  pool_inv (p, w) -> clients p !! configKey cfg = Some pc -> inUse pc = true ->
  let '(r, p', w', _) := Get p w cfg t_since t_now d in
  p' = p /\
  match r with
  | Ok cr =>
      IsPooled cr = false /\ CR_Client cr <> client pc /\
      heap w !! CR_Client cr = None /\ IsHealthy_at w' (CR_Client cr) = true
  | Err _ => d <> DialOk
  end.
Proof.
  intros Hinv Hk Hu. unfold Get. rewrite Hk, Hu.
  destruct (Connect w cfg d) as [[a|e] w'] eqn:HC.
  - destruct (Connect_fresh _ _ _ _ _ _ Hinv HC) as (Hn & Hh & Hf).
    split; [reflexivity|]. cbn. repeat split; try assumption.
    intros Heq. apply (Hf _ _ Hk). congruence.
  - split; [reflexivity|]. eapply Connect_err_not_ok; eauto.
Qed.

(** The handles of the store stay apart, whatever the program does. *)
Lemma Connect_handles (w : World) (cfg : Config) (d : DialOutcome) :
  handles_inv w -> handles_inv (snd (Connect w cfg d)).
Proof.
  intros [H1 H2]. destruct d; cbn [Connect snd].
  - assert (Hnew : forall h,
              h ∈ handles_of (mkClient (Some (fresh w)) (Some (S (fresh w)))) ->
              h = fresh w \/ h = S (fresh w)).
    { intros h Hh. unfold handles_of in Hh. cbn [conn db] in Hh.
      apply elem_of_union in Hh as [Hh|Hh]; apply elem_of_singleton in Hh; lia. }
    split; cbn [heap fresh].
    + intros a c h Ha Hh. apply lookup_insert_Some in Ha as [[<- <-]|[Hne Ha]].
      * destruct (Hnew h Hh); lia.
      * specialize (H1 a c h Ha Hh). lia.
    + intros a1 a2 c1 c2 h Ha1 Ha2 Hh1 Hh2.
      apply lookup_insert_Some in Ha1 as [[<- <-]|[Hne1 Ha1]];
        apply lookup_insert_Some in Ha2 as [[<- <-]|[Hne2 Ha2]].
      * reflexivity.
      * specialize (H1 a2 c2 h Ha2 Hh2). destruct (Hnew h Hh1); lia.
      * specialize (H1 a1 c1 h Ha1 Hh1). destruct (Hnew h Hh2); lia.
      * eapply H2; eauto.
  - split; assumption.
  - split; cbn [heap fresh].
    + intros a c h Ha Hh. specialize (H1 a c h Ha Hh). lia.
    + exact H2.
Qed.

Lemma Close_at_handles (w : World) (a : nat) (econn edb : option string) :
  handles_inv w -> handles_inv (snd (Close_at w a econn edb)).
Proof.
  unfold handles_inv. destruct (Close_at_heap w a econn edb) as [-> ->]. tauto.
Qed.

Lemma step_handles (s : Pool * World) (o : Op) :
  handles_inv (snd s) -> handles_inv (snd (step s o)).
Proof.
  destruct s as [p w]. cbn [snd]. intros H. destruct o; cbn [step fst snd].
  - unfold Get. destruct (clients p !! configKey cfg) as [pc|].
    + destruct (inUse pc).
      * pose proof (Connect_handles w cfg d H) as HC.
        destruct (Connect w cfg d) as [[a|e] w']; exact HC.
      * destruct (IsHealthy_at w (client pc) && _); [exact H|].
        unfold connect_and_add.
        pose proof (Connect_handles _ cfg d (Close_at_handles w (client pc) None None H))
          as HC.
        destruct (Connect _ cfg d) as [[a|e] w']; exact HC.
    + unfold connect_and_add. pose proof (Connect_handles w cfg d H) as HC.
      destruct (Connect w cfg d) as [[a|e] w']; exact HC.
  - exact H.
  - unfold Pool_Close. cbn [snd fst]. unfold handles_inv.
    destruct (fold_Close_at_heap (map snd (map_to_list (clients p))) w) as [-> ->].
    exact H.
  - apply Close_at_handles. exact H.
  - exact H.
Qed.

Lemma reachable_handles (s : Pool * World) : reachable s -> handles_inv (snd s).
Proof.
  induction 1 as [|s o _ IH]; [|apply step_handles; exact IH].
  split; cbn; intros *; rewrite lookup_empty; discriminate.
Qed.

(** [Connect] leaves a client of the store as it is, and closes none of
    its handles. *)
Lemma Connect_keeps (w : World) (cfg : Config) (d : DialOutcome) (a : nat) (c : Client) :
  heap w !! a = Some c -> (a < fresh w)%nat ->
  (forall h, h ∈ handles_of c -> (h < fresh w)%nat) ->
  heap (snd (Connect w cfg d)) !! a = Some c /\
  forall h, h ∈ handles_of c -> h ∈ closed (snd (Connect w cfg d)) -> h ∈ closed w.
Proof.
  intros Ha Hlt Hh. destruct d; cbn [Connect snd heap closed].
  - split; [rewrite lookup_insert_ne by lia; exact Ha | auto].
  - split; [exact Ha | auto].
  - split; [exact Ha|]. intros h Hin Hc.
    apply elem_of_union in Hc as [Hc|Hc]; [|exact Hc].
    apply elem_of_singleton in Hc. specialize (Hh h Hin). lia.
Qed.

(** [Get], for whatever key, leaves the client of an entry that is in use
    as it is, and closes none of its handles. *)
Lemma Get_keeps_client (p : Pool) (w : World) (cfg : Config) (t_since t_now : Z)
    (d : DialOutcome) (k : string) (pc : PooledClient) (c : Client) :
  pool_inv (p, w) -> handles_inv w ->
  clients p !! k = Some pc -> inUse pc = true -> heap w !! client pc = Some c ->
  let '(_, _, w', _) := Get p w cfg t_since t_now d in
  heap w' !! client pc = Some c /\
  forall h, h ∈ handles_of c -> h ∈ closed w' -> h ∈ closed w.
Proof.
  intros Hinv [Hh1 Hh2] Hk Hu Hc. pose proof Hinv as (H1 & H2 & H3). cbn [fst snd] in *.
  destruct (H1 _ _ Hc) as [Hlt _].
  assert (Hbound : forall h, h ∈ handles_of c -> (h < fresh w)%nat)
    by (intros h Hh; exact (Hh1 _ _ _ Hc Hh)).
  unfold Get. destruct (clients p !! configKey cfg) as [pc'|] eqn:Hk'.
  - destruct (inUse pc') eqn:Hu'.
    + pose proof (Connect_keeps w cfg d _ _ Hc Hlt Hbound) as HC.
      destruct (Connect w cfg d) as [[a|e] w']; exact HC.
    + destruct (IsHealthy_at w (client pc') && _); [split; auto|].
      assert (Hne : client pc' <> client pc).
      { intros Heq. pose proof (H3 _ _ _ _ Hk' Hk Heq) as Hkk. subst k.
        rewrite Hk in Hk'. injection Hk' as <-. congruence. }
      set (w1 := snd (Close_at w (client pc') None None)).
      assert (Hw1 : heap w1 = heap w /\ fresh w1 = fresh w)
        by (apply Close_at_heap).
      destruct Hw1 as [Hheap Hfresh].
      assert (Hcl : forall h, h ∈ handles_of c -> h ∈ closed w1 -> h ∈ closed w).
      { intros h Hin Hcl. subst w1. unfold Close_at in Hcl.
        destruct (heap w !! client pc') as [c'|] eqn:Hc'; [|exact Hcl].
        cbn in Hcl. apply elem_of_union in Hcl as [Hcl|Hcl]; [|exact Hcl].
        contradiction Hne. exact (Hh2 _ _ _ _ _ Hc' Hc Hcl Hin). }
      unfold connect_and_add.
      pose proof (Connect_keeps w1 cfg d (client pc) c) as HC.
      rewrite Hheap, Hfresh in HC. specialize (HC Hc Hlt Hbound).
      destruct (Connect w1 cfg d) as [[a|e] w']; cbn [snd] in HC;
        (split; [apply HC | intros h Hin Hc'; apply Hcl; [exact Hin | apply HC; assumption]]).
  - unfold connect_and_add.
    pose proof (Connect_keeps w cfg d _ _ Hc Hlt Hbound) as HC.
    destruct (Connect w cfg d) as [[a|e] w']; exact HC.
Qed.

(** C5.  For every reachable state of the pool and every entry whose
    in-use flag is true: a [Get] for the entry's key leaves the pool as it
    is and returns either the error of the failed dial or a non-pooled
    client that is new to the store, healthy, and not the entry's client;
    a [Get] for any key leaves the entry as it is and hands out another
    client; [Release] changes the entry only when it is called for the
    entry's key, clearing the flag and keeping the client; and a [Get] for
    any key leaves the entry's client untouched: the client is in the store
    as before, with the same two handles, and the call closes neither of
    them. *)
Theorem in_use_entry_not_reassigned (s : Pool * World) (k : string) (pc : PooledClient) :
  reachable s ->
  clients (fst s) !! k = Some pc -> inUse pc = true ->
  (forall cfg t_since t_now d, configKey cfg = k ->
     let '(r, p', w', _) := Get (fst s) (snd s) cfg t_since t_now d in
     p' = fst s /\
     match r with
     | Ok cr =>
         IsPooled cr = false /\ CR_Client cr <> client pc /\
         heap (snd s) !! CR_Client cr = None /\ IsHealthy_at w' (CR_Client cr) = true
     | Err _ => d <> DialOk
     end) /\
  (forall cfg t_since t_now d,
     let '(r, p', _, _) := Get (fst s) (snd s) cfg t_since t_now d in
     clients p' !! k = Some pc /\ forall cr, r = Ok cr -> CR_Client cr <> client pc) /\
  (forall cfg t_now,
     let p' := fst (Release (fst s) cfg t_now) in
     (configKey cfg <> k -> clients p' !! k = Some pc) /\
     (configKey cfg = k ->
      clients p' !! k = Some (mkPooled (client pc) t_now (key pc) false))) /\
  (exists c, heap (snd s) !! client pc = Some c /\ IsHealthy c = true /\
     forall cfg t_since t_now d,
       let '(_, _, w', _) := Get (fst s) (snd s) cfg t_since t_now d in
       heap w' !! client pc = Some c /\
       forall h, h ∈ handles_of c -> h ∈ closed w' -> h ∈ closed (snd s)).
Proof.
  intros Hr Hk Hu. pose proof (reachable_inv s Hr) as Hinv.
  pose proof (reachable_handles s Hr) as Hhand.
  destruct s as [p w]. cbn [fst snd] in *.
  split; [|split; [|split]].
  - intros cfg t1 t2 d <-. apply Get_in_use; assumption.
  - intros cfg t1 t2 d. destruct (decide (configKey cfg = k)) as [<-|Hne].
    + pose proof (Get_in_use p w cfg t1 t2 d pc Hinv Hk Hu) as H.
      destruct (Get p w cfg t1 t2 d) as [[[r p'] w'] tr].
      destruct H as [-> H]. split; [exact Hk|].
      intros cr ->. apply H.
    + apply Get_other_key; assumption.
  - intros cfg t. cbv zeta. unfold Release. split.
    + intros Hne. destruct (clients p !! configKey cfg); cbn [fst clients];
        [rewrite lookup_insert_ne by exact Hne|]; exact Hk.
    + intros <-. rewrite Hk. cbn [fst clients]. apply lookup_insert_eq.
  - pose proof Hinv as (H1 & H2 & _). cbn [fst snd] in *.
    destruct (H2 _ _ Hk) as [c Hc]. exists c. split; [exact Hc|].
    split; [exact (proj2 (H1 _ _ Hc))|].
    intros cfg t1 t2 d. apply (Get_keeps_client p w cfg t1 t2 d k pc c); assumption.
Qed.

End InUse.

Lemma in_use_entry_not_reassigned_witness :
  let s := flight.step flight.initial (flight.OpGet sample.config 0 0 flight.DialOk) in
  let '(r, p', _, _) := flight.Get (fst s) (snd s) sample.config 1 1 flight.DialOk in
  p' = fst s /\
  match r with
  | Ok cr =>
      flight.IsPooled cr = false /\ flight.CR_Client cr <> 2%nat /\
      flight.heap (snd s) !! flight.CR_Client cr = None /\
      flight.IsHealthy_at
        (snd (flight.step s (flight.OpGet sample.config 1 1 flight.DialOk)))
        (flight.CR_Client cr) = true
  | Err _ => flight.DialOk <> flight.DialOk
  end.
Proof.
  cbv zeta.
  pose proof (in_use_entry_not_reassigned _ (flight.configKey sample.config)
                (flight.mkPooled 2 0 (flight.configKey sample.config) true)
                (flight.reach_step _ (flight.OpGet sample.config 0 0 flight.DialOk)
                   flight.reach_init)
                eq_refl eq_refl) as [H _].
  exact (H sample.config 1%Z 1%Z flight.DialOk eq_refl).
Defined.

(* ===================================================================== *)
(** * Part III: further properties of the code                             *)
(* ===================================================================== *)

(** ** [strings.HasPrefix] and [strings.Contains] *)

Lemma HasPrefix_spec (s p : string) :
  Go.HasPrefix s p = true <-> exists post, s = p ++ post.
Proof.
  revert s. induction p as [|a p IH]; intros s.
  - split; [intros _; exists s; reflexivity | reflexivity].
  - destruct s as [|b s]; cbn [Go.HasPrefix].
    + split; [intros H; discriminate H
             | intros [post H]; rewrite append_cons in H; discriminate H].
    + destruct (Ascii.eqb a b) eqn:E.
      * apply Ascii.eqb_eq in E. subst b. rewrite IH. split.
        -- intros [post ->]. exists post. reflexivity.
        -- intros [post H]. rewrite append_cons in H. injection H as ->.
           exists post. reflexivity.
      * apply Ascii.eqb_neq in E. split; [intros H; discriminate H|].
        intros [post H]. rewrite append_cons in H. injection H as H _. congruence.
Qed.

Lemma Contains_spec (s p : string) :
  Go.Contains s p = true <-> exists pre post, s = pre ++ p ++ post.
Proof.
  induction s as [|c s IH]; cbn [Go.Contains]; rewrite orb_true_iff, HasPrefix_spec.
  - split.
    + intros [[post H]|H]; [|discriminate H]. exists "", post. exact H.
    + intros (pre & post & H). left. destruct pre as [|x pre].
      * exists post. exact H.
      * rewrite append_cons in H. discriminate H.
  - rewrite IH. split.
    + intros [[post H]|(pre & post & H)].
      * exists "", post. exact H.
      * exists (String c pre), post. rewrite append_cons, H. reflexivity.
    + intros (pre & post & H). destruct pre as [|x pre].
      * left. exists post. exact H.
      * right. rewrite append_cons in H. injection H as _ H. exists pre, post. exact H.
Qed.

(** ** Table names *)

(** X1.  A name passes [ValidateTableName] exactly when it has between 1 and 255
    bytes and none of the eight dangerous patterns occurs anywhere in it. *)
Theorem ValidateTableName_accepts_iff (name : string) :
  validation.ValidateTableName name = None <->
  (1 <= Go.len name <= 255)%Z /\
  forall pat, In pat validation.dangerousPatterns ->
    forall pre post, name <> pre ++ pat ++ post.
Proof.
  unfold validation.ValidateTableName.
  assert (Hlen : (0 <= Go.len name)%Z) by (unfold Go.len; lia).
  destruct (Z.eqb (Go.len name) 0) eqn:E0.
  { apply Z.eqb_eq in E0. split; [discriminate | intros [H _]; lia]. }
  apply Z.eqb_neq in E0.
  destruct (Z.ltb 255 (Go.len name)) eqn:E1.
  { apply Z.ltb_lt in E1. split; [discriminate | intros [H _]; lia]. }
  apply Z.ltb_ge in E1.
  destruct (existsb (Go.Contains name) validation.dangerousPatterns) eqn:E2.
  - split; [discriminate|]. intros [_ H]. exfalso.
    apply existsb_exists in E2 as (pat & Hin & Hc).
    apply Contains_spec in Hc as (pre & post & Hc). exact (H pat Hin pre post Hc).
  - split; [|reflexivity]. intros _. split; [lia|].
    intros pat Hin pre post Heq.
    assert (Hc : Go.Contains name pat = true) by (apply Contains_spec; eauto).
    assert (existsb (Go.Contains name) validation.dangerousPatterns = true)
      by (apply existsb_exists; eauto).
    congruence.
Qed.

(** ** Schema probe and rewriter *)

(** The quoted-identifier matcher stops at the quote that closes an escaped
    name, whatever follows that does not start with a quote. *)
Lemma quoted_body_escape_then (t rest : string) :
  Go.HasPrefix rest Go.DQ = false ->
  main.quoted_body (Go.ReplaceAll t Go.DQ main.DQDQ ++ Go.DQ ++ rest)
  = Some (Go.ReplaceAll t Go.DQ main.DQDQ).
Proof.
  intros Hrest. induction t as [|c t IH].
  - destruct rest as [|r rest]; [reflexivity|].
    unfold Go.DQ in Hrest. cbn [Go.HasPrefix] in Hrest.
    destruct (Ascii.eqb Go.dq r) eqn:E; [discriminate Hrest|].
    change (Go.ReplaceAll "" Go.DQ main.DQDQ) with "".
    change ("" ++ Go.DQ ++ String r rest) with (String Go.dq (String r rest)).
    cbn [main.quoted_body]. rewrite Ascii.eqb_refl.
    rewrite Ascii.eqb_sym, E. reflexivity.
  - rewrite escape_cons. destruct (Ascii.eqb c Go.dq) eqn:E.
    + rewrite !append_cons. cbn [main.quoted_body].
      rewrite Ascii.eqb_refl, IH. reflexivity.
    + rewrite append_cons. cbn [main.quoted_body]. rewrite E, IH. reflexivity.
Qed.

(** X2.  Round trip of the schema probe: for every table name, with any number
    of double quotes in it, [extractTableName] reads the name back from the
    query that [buildSchemaQuery] builds. *)
Theorem extract_buildSchemaQuery (t : string) :
  main.extractTableName (main.buildSchemaQuery t) = t.
Proof.
  unfold main.extractTableName, main.buildSchemaQuery.
  rewrite (leftmost_hit _ _ (Go.ReplaceAll t Go.DQ main.DQDQ)).
  - apply unescape_escape.
  - rewrite <- (quoted_body_escape_then t " WHERE 1=0") by reflexivity. reflexivity.
Qed.

Lemma get_append_length (s r : string) (c : ascii) :
  String.get (String.length s) (s ++ String c r) = Some c.
Proof. induction s as [|x s IH]; [reflexivity|]. rewrite append_cons. exact IH. Qed.

Lemma substring_append_length (s r : string) :
  String.substring 0 (String.length s) (s ++ r) = s.
Proof.
  induction s as [|x s IH]; [destruct r; reflexivity|].
  rewrite append_cons. cbn [String.length String.substring]. now rewrite IH.
Qed.

(** X3.  The rewriter strips exactly one pair of surrounding quotes: a name that
    the host passes between double quotes is read back as it is, also when
    the name itself begins and ends with a quote. *)
Theorem strip_quotes_quoted (s : string) : main.strip_quotes (Go.quoted s) = s.
Proof.
  unfold main.strip_quotes, Go.quoted.
  change (Go.DQ ++ s ++ Go.DQ) with (String Go.dq (s ++ String Go.dq "")).
  cbn [String.length String.get]. rewrite length_append. cbn [String.length].
  replace (String.length s + 1)%nat with (S (String.length s)) by lia.
  cbn [Nat.sub String.get Nat.leb].
  replace (String.length s - 0)%nat with (String.length s) by lia.
  rewrite get_append_length, Ascii.eqb_refl.
  cbn [andb String.substring]. apply substring_append_length.
Qed.

(** X4.  Whenever the rewriter replaces a table reference, it names the table
    function [duckarrow_query] and passes the configured URI and a query from
    which [extractTableName] reads back exactly the referenced table (after
    the one pair of quotes is stripped); the table passed validation and the
    skip filter, and the query is the one that [buildProjectedQuery] builds
    for all columns. *)
Theorem replacement_scan_rewrite
    (ShouldSkipTable : string -> bool) (g : main.DuckArrowConfig) (name : string)
    (f : string) (ps : list string) :
  main.duckarrow_replacement_scan_callback ShouldSkipTable g name = main.Rewritten f ps ->
  f = "duckarrow_query" /\
  main.uri g <> "" /\
  ShouldSkipTable (main.strip_quotes name) = false /\
  validation.ValidateTableName (main.strip_quotes name) = None /\
  ps = [main.uri g; main.buildProjectedQuery (main.strip_quotes name) []] /\
  main.extractTableName (nth 1 ps "") = main.strip_quotes name.
Proof.
  unfold main.duckarrow_replacement_scan_callback, main.GetDuckArrowURI.
  destruct (String.eqb (main.uri g) "") eqn:Eu; [discriminate|].
  apply String.eqb_neq in Eu.
  destruct (ShouldSkipTable (main.strip_quotes name)) eqn:Es; [discriminate|].
  destruct (validation.ValidateTableName (main.strip_quotes name)) eqn:Ev; [discriminate|].
  intros [= <- <-]. repeat split; try assumption.
  cbn [nth]. unfold main.extractTableName.
  rewrite (leftmost_hit _ _ (Go.ReplaceAll (main.strip_quotes name) Go.DQ main.DQDQ)).
  - apply unescape_escape.
  - rewrite <- quoted_body_escape. reflexivity.
Qed.

Lemma replacement_scan_rewrite_witness :
  main.extractTableName
    (nth 1 ["grpc://localhost:31337";
            main.buildProjectedQuery (main.strip_quotes (Go.quoted "Order")) []] "")
  = main.strip_quotes (Go.quoted "Order").
Proof.
  exact (proj2 (proj2 (proj2 (proj2 (proj2
           (replacement_scan_rewrite (fun _ => false)
              (main.mkGlobal "grpc://localhost:31337" "user" "pass" false)
              (Go.quoted "Order") _ _ eq_refl)))))).
Defined.

(** ** Validity masks *)

Lemma land_bit (w a : Z) :
  (0 <= a)%Z -> Z.eqb (Z.land w (Z.shiftl 1 a)) 0 = negb (Z.testbit w a).
Proof.
  intros Ha. rewrite Z.shiftl_1_l. destruct (Z.testbit w a) eqn:E; cbn [negb].
  - apply Z.eqb_neq. intros H. apply (f_equal (fun x => Z.testbit x a)) in H.
    rewrite Z.land_spec, E, Z.pow2_bits_true, Z.bits_0 in H by exact Ha. discriminate.
  - apply Z.eqb_eq. apply Z.bits_inj'. intros n Hn.
    rewrite Z.land_spec, Z.bits_0, Z.pow2_bits_eqb by exact Ha.
    destruct (Z.eqb a n) eqn:En; [|apply andb_false_r].
    apply Z.eqb_eq in En. subst n. rewrite E. reflexivity.
Qed.

Lemma ldiff_bit (w a k : Z) :
  (0 <= a)%Z -> (0 <= k)%Z ->
  Z.testbit (Z.ldiff w (Z.shiftl 1 a)) k = Z.testbit w k && negb (Z.eqb a k).
Proof.
  intros Ha Hk. rewrite Z.ldiff_spec, Z.shiftl_1_l, Z.pow2_bits_eqb by exact Ha.
  reflexivity.
Qed.

Lemma mask_entry_in_chunk (i cs : Z) :
  (0 <= i < cs)%Z -> (cs <= main.maxDuckDBChunkSize)%Z ->
  main.mask_entry i cs = Some (i / 64)%Z.
Proof.
  unfold main.mask_entry, main.maxDuckDBChunkSize. intros Hi Hcs.
  destruct (Z.leb cs i) eqn:E1; [apply Z.leb_le in E1; lia|].
  destruct (Z.leb 2048 i) eqn:E2; [apply Z.leb_le in E2; lia|].
  cbn [orb]. rewrite (Z.mod_small (cs + 63)) by lia.
  destruct (Z.leb ((cs + 63) / 64) (i / 64)) eqn:E3; [|reflexivity].
  apply Z.leb_le in E3. exfalso.
  assert (i / 64 < (cs + 63) / 64)%Z; [|lia].
  apply Z.div_lt_upper_bound; [lia|].
  pose proof (Z.mul_div_le (cs + 63) 64 ltac:(lia)).
  pose proof (Z.mod_pos_bound (cs + 63) 64 ltac:(lia)).
  pose proof (Z.div_mod (cs + 63) 64 ltac:(lia)). lia.
Qed.

Lemma mask_entry_Some (j cs e : Z) :
  (0 <= j)%Z -> main.mask_entry j cs = Some e -> e = (j / 64)%Z /\ (0 <= e)%Z.
Proof.
  unfold main.mask_entry. intros Hj.
  destruct (_ || _); [discriminate|].
  destruct (Z.leb _ _); [discriminate|]. intros [= <-].
  split; [reflexivity | apply Z.div_pos; lia].
Qed.

(** X5.  The two mask functions agree: inside the chunk, [setRowInvalid] makes
    [rowIsValid] false for its row and leaves the answer for every other row
    as it was; for a row outside the chunk (or beyond 2048) [setRowInvalid]
    leaves the mask alone and [rowIsValid] is false. *)
Theorem setRowInvalid_rowIsValid (mask : list Z) (i cs : Z) :
  (0 <= i)%Z -> (0 <= cs <= main.maxDuckDBChunkSize)%Z ->
  ((cs + 63) / 64 <= Z.of_nat (length mask))%Z ->
  let mask' := main.setRowInvalid (Some mask) i cs in
  main.rowIsValid mask' i cs = false /\
  (forall j, (0 <= j)%Z -> j <> i ->
     main.rowIsValid mask' j cs = main.rowIsValid (Some mask) j cs) /\
  ((cs <= i)%Z -> mask' = Some mask).
Proof.
  intros Hi Hcs Hlen. cbv zeta. unfold main.setRowInvalid.
  destruct (Z.leb cs i) eqn:Ein.
  - (* outside the chunk *)
    assert (Hnone : main.mask_entry i cs = None)
      by (unfold main.mask_entry; rewrite Ein; reflexivity).
    rewrite Hnone. unfold main.rowIsValid at 1. rewrite Hnone.
    split; [reflexivity|]. split; [reflexivity|]. reflexivity.
  - apply Z.leb_gt in Ein.
    rewrite (mask_entry_in_chunk i cs) by lia.
    assert (He : (0 <= i / 64)%Z) by (apply Z.div_pos; lia).
    assert (Hlt : (Z.to_nat (i / 64) < length mask)%nat).
    { assert (i / 64 < (cs + 63) / 64)%Z; [|lia].
      pose proof (mask_entry_in_chunk i cs ltac:(lia) ltac:(lia)) as H.
      unfold main.mask_entry in H.
      destruct (_ || _); [discriminate|].
      rewrite (Z.mod_small (cs + 63)) in H by (unfold main.maxDuckDBChunkSize in *; lia).
      destruct (Z.leb ((cs + 63) / 64) (i / 64)) eqn:E; [discriminate|].
      apply Z.leb_gt in E. exact E. }
    assert (Hm : (0 <= i mod 64)%Z) by (apply Z.mod_pos_bound; lia).
    split; [|split; [|lia]].
    + unfold main.rowIsValid. rewrite (mask_entry_in_chunk i cs) by lia.
      unfold main.word at 1. rewrite list_lookup_insert_eq by exact Hlt.
      rewrite land_bit, ldiff_bit, Z.eqb_refl by lia.
      rewrite andb_false_r. reflexivity.
    + intros j Hj Hne. unfold main.rowIsValid.
      destruct (main.mask_entry j cs) as [e|] eqn:Ej; [|reflexivity].
      destruct (mask_entry_Some _ _ _ Hj Ej) as [-> He'].
      assert (Hmj : (0 <= j mod 64)%Z) by (apply Z.mod_pos_bound; lia).
      rewrite !land_bit by lia. f_equal.
      destruct (Z.eq_dec (j / 64) (i / 64)) as [Heq|Hneq].
      * unfold main.word. rewrite Heq, list_lookup_insert_eq by exact Hlt.
        destruct (mask !! Z.to_nat (i / 64)) as [w|] eqn:Ew.
        -- rewrite ldiff_bit by lia.
           destruct (Z.eqb (i mod 64) (j mod 64)) eqn:Em;
             [|cbn [negb]; rewrite andb_true_r; reflexivity].
           apply Z.eqb_eq in Em. exfalso. apply Hne.
           rewrite (Z.div_mod j 64), (Z.div_mod i 64) by lia. lia.
        -- apply lookup_ge_None in Ew. lia.
      * unfold main.word. rewrite list_lookup_insert_ne by lia. reflexivity.
Qed.

Lemma setRowInvalid_rowIsValid_witness :
  main.rowIsValid (main.setRowInvalid (Some [18446744073709551615; 3]%Z) 65 66) 65 66 = false /\
  main.rowIsValid (main.setRowInvalid (Some [18446744073709551615; 3]%Z) 65 66) 64 66
  = main.rowIsValid (Some [18446744073709551615; 3]%Z) 64 66.
Proof.
  destruct (setRowInvalid_rowIsValid [18446744073709551615; 3]%Z 65 66
              ltac:(lia) ltac:(unfold main.maxDuckDBChunkSize; lia)
              ltac:(vm_compute; discriminate)) as (H1 & H2 & _).
  split; [exact H1 | exact (H2 64%Z ltac:(lia) ltac:(lia))].
Defined.

(** ** URIs and the process-wide configuration *)

Lemma substring_skip_prefix (p r : string) :
  String.substring (String.length p) (String.length (p ++ r) - String.length p) (p ++ r) = r.
Proof.
  induction p as [|x p IH].
  - change ("" ++ r) with r. cbn [String.length].
    replace (String.length r - 0)%nat with (String.length r) by lia.
    induction r as [|c r IH]; [reflexivity|].
    cbn [String.length String.substring]. now rewrite IH.
  - rewrite append_cons. cbn [String.length String.substring Nat.sub]. exact IH.
Qed.

Lemma HasPrefix_trim (p t : string) :
  Go.HasPrefix t p = true -> t = p ++ validation.trim_prefix p t.
Proof.
  intros H. apply HasPrefix_spec in H as [post ->].
  unfold validation.trim_prefix. now rewrite substring_skip_prefix.
Qed.

(** X6.  Every URI that [ValidateURI] accepts is, once trimmed, non-empty, at
    most 2048 bytes long, and made of one of the two schemes followed by a
    non-empty rest in which the URL parser finds a non-empty host. *)
Theorem ValidateURI_accepts (lib : validation.Lib) (u : string) :
  validation.ValidateURI lib u = None ->
  let t := validation.TrimSpace lib u in
  t <> "" /\ (Go.len t <= 2048)%Z /\
  exists scheme rest host,
    (scheme = "grpc+tls://" \/ scheme = "grpc://") /\
    t = scheme ++ rest /\ rest <> "" /\
    validation.url_Parse_Host lib ("http://" ++ rest) = Ok host /\ host <> "".
Proof.
  unfold validation.ValidateURI. cbv zeta.
  destruct (String.eqb (validation.TrimSpace lib u) "") eqn:E0; [discriminate|].
  apply String.eqb_neq in E0.
  destruct (Z.ltb 2048 (Go.len (validation.TrimSpace lib u))) eqn:E1; [discriminate|].
  apply Z.ltb_ge in E1.
  assert (Hgen : forall scheme,
             (scheme = "grpc+tls://" \/ scheme = "grpc://") ->
             Go.HasPrefix (validation.TrimSpace lib u) scheme = true ->
             (if String.eqb (validation.trim_prefix scheme (validation.TrimSpace lib u)) ""
              then Some "URI must include a host"
              else match validation.url_Parse_Host lib
                           ("http://" ++ validation.trim_prefix scheme
                                            (validation.TrimSpace lib u)) with
                   | Ok host => if String.eqb host "" then Some "URI must include a valid host"
                                else None
                   | Err e => Some ("invalid URI format: " ++ e)
                   end) = None ->
             validation.TrimSpace lib u <> "" /\
             (Go.len (validation.TrimSpace lib u) <= 2048)%Z /\
             exists scheme rest host,
               (scheme = "grpc+tls://" \/ scheme = "grpc://") /\
               validation.TrimSpace lib u = scheme ++ rest /\ rest <> "" /\
               validation.url_Parse_Host lib ("http://" ++ rest) = Ok host /\ host <> "").
  { intros scheme Hs Hp H.
    destruct (String.eqb (validation.trim_prefix scheme _) "") eqn:E2; [discriminate|].
    apply String.eqb_neq in E2.
    destruct (validation.url_Parse_Host lib _) as [host|e] eqn:E3; [|discriminate].
    destruct (String.eqb host "") eqn:E4; [discriminate|]. apply String.eqb_neq in E4.
    split; [exact E0|]. split; [exact E1|].
    exists scheme, (validation.trim_prefix scheme (validation.TrimSpace lib u)), host.
    repeat split; try assumption. apply HasPrefix_trim. exact Hp. }
  destruct (Go.HasPrefix (validation.TrimSpace lib u) "grpc+tls://") eqn:Ea.
  - apply Hgen; [left; reflexivity | exact Ea].
  - destruct (Go.HasPrefix (validation.TrimSpace lib u) "grpc://") eqn:Eb; [|discriminate].
    apply Hgen; [right; reflexivity | exact Eb].
Qed.

Lemma ValidateURI_accepts_witness :
  exists scheme rest host,
    (scheme = "grpc+tls://" \/ scheme = "grpc://") /\
    "grpc://localhost:31337" = scheme ++ rest /\ rest <> "" /\
    (Ok "localhost:31337" : result string) = Ok host /\ host <> "".
Proof.
  exact (proj2 (proj2 (ValidateURI_accepts
           (validation.mkLib (fun s => s) (fun _ => Ok "localhost:31337"))
           "grpc://localhost:31337" eq_refl))).
Defined.

(** What a call of [duckarrow_configure] leaves in the process-wide
    configuration: either what was there, or the URI of one of the call's
    rows, which [ValidateURI] accepted, with that row's username, password and
    skip-verify flag (empty and false where they are NULL or missing). *)
Lemma configure_rows_stores (lib : validation.Lib) (env : main.Environ)
    (rows : list main.ConfigureRow) (g : main.DuckArrowConfig) :
  let g' := fst (main.configure_rows lib env g rows) in
  g' = g \/
  exists r u, In r rows /\ main.arg_uri r = Some u /\
    validation.ValidateURI lib u = None /\
    g' = main.mkGlobal u
           (match main.arg_username r with Some s => s | None => "" end)
           (match main.arg_password r with Some s => s | None => "" end)
           (match main.arg_skip r with Some (Some b) => b | _ => false end).
Proof.
  cbv zeta. revert g. induction rows as [|r rows IH]; intros g; [left; reflexivity|].
  cbn [main.configure_rows].
  destruct (main.arg_uri r) as [u|] eqn:Eu.
  - destruct (validation.ValidateURI lib u) eqn:Ev; [left; reflexivity|].
    specialize (IH (main.SetDuckArrowConfig u
                      (match main.arg_username r with Some s => s | None => "" end)
                      (match main.arg_password r with Some s => s | None => "" end)
                      (match main.arg_skip r with Some (Some b) => b | _ => false end))).
    destruct (main.configure_rows lib env _ rows) as [g' res]. cbn [fst] in *.
    right. destruct IH as [->|(r' & u' & Hin & H)].
    + exists r, u. split; [left; reflexivity|]. repeat split; assumption.
    + exists r', u'. split; [right; exact Hin | exact H].
  - specialize (IH g). destruct (main.configure_rows lib env g rows) as [g' res].
    cbn [fst] in *. destruct IH as [->|(r' & u' & Hin & H)]; [left; reflexivity|].
    right. exists r', u'. split; [right; exact Hin | exact H].
Qed.

(** X7.  The stored URI is always one that [ValidateURI] accepted: if the
    configuration holds no URI or an accepted one before a call of
    [duckarrow_configure], so it does afterwards, whatever the rows are. *)
Theorem configure_keeps_uri_valid (lib : validation.Lib) (env : main.Environ)
    (g : main.DuckArrowConfig) (rows : list main.ConfigureRow) :
  (main.uri g = "" \/ validation.ValidateURI lib (main.uri g) = None) ->
  let g' := fst (main.duckarrow_configure_callback lib env g rows) in
  main.uri g' = "" \/ validation.ValidateURI lib (main.uri g') = None.
Proof.
  intros Hg. cbv zeta. unfold main.duckarrow_configure_callback.
  destruct (Z.ltb _ _); [exact Hg|].
  destruct (configure_rows_stores lib env rows g) as [->|(r & u & _ & _ & Hv & ->)];
    [exact Hg | right; exact Hv].
Qed.

Lemma configure_keeps_uri_valid_witness :
  let lib := validation.mkLib (fun s => s) (fun _ => Ok "localhost:31337") in
  let g' := fst (main.duckarrow_configure_callback lib (fun _ => "") main.duckArrowConfig0
                   [main.mkRow None None None None;
                    main.mkRow (Some "grpc://localhost:31337") (Some "u") None None;
                    main.mkRow (Some "http://x") None None None]) in
  main.uri g' = "" \/ validation.ValidateURI lib (main.uri g') = None.
Proof.
  exact (configure_keeps_uri_valid
           (validation.mkLib (fun s => s) (fun _ => Ok "localhost:31337"))
           (fun _ => "") main.duckArrowConfig0 _ (or_introl eq_refl)).
Defined.

(** ** [duckarrow_execute]: what reaches the server, and the connection *)

Lemma execute_rows_sends_valid (rows : list (option string * flight.StmtOutcome Z))
    (sql : string) :
  In sql (main.remote_sql (snd (main.execute_rows rows))) ->
  (exists o, In (Some sql, o) rows) /\
  sql <> "" /\ (Go.len sql <= main.maxSQLLength)%Z /\ main.has_nul sql = false.
Proof.
  induction rows as [|[[s|] o] rows IH]; cbn [main.execute_rows].
  - intros [].
  - destruct (String.eqb s "") eqn:E0; [intros []|].
    destruct (Z.ltb main.maxSQLLength (Go.len s)) eqn:E1; [intros []|].
    destruct (main.has_nul s) eqn:E2; [intros []|].
    assert (Hlog : main.remote_sql (snd (flight.Execute s o)) = [s]) by reflexivity.
    destruct (flight.Execute s o) as [[affected|e] log]; cbn [snd] in Hlog.
    + destruct (main.execute_rows rows) as [res log']. cbn [snd] in *.
      unfold main.remote_sql in *. rewrite flat_map_app, Hlog.
      intros [[<-|[]]|H]%in_app_or.
      * apply String.eqb_neq in E0. apply Z.ltb_ge in E1.
        split; [exists o; left; reflexivity|]. repeat split; assumption.
      * destruct (IH H) as ([o' Ho'] & H'). split; [exists o'; right; exact Ho' | exact H'].
    + cbn [snd]. rewrite Hlog. intros [<-|[]].
      apply String.eqb_neq in E0. apply Z.ltb_ge in E1.
      split; [exists o; left; reflexivity|]. repeat split; assumption.
  - destruct (main.execute_rows rows) as [res log']. cbn [snd] in *.
    intros H. destruct (IH H) as ([o' Ho'] & H').
    split; [exists o'; right; exact Ho' | exact H'].
Qed.

(** X8.  [duckarrow_execute] never sends an invalid statement: every SQL text
    that reaches the remote server is the text of one of the call's rows, is
    not empty, is at most 1 MiB long and holds no NUL byte. *)
Theorem execute_sends_only_valid_sql
    (g : main.DuckArrowConfig) (s : flight.Pool * flight.World)
    (rows : list (option string * flight.StmtOutcome Z))
    (t_since t_now t_release : Z) (d : flight.DialOutcome) (sql : string) :
  In sql (main.remote_sql
            (snd (main.duckarrow_execute_callback g s rows t_since t_now t_release d))) ->
  (exists o, In (Some sql, o) rows) /\
  sql <> "" /\ (Go.len sql <= main.maxSQLLength)%Z /\ main.has_nul sql = false.
Proof.
  unfold main.duckarrow_execute_callback.
  destruct rows as [|row rows]; [intros []|].
  destruct (Z.ltb _ _); [intros []|].
  cbn [main.GetDuckArrowConfig].
  destruct (String.eqb (main.uri g) ""); [intros []|].
  destruct (flight.Get _ _ _ _ _ _) as [[[[cr|e] p1] w1] tr]; [|intros []].
  pose proof (execute_rows_sends_valid (row :: rows) sql) as H.
  destruct (main.execute_rows (row :: rows)) as [res log]. exact H.
Qed.

Lemma execute_sends_only_valid_sql_witness :
  (exists o, In (Some "DELETE FROM t", o)
               [(Some "DELETE FROM t", flight.Executed 3%Z);
                (Some "", flight.Executed 0%Z)]) /\
  "DELETE FROM t" <> "" /\ (Go.len "DELETE FROM t" <= main.maxSQLLength)%Z /\
  main.has_nul "DELETE FROM t" = false.
Proof.
  exact (execute_sends_only_valid_sql
           (main.mkGlobal "grpc://localhost:31337" "user" "pass" false) flight.initial
           [(Some "DELETE FROM t", flight.Executed 3%Z); (Some "", flight.Executed 0%Z)]
           0 0 0 flight.DialOk "DELETE FROM t" (or_introl eq_refl)).
Defined.

(** The entries that a [Get] leaves in use were in use before, except the
    entry of the key it was called for when it hands that entry out. *)
Lemma Get_in_use_after (p : flight.Pool) (w : flight.World) (cfg : flight.Config)
    (t_since t_now : Z) (d : flight.DialOutcome) (k : string) (pc : flight.PooledClient) :
  let '(r, p', _, _) := flight.Get p w cfg t_since t_now d in
  flight.clients p' !! k = Some pc -> flight.inUse pc = true ->
  flight.clients p !! k = Some pc \/
  (k = flight.configKey cfg /\ exists cr, r = Ok cr /\ flight.IsPooled cr = true).
Proof.
  unfold flight.Get.
  destruct (flight.clients p !! flight.configKey cfg) as [pc0|] eqn:Hk.
  - destruct (flight.inUse pc0) eqn:Hu.
    + destruct (flight.Connect w cfg d) as [[a|e] w']; intros H _; left; exact H.
    + destruct (flight.IsHealthy_at w (flight.client pc0) && _).
      * cbn [flight.clients]. intros H Hin. rewrite lookup_insert in H.
        case_decide; [right; split; [congruence | eauto] | left; exact H].
      * unfold flight.connect_and_add.
        destruct (flight.Connect _ cfg d) as [[a|e] w']; cbn [flight.clients];
          intros H Hin.
        -- rewrite lookup_insert in H.
           case_decide; [right; split; [congruence | eauto]|].
           rewrite lookup_delete_ne in H by assumption. left; exact H.
        -- apply lookup_delete_Some in H as [_ H]. left; exact H.
  - unfold flight.connect_and_add.
    destruct (flight.Connect w cfg d) as [[a|e] w']; cbn [flight.clients]; intros H Hin.
    + rewrite lookup_insert in H.
      case_decide; [right; split; [congruence | eauto] | left; exact H].
    + left; exact H.
Qed.

(** A client that is in the store after [Get] and was not there before is
    the one that [Get] hands out; when it is handed out as pooled, it is the
    client of the entry of the key. *)
Lemma Get_new_client (p : flight.Pool) (w : flight.World) (cfg : flight.Config)
    (t_since t_now : Z) (d : flight.DialOutcome) (a : nat) (c : flight.Client) :
  let '(r, p1, w1, _) := flight.Get p w cfg t_since t_now d in
  flight.heap w1 !! a = Some c -> flight.heap w !! a = None ->
  exists cr, r = Ok cr /\ flight.CR_Client cr = a /\
    (flight.IsPooled cr = true ->
     exists pc, flight.clients p1 !! flight.configKey cfg = Some pc /\
                flight.client pc = a).
Proof.
  assert (HC : forall w0, flight.heap w0 = flight.heap w ->
            match flight.Connect w0 cfg d with
            | (Ok ptr, w') =>
                flight.heap w' !! a = Some c -> flight.heap w !! a = None -> ptr = a
            | (Err _, w') =>
                flight.heap w' !! a = Some c -> flight.heap w !! a = None -> False
            end).
  { intros w0 Hw0. destruct d; cbn [flight.Connect flight.heap]; rewrite Hw0.
    - intros H Hn. apply lookup_insert_Some in H as [[<- _]|[_ H]]; [reflexivity|].
      rewrite H in Hn. discriminate.
    - intros H Hn. rewrite H in Hn. discriminate.
    - intros H Hn. rewrite H in Hn. discriminate. }
  unfold flight.Get.
  destruct (flight.clients p !! flight.configKey cfg) as [pc0|] eqn:Hk.
  - destruct (flight.inUse pc0) eqn:Hu.
    + specialize (HC w eq_refl).
      destruct (flight.Connect w cfg d) as [[ptr|e] w']; intros H Hn.
      * exists (flight.mkResult ptr false). split; [reflexivity|].
        split; [exact (HC H Hn) | discriminate].
      * destruct (HC H Hn).
    + destruct (flight.IsHealthy_at w (flight.client pc0) && _).
      * intros H Hn. rewrite H in Hn. discriminate.
      * unfold flight.connect_and_add.
        specialize (HC (snd (flight.Close_at w (flight.client pc0) None None))
                       (proj1 (Close_at_heap w _ None None))).
        destruct (flight.Connect _ cfg d) as [[ptr|e] w']; intros H Hn.
        -- exists (flight.mkResult ptr true). split; [reflexivity|].
           split; [exact (HC H Hn)|]. intros _. eexists.
           cbn [flight.clients]. split; [apply lookup_insert_eq|]. exact (HC H Hn).
        -- destruct (HC H Hn).
  - unfold flight.connect_and_add. specialize (HC w eq_refl).
    destruct (flight.Connect w cfg d) as [[ptr|e] w']; intros H Hn.
    + exists (flight.mkResult ptr true). split; [reflexivity|].
      split; [exact (HC H Hn)|]. intros _. eexists.
      cbn [flight.clients]. split; [apply lookup_insert_eq|]. exact (HC H Hn).
    + destruct (HC H Hn).
Qed.

(** A connection that [Get] handed out and that is given back leaves no
    pool entry in use that was not in use before; and a client that the
    call has added to the store is the client of a pool entry, or both its
    handles are closed. *)
Lemma Get_give_back (p : flight.Pool) (w : flight.World) (cfg : flight.Config)
    (t_since t_now t_release : Z) (d : flight.DialOutcome)
    (cr : flight.ConnectionResult) (p1 : flight.Pool) (w1 : flight.World)
    (tr : list flight.Event) :
  flight.Get p w cfg t_since t_now d = (Ok cr, p1, w1, tr) ->
  let s2 := main.give_back (p1, w1) (flight.IsPooled cr) cfg (flight.CR_Client cr)
                           t_release in
  (forall k pc, flight.clients (fst s2) !! k = Some pc -> flight.inUse pc = true ->
                flight.clients p !! k = Some pc) /\
  (forall a c, flight.heap (snd s2) !! a = Some c -> flight.heap w !! a = None ->
     (exists k pc, flight.clients (fst s2) !! k = Some pc /\ flight.client pc = a) \/
     flight.handles_of c ⊆ flight.closed (snd s2)).
Proof.
  intros HGet. cbv zeta. split.
  - intros k pc.
    pose proof (Get_in_use_after p w cfg t_since t_now d k pc) as HG. rewrite HGet in HG.
    unfold main.give_back. destruct (flight.IsPooled cr) eqn:Ep; cbn [fst snd].
    + unfold flight.Release.
      destruct (flight.clients p1 !! flight.configKey cfg) as [pc1|] eqn:E1;
        cbn [fst flight.clients]; intros H Hin.
      * rewrite lookup_insert in H. case_decide.
        -- injection H as <-. discriminate Hin.
        -- destruct (HG H Hin) as [H'|[Hk _]]; [exact H' | congruence].
      * destruct (HG H Hin) as [H'|[Hk _]]; [exact H' | congruence].
    + intros H Hin. destruct (HG H Hin) as [H'|(_ & cr' & [= <-] & Hp)];
        [exact H' | congruence].
  - intros a c.
    pose proof (Get_new_client p w cfg t_since t_now d a) as HN. rewrite HGet in HN.
    unfold main.give_back. destruct (flight.IsPooled cr) eqn:Ep; cbn [fst snd].
    + intros H Hn. destruct (HN c H Hn) as (cr' & [= <-] & Ha & Hpool).
      destruct (Hpool Ep) as (pc & Hpc & Hcl). left.
      unfold flight.Release. rewrite Hpc. cbn [fst flight.clients].
      eexists _, _. split; [apply lookup_insert_eq | exact Hcl].
    + intros H Hn. right.
      destruct (Close_at_heap w1 (flight.CR_Client cr) None None) as [Hh _].
      rewrite Hh in H. destruct (HN c H Hn) as (cr' & [= <-] & Ha & _).
      unfold flight.Close_at. rewrite Ha, H. cbn. apply union_subseteq_l.
Qed.

(** X9.  [duckarrow_execute] does not keep a connection: every pool entry
    that is in use when the call returns was in use, with the same client,
    when it began; and every client that the call has added to the store is
    either the client of a pool entry or has both its handles closed, so a
    connection that did not come from the pool is closed.  This holds on
    success, on a validation error and on a remote error alike. *)
Theorem execute_returns_connection
    (g : main.DuckArrowConfig) (s : flight.Pool * flight.World)
    (rows : list (option string * flight.StmtOutcome Z))
    (t_since t_now t_release : Z) (d : flight.DialOutcome) :
  let s' := snd (fst (main.duckarrow_execute_callback g s rows t_since t_now t_release d)) in
  (forall k pc, flight.clients (fst s') !! k = Some pc -> flight.inUse pc = true ->
                flight.clients (fst s) !! k = Some pc) /\
  (forall a c, flight.heap (snd s') !! a = Some c -> flight.heap (snd s) !! a = None ->
     (exists k pc, flight.clients (fst s') !! k = Some pc /\ flight.client pc = a) \/
     flight.handles_of c ⊆ flight.closed (snd s')).
Proof.
  assert (Hsame : (forall k pc, flight.clients (fst s) !! k = Some pc ->
                     flight.inUse pc = true -> flight.clients (fst s) !! k = Some pc) /\
                  (forall a c, flight.heap (snd s) !! a = Some c ->
                     flight.heap (snd s) !! a = None ->
                     (exists k pc, flight.clients (fst s) !! k = Some pc /\
                                   flight.client pc = a) \/
                     flight.handles_of c ⊆ flight.closed (snd s))).
  { split; [intros k pc H _; exact H|]. intros a c H Hn. rewrite H in Hn. discriminate. }
  unfold main.duckarrow_execute_callback.
  destruct rows as [|row rows]; [exact Hsame|].
  destruct (Z.ltb _ _); [exact Hsame|].
  cbn [main.GetDuckArrowConfig].
  destruct (String.eqb (main.uri g) ""); [exact Hsame|].
  set (cfg := flight.mkConfig _ _ _ _).
  destruct (flight.Get _ _ _ _ _ _) as [[[[cr|e] p1] w1] tr] eqn:HGet.
  - destruct (main.execute_rows (row :: rows)) as [res log]. cbn [fst snd].
    exact (Get_give_back _ _ _ _ _ t_release _ _ _ _ _ HGet).
  - cbn [fst snd]. split.
    + intros k pc H Hin.
      pose proof (Get_in_use_after (fst s) (snd s) cfg t_since t_now d k pc) as HG.
      rewrite HGet in HG.
      destruct (HG H Hin) as [H'|(_ & cr' & Hcr & _)]; [exact H' | discriminate Hcr].
    + intros a c H Hn.
      pose proof (Get_new_client (fst s) (snd s) cfg t_since t_now d a c) as HN.
      rewrite HGet in HN. destruct (HN H Hn) as (cr' & Hcr & _). discriminate Hcr.
Qed.

Lemma execute_returns_connection_witness :
  let s := flight.step flight.initial (flight.OpGet sample.config 0 0 flight.DialOk) in
  flight.clients (fst s) !! flight.configKey sample.config
  = Some (flight.mkPooled 2 0 (flight.configKey sample.config) true).
Proof.
  intros s.
  destruct (execute_returns_connection
              (main.mkGlobal "grpc://localhost:31337" "user" "pass" false) s
              [(Some "DELETE FROM t", flight.Executed 3%Z)] 1 1 2 flight.DialOk)
    as [H _].
  apply (H (flight.configKey sample.config)
           (flight.mkPooled 2 0 (flight.configKey sample.config) true)).
  - vm_compute. reflexivity.
  - reflexivity.
Defined.

(** ** The pool: reuse, eviction, close *)

Section PoolLifecycle.

Import flight.

(** The entry behind a pooled result. *)
Lemma Get_pooled_entry (p : Pool) (w : World) (cfg : Config) (t_since t_now : Z)
    (d : DialOutcome) (cr : ConnectionResult) (p1 : Pool) (w1 : World) (tr : list Event) :
  Get p w cfg t_since t_now d = (Ok cr, p1, w1, tr) -> IsPooled cr = true ->
  maxIdle p1 = maxIdle p /\
  exists pc, clients p1 !! configKey cfg = Some pc /\
             client pc = CR_Client cr /\ inUse pc = true /\ lastUsed pc = t_now.
Proof.
  unfold Get. destruct (clients p !! configKey cfg) as [pc0|] eqn:Hk.
  - destruct (inUse pc0).
    + destruct (Connect w cfg d) as [[a|e] w']; intros [= <- <- <- <-]; discriminate.
    + destruct (IsHealthy_at w (client pc0) && _).
      * intros [= <- <- <- <-] _. split; [reflexivity|].
        eexists. split; [apply lookup_insert_eq|]. repeat split.
      * unfold connect_and_add. destruct (Connect _ cfg d) as [[a|e] w'];
          intros [= <- <- <- <-] _. split; [reflexivity|].
        eexists. split; [apply lookup_insert_eq|]. repeat split.
  - unfold connect_and_add. destruct (Connect w cfg d) as [[a|e] w'];
      intros [= <- <- <- <-] _. split; [reflexivity|].
    eexists. split; [apply lookup_insert_eq|]. repeat split.
Qed.

(** X10.  Pool reuse: after a [Get] that returned a pooled client and the
    [Release] of it, a [Get] for the same config that comes before the entry
    is [maxIdle] old hands out the same client, pooled, without dialling and
    without touching the store. *)
Theorem pool_reuse (s : Pool * World) (cfg : Config) (t_since t_now : Z) (d : DialOutcome)
    (cr : ConnectionResult) (p1 : Pool) (w1 : World) (tr : list Event)
    (t_release t_since' t_now' : Z) (d' : DialOutcome) :
  reachable s ->
  Get (fst s) (snd s) cfg t_since t_now d = (Ok cr, p1, w1, tr) ->
  IsPooled cr = true ->
  (t_since' - t_release < maxIdle (fst s))%Z ->
  let '(r2, p2, w2, tr2) :=
    Get (fst (Release p1 cfg t_release)) w1 cfg t_since' t_now' d' in
  r2 = Ok cr /\ w2 = w1 /\ tr2 = [EvLock; EvUnlock] /\
  exists pc, clients p2 !! configKey cfg = Some pc /\
             client pc = CR_Client cr /\ inUse pc = true.
Proof.
  intros Hr HG Hp Ht.
  pose proof (Get_inv (fst s) (snd s) cfg t_since t_now d) as Hinv.
  rewrite HG in Hinv.
  assert (Hs : pool_inv (fst s, snd s)) by (destruct s; apply reachable_inv; exact Hr).
  specialize (Hinv Hs). destruct Hinv as (H1 & H2 & _). cbn [fst snd] in H1, H2.
  destruct (Get_pooled_entry _ _ _ _ _ _ _ _ _ _ HG Hp) as (Hm & pc & Hk & Hc & Hu & _).
  unfold Release. rewrite Hk. cbn [fst]. unfold Get. cbn [clients maxIdle].
  rewrite lookup_insert_eq. cbn [inUse client lastUsed].
  destruct (H2 _ _ Hk) as [c Hc'].
  assert (Hh : IsHealthy_at w1 (client pc) = true).
  { unfold IsHealthy_at. rewrite Hc'. apply (H1 _ _ Hc'). }
  rewrite Hh, Hm. cbn [andb].
  destruct (Z.ltb (t_since' - t_release) (maxIdle (fst s))) eqn:E;
    [|apply Z.ltb_ge in E; lia].
  split; [destruct cr; cbn in *; congruence|]. split; [reflexivity|].
  split; [reflexivity|].
  eexists. split; [apply lookup_insert_eq|]. split; [exact Hc | reflexivity].
Qed.

(** X11.  Staleness eviction: a [Get] that finds its entry idle for [maxIdle] or
    longer closes both handles of the entry's client and dials; on success
    the entry is replaced by a new client, handed out as pooled, and on
    failure the entry is gone and the error of the dial is returned. *)
Theorem pool_evicts_stale (s : Pool * World) (cfg : Config) (pc : PooledClient)
    (c : Client) (t_since t_now : Z) (d : DialOutcome) :
  reachable s ->
  clients (fst s) !! configKey cfg = Some pc -> inUse pc = false ->
  heap (snd s) !! client pc = Some c ->
  (maxIdle (fst s) <= t_since - lastUsed pc)%Z ->
  let '(r, p', w', tr) := Get (fst s) (snd s) cfg t_since t_now d in
  handles_of c ⊆ closed w' /\
  tr = [EvLock; EvClientClose (client pc); EvConnect cfg; EvUnlock] /\
  match r with
  | Ok cr =>
      IsPooled cr = true /\ CR_Client cr <> client pc /\
      IsHealthy_at w' (CR_Client cr) = true /\
      clients p' !! configKey cfg
        = Some (mkPooled (CR_Client cr) t_now (configKey cfg) true)
  | Err _ => d <> DialOk /\ clients p' !! configKey cfg = None
  end.
Proof.
  intros Hr Hk Hu Hc Ht.
  pose proof (reachable_inv s Hr) as Hinv. destruct s as [p w]. cbn [fst snd] in *.
  unfold Get. rewrite Hk, Hu.
  destruct (Z.ltb (t_since - lastUsed pc) (maxIdle p)) eqn:E; [apply Z.ltb_lt in E; lia|].
  rewrite andb_false_r. unfold connect_and_add.
  assert (Hcl : handles_of c ⊆ closed (snd (Close_at w (client pc) None None))).
  { unfold Close_at. rewrite Hc. cbn. apply union_subseteq_l. }
  assert (Hinv' : inv (clients p) (heap (snd (Close_at w (client pc) None None)))
                      (fresh (snd (Close_at w (client pc) None None)))).
  { destruct (Close_at_heap w (client pc) None None) as [-> ->]. exact Hinv. }
  destruct (Connect (snd (Close_at w (client pc) None None)) cfg d) as [[a|e] w'] eqn:HC.
  - destruct (Connect_fresh _ _ _ _ _ _ Hinv' HC) as (_ & Hh & Hf).
    assert (Hsub : closed (snd (Close_at w (client pc) None None)) ⊆ closed w').
    { destruct d; unfold Connect in HC; try discriminate HC.
      injection HC as _ <-. cbn. reflexivity. }
    split; [etransitivity; eassumption|]. split; [reflexivity|].
    split; [reflexivity|]. split; [intros Heq; apply (Hf _ _ Hk); symmetry; exact Heq|].
    split; [exact Hh|]. cbn [clients]. apply lookup_insert_eq.
  - assert (Hsub : closed (snd (Close_at w (client pc) None None)) ⊆ closed w').
    { destruct d; unfold Connect in HC; try discriminate HC;
        injection HC as _ <-; cbn; [reflexivity | apply union_subseteq_r]. }
    split; [etransitivity; eassumption|]. split; [reflexivity|].
    split; [eapply Connect_err_not_ok; eauto|]. cbn [clients]. apply lookup_delete_eq.
Qed.

Lemma fold_Close_at_closed (l : list PooledClient) (w : World) :
  let w' := fold_left (fun w' pc => snd (Close_at w' (client pc) None None)) l w in
  closed w ⊆ closed w' /\
  forall pc c, In pc l -> heap w !! client pc = Some c -> handles_of c ⊆ closed w'.
Proof.
  revert w. induction l as [|pc0 l IH]; intros w; cbn [fold_left].
  - split; [reflexivity | intros pc c []].
  - destruct (IH (snd (Close_at w (client pc0) None None))) as [Hsub Hall].
    destruct (Close_at_heap w (client pc0) None None) as [Hh _].
    assert (Hstep : closed w ⊆ closed (snd (Close_at w (client pc0) None None))).
    { unfold Close_at. destruct (heap w !! client pc0); cbn;
        [apply union_subseteq_r | reflexivity]. }
    split; [etransitivity; eassumption|].
    intros pc c [<-|Hin] Hc.
    + etransitivity; [|exact Hsub]. unfold Close_at. rewrite Hc. cbn.
      apply union_subseteq_l.
    + apply (Hall pc c Hin). rewrite Hh. exact Hc.
Qed.

(** X12.  [Close] of the pool empties it and closes both handles of every
    client that was in it, in use or not; nothing that was closed is reopened,
    and a second [Close] finds nothing to do. *)
Theorem Pool_Close_closes_all (p : Pool) (w : World) :
  let '(p', w', _) := Pool_Close p w in
  clients p' = ∅ /\
  closed w ⊆ closed w' /\
  (forall k pc c, clients p !! k = Some pc -> heap w !! client pc = Some c ->
     handles_of c ⊆ closed w') /\
  Pool_Close p' w' = (p', w', [EvLock; EvUnlock]).
Proof.
  unfold Pool_Close. cbn [clients maxIdle].
  destruct (fold_Close_at_closed (map snd (map_to_list (clients p))) w) as [Hsub Hall].
  split; [reflexivity|]. split; [exact Hsub|]. split.
  - intros k pc c Hk Hc. apply (Hall pc c); [|exact Hc].
    apply in_map_iff. exists (k, pc). split; [reflexivity|].
    apply list_elem_of_In, elem_of_map_to_list. exact Hk.
  - rewrite map_to_list_empty. reflexivity.
Qed.

End PoolLifecycle.

Lemma pool_reuse_witness :
  let g1 := flight.Get flight.NewPool (flight.mkWorld ∅ ∅ 0) sample.config 0 0 flight.DialOk in
  let p1 := snd (fst (fst g1)) in
  let w1 := snd (fst g1) in
  let '(r2, p2, w2, tr2) :=
    flight.Get (fst (flight.Release p1 sample.config 1)) w1 sample.config 2 2
               (flight.OpenFails "unreachable") in
  r2 = Ok (flight.mkResult 2 true) /\ w2 = w1 /\
  tr2 = [flight.EvLock; flight.EvUnlock] /\
  exists pc, flight.clients p2 !! flight.configKey sample.config = Some pc /\
             flight.client pc = 2%nat /\ flight.inUse pc = true.
Proof.
  exact (pool_reuse flight.initial sample.config 0 0 flight.DialOk
           (flight.mkResult 2 true) _ _ _ 1 2 2 (flight.OpenFails "unreachable")
           flight.reach_init eq_refl eq_refl eq_refl).
Defined.

Lemma pool_evicts_stale_witness :
  let s := flight.step (flight.step flight.initial
                          (flight.OpGet sample.config 0 0 flight.DialOk))
                       (flight.OpRelease sample.config 0) in
  let '(r, p', w', tr) :=
    flight.Get (fst s) (snd s) sample.config 300000000000 300000000001 flight.DialOk in
  flight.handles_of (flight.mkClient (Some 0%nat) (Some 1%nat)) ⊆ flight.closed w' /\
  tr = [flight.EvLock; flight.EvClientClose 2; flight.EvConnect sample.config;
        flight.EvUnlock] /\
  match r with
  | Ok cr =>
      flight.IsPooled cr = true /\ flight.CR_Client cr <> 2%nat /\
      flight.IsHealthy_at w' (flight.CR_Client cr) = true /\
      flight.clients p' !! flight.configKey sample.config
        = Some (flight.mkPooled (flight.CR_Client cr) 300000000001
                                (flight.configKey sample.config) true)
  | Err _ => flight.DialOk <> flight.DialOk /\
             flight.clients p' !! flight.configKey sample.config = None
  end.
Proof.
  exact (pool_evicts_stale _ sample.config
           (flight.mkPooled 2 0 (flight.configKey sample.config) false)
           (flight.mkClient (Some 0%nat) (Some 1%nat))
           300000000000 300000000001 flight.DialOk
           (flight.reach_step _ (flight.OpRelease sample.config 0)
              (flight.reach_step _ (flight.OpGet sample.config 0 0 flight.DialOk)
                 flight.reach_init))
           eq_refl eq_refl eq_refl ltac:(vm_compute; discriminate)).
Defined.

(** ** Metadata: the structured call succeeds *)

(** X13.  When the structured metadata call succeeds, [GetSchemas], [GetTables]
    and [GetColumns] return its result as it is, an empty list included, and
    make no other call: the [information_schema] query is not attempted,
    whatever it would have answered. *)
Theorem metadata_no_fallback_on_success
    (schema table : string) (objs : result flight.Reader)
    (o : flight.StmtOutcome flight.Reader) :
  (is_err (fst (flight.getSchemasViaADBC objs)) = false ->
   flight.GetSchemas objs o = flight.getSchemasViaADBC objs /\
   snd (flight.GetSchemas objs o) = [flight.RpcGetObjects None None]) /\
  (is_err (fst (flight.getTablesViaADBC schema objs)) = false ->
   flight.GetTables schema objs o = flight.getTablesViaADBC schema objs /\
   snd (flight.GetTables schema objs o) = [flight.RpcGetObjects (Some schema) None]) /\
  (is_err (fst (flight.getColumnsViaADBC schema table objs)) = false ->
   flight.GetColumns schema table objs o = flight.getColumnsViaADBC schema table objs /\
   snd (flight.GetColumns schema table objs o)
     = [flight.RpcGetObjects (Some schema) (Some table)]).
Proof.
  repeat split.
  all: unfold flight.GetSchemas, flight.getSchemasViaADBC,
         flight.GetTables, flight.getTablesViaADBC,
         flight.GetColumns, flight.getColumnsViaADBC in *.
  all: destruct objs as [r|e]; [destruct (flight.reader_err r)|]; cbn in *;
         try discriminate; reflexivity.
Qed.

Lemma metadata_no_fallback_on_success_witness :
  flight.GetColumns "main" "missing" (Ok (flight.mkReader [] None))
                    (flight.ExecuteFails "unused")
  = (Ok [], [flight.RpcGetObjects (Some "main") (Some "missing")]).
Proof.
  destruct (metadata_no_fallback_on_success "main" "missing"
              (Ok (flight.mkReader [] None)) (flight.ExecuteFails "unused"))
    as (_ & _ & H).
  destruct (H eq_refl) as [H1 _]. rewrite H1. reflexivity.
Defined.

(** X14.  In the SQL fallback of [GetColumns] a column is reported nullable
    exactly when its [is_nullable] value is the string [YES]: any other
    spelling, and a NULL value, give not nullable. *)
Theorem sql_nullable_iff_YES (rec : flight.RecordBatch) (col : flight.ColumnInfo) :
  In col (flight.sql_columns_of_batch rec) ->
  exists names types nulls ord rest i,
    flight.columns rec
      = flight.StringArr names :: flight.StringArr types :: flight.StringArr nulls
          :: ord :: rest /\
    flight.slot names i = Some (flight.Name col) /\
    (flight.Nullable col = true <-> flight.slot nulls i = Some "YES").
Proof.
  unfold flight.sql_columns_of_batch. destruct (Z.ltb _ _); [intros []|].
  destruct (flight.columns rec) as [|[names| | | | | |] [|[types| | | | | |]
             [|[nulls| | | | | |] [|ord rest]]]]; try (intros []).
  intros H. apply in_flat_map in H as (i & _ & H).
  exists names, types, nulls, ord, rest, i. split; [reflexivity|].
  destruct (flight.slot names i) as [name|]; [|destruct H].
  destruct H as [<-|[]]. cbn [flight.Name flight.Nullable]. split; [reflexivity|].
  destruct (flight.slot nulls i) as [n|].
  - split; [intros H; apply String.eqb_eq in H; now subst | intros [= ->]; reflexivity].
  - split; discriminate.
Qed.

Lemma sql_nullable_iff_YES_witness :
  exists names types nulls ord rest i,
    [flight.StringArr [Some "id"]; flight.StringArr [Some "INTEGER"];
     flight.StringArr [Some "yes"]; flight.Int32Arr [Some 1%Z]]
      = flight.StringArr names :: flight.StringArr types :: flight.StringArr nulls
          :: ord :: rest /\
    flight.slot names i = Some "id" /\
    (false = true <-> flight.slot nulls i = Some "YES").
Proof.
  exact (sql_nullable_iff_YES
           (flight.mkBatch [flight.StringArr [Some "id"]; flight.StringArr [Some "INTEGER"];
                            flight.StringArr [Some "yes"]; flight.Int32Arr [Some 1%Z]] 1)
           (flight.mkColumn "id" "INTEGER" false 1) (or_introl eq_refl)).
Defined.

(** ** Streaming a scan *)

Lemma range_length (lo hi : Z) : length (flight.range lo hi) = Z.to_nat (hi - lo).
Proof. unfold flight.range. now rewrite length_map, length_seq. Qed.

Lemma seq_from (a n : nat) : seq a n = map (Nat.add a) (seq 0 n).
Proof.
  revert a. induction n as [|n IH]; intros a; [reflexivity|].
  cbn [seq map]. rewrite Nat.add_0_r. f_equal.
  rewrite (IH (S a)), <- seq_shift, map_map. apply map_ext. intros k. lia.
Qed.

Lemma range_split (lo mid hi : Z) :
  (lo <= mid <= hi)%Z ->
  flight.range lo hi = (flight.range lo mid ++ flight.range mid hi)%list.
Proof.
  intros H. unfold flight.range.
  replace (Z.to_nat (hi - lo)) with (Z.to_nat (mid - lo) + Z.to_nat (hi - mid))%nat by lia.
  rewrite seq_app, map_app. f_equal. cbn [Nat.add].
  rewrite seq_from, map_map. apply map_ext. intros k. lia.
Qed.

Section Streaming.

Context {T : Type} (output : list T).

(** The rows of an emitted chunk are the rows of the batch from the
    position on: every slot holds what [cell_at] gives for it, beside the
    type of its vector, and a null stays a null. *)
Lemma chunk_rows_emitted (cols : list (option T * main.ArrowColumn)) (pos n : Z) :
  (0 <= n)%Z ->
  main.chunk_rows
    (main.mkChunk
       (map (fun vc => main.convertArrowToDuckDBVector (snd vc) (fst vc) pos n) cols) n)
  = map (fun j => map (fun vc => (fst vc, main.cell_at (snd vc) j)) cols)
        (flight.range pos (pos + n)).
Proof.
  intros Hn. unfold main.chunk_rows, flight.range. cbn [main.vectors main.chunk_size].
  replace (pos + n - pos)%Z with n by lia. rewrite map_map.
  apply map_ext_in. intros i Hi. apply in_seq in Hi.
  rewrite map_map. apply map_ext. intros [t col].
  unfold main.convertArrowToDuckDBVector, flight.range.
  cbn [fst snd main.vector_type main.slots]. f_equal.
  replace (n - 0)%Z with n by lia. rewrite map_map.
  rewrite (nth_indep _ None (main.cell_at col (pos + (0 + Z.of_nat 0))))
    by (rewrite length_map, length_seq; lia).
  rewrite (map_nth (fun k => main.cell_at col (pos + (0 + Z.of_nat k)))).
  rewrite seq_nth by lia. f_equal; lia.
Qed.

(** The tail of [duckarrow_go_scan_next] inside a batch: it emits at least
    one row and at most [maxChunkSize], the rows of the batch from the
    position on, and moves the position behind them. *)
Lemma emit_rows_spec (reader : main.ScanReader) (b : main.Batch) (pos : Z) :
  (0 <= pos < main.batch_rows b)%Z ->
  exists n c,
    main.emit_rows output reader b pos
      = (n, main.mkStream (Some reader) (Some b) (pos + n) false, Some c) /\
    (0 < n <= main.maxChunkSize)%Z /\ (pos + n <= main.batch_rows b)%Z /\
    main.chunk_size c = n /\
    length (main.chunk_rows c) = Z.to_nat n /\
    main.batch_rows_from output b pos
      = (main.chunk_rows c ++ main.batch_rows_from output b (pos + n))%list.
Proof.
  intros Hpos. unfold main.emit_rows, main.maxChunkSize.
  set (n := if Z.ltb 2048 (main.batch_rows b - pos) then 2048%Z
            else (main.batch_rows b - pos)%Z).
  assert (Hn : (0 < n <= 2048)%Z /\ (n <= main.batch_rows b - pos)%Z).
  { subst n. destruct (Z.ltb 2048 _) eqn:E; [apply Z.ltb_lt in E|apply Z.ltb_ge in E]; lia. }
  eexists n, _. split; [reflexivity|].
  split; [lia|]. split; [lia|]. split; [reflexivity|].
  rewrite chunk_rows_emitted by lia. split.
  - rewrite length_map, range_length. f_equal. lia.
  - unfold main.batch_rows_from. rewrite <- map_app. f_equal. apply range_split. lia.
Qed.

(** One call of [duckarrow_go_scan_next] on a running scan: it emits the
    next rows, at least one and at most [maxChunkSize], and the scan keeps
    running; or nothing is left to deliver, and it returns 0, or -1 when the
    reader has come to its error. *)
Lemma scan_next_step (st : main.ScanStream) :
  main.running st ->
  (main.remaining_rows output st = [] /\
   exists h' out,
     main.duckarrow_go_scan_next (Some st) output
       = ((if main.ends_with_error st then -1 else 0)%Z, h', out)) \/
  (exists n st' c,
     main.duckarrow_go_scan_next (Some st) output = (n, Some st', Some c) /\
     (0 < n <= main.maxChunkSize)%Z /\ main.chunk_size c = n /\
     length (main.chunk_rows c) = Z.to_nat n /\
     main.remaining_rows output st = (main.chunk_rows c ++ main.remaining_rows output st')%list /\
     main.running st' /\ main.ends_with_error st' = main.ends_with_error st).
Proof.
  intros ([Hb Hp] & Hd & r & Hr). specialize (Hb r Hr).
  assert (Hnext : main.needs_batch st = true ->
    (match main.CurrentBatch st with
     | Some b => main.batch_rows_from output b (main.BatchPosition st)
     | None => []
     end = []) ->
    (main.remaining_rows output st = [] /\
     exists h' out,
       main.duckarrow_go_scan_next (Some st) output
         = ((if main.ends_with_error st then -1 else 0)%Z, h', out)) \/
    (exists n st' c,
       main.duckarrow_go_scan_next (Some st) output = (n, Some st', Some c) /\
       (0 < n <= main.maxChunkSize)%Z /\ main.chunk_size c = n /\
       length (main.chunk_rows c) = Z.to_nat n /\
       main.remaining_rows output st = (main.chunk_rows c ++ main.remaining_rows output st')%list /\
       main.running st' /\ main.ends_with_error st' = main.ends_with_error st)).
  { intros Hneed Hnil.
    unfold main.duckarrow_go_scan_next, main.remaining_rows, main.ends_with_error.
    rewrite Hd, Hr, Hneed, Hnil. cbn [app].
    destruct (main.pending_batches r) as [|b' rest] eqn:Hpb.
    - left. split; [reflexivity|]. cbn [forallb andb].
      destruct (main.scan_err r); eexists _, _; reflexivity.
    - inversion Hb as [|? ? Hb' Hrest]. cbn [main.until_empty forallb].
      destruct (Z_le_gt_dec (main.batch_rows b') 0) as [Hle|Hgt].
      + left. assert (E : Z.leb (main.batch_rows b') 0 = true) by (apply Z.leb_le; lia).
        assert (E0 : Z.ltb 0 (main.batch_rows b') = false) by (apply Z.ltb_ge; lia).
        rewrite E, E0. split; [reflexivity|]. cbn [andb].
        unfold main.emit_rows, main.maxChunkSize.
        destruct (Z.ltb 2048 (main.batch_rows b' - 0)) eqn:E2;
          [apply Z.ltb_lt in E2; lia|].
        replace (main.batch_rows b' - 0)%Z with 0%Z by lia.
        eexists _, _. reflexivity.
      + right.
        destruct (emit_rows_spec (main.mkScanReader rest (main.scan_err r)) b' 0
                    ltac:(lia))
          as (n & c & Heq & Hn & Hle & Hsz & Hlen & Hrows).
        assert (E : Z.leb (main.batch_rows b') 0 = false) by (apply Z.leb_gt; lia).
        assert (E0 : Z.ltb 0 (main.batch_rows b') = true) by (apply Z.ltb_lt; lia).
        rewrite E, E0, Heq. eexists n, _, c. split; [reflexivity|].
        split; [exact Hn|]. split; [exact Hsz|]. split; [exact Hlen|]. split; [|split].
        * cbn [flat_map main.CurrentBatch main.BatchPosition main.StreamReader
                 main.pending_batches].
          rewrite Hrows, <- app_assoc. reflexivity.
        * split; [split|split].
          -- intros r0 [= <-]. exact Hrest.
          -- intros b0 [= <-]. cbn [main.BatchPosition]. lia.
          -- reflexivity.
          -- eexists. reflexivity.
        * reflexivity. }
  destruct (main.needs_batch st) eqn:Hneed.
  - apply Hnext; [reflexivity|]. unfold main.needs_batch in Hneed.
    destruct (main.CurrentBatch st) as [b|] eqn:Hc; [|reflexivity].
    apply Z.leb_le in Hneed. unfold main.batch_rows_from, flight.range.
    replace (Z.to_nat (main.batch_rows b - main.BatchPosition st)) with 0%nat by lia.
    reflexivity.
  - clear Hnext. unfold main.needs_batch in Hneed.
    destruct (main.CurrentBatch st) as [b|] eqn:Hc; [|discriminate Hneed].
    apply Z.leb_gt in Hneed. specialize (Hp b eq_refl).
    destruct (emit_rows_spec r b (main.BatchPosition st) ltac:(lia))
      as (n & c & Heq & Hn & Hle & Hsz & Hlen & Hrows).
    right. unfold main.duckarrow_go_scan_next, main.remaining_rows, main.ends_with_error.
    rewrite Hd, Hr. unfold main.needs_batch. rewrite Hc.
    assert (E : Z.leb (main.batch_rows b) (main.BatchPosition st) = false)
      by (apply Z.leb_gt; lia).
    rewrite E, Heq. eexists n, _, c. split; [reflexivity|].
    split; [exact Hn|]. split; [exact Hsz|]. split; [exact Hlen|]. split; [|split].
    + cbn [main.CurrentBatch main.BatchPosition main.StreamReader].
      rewrite Hrows, <- app_assoc. reflexivity.
    + split; [split|split].
      * intros r0 [= <-]. exact Hb.
      * intros b0 [= <-]. cbn [main.BatchPosition]. lia.
      * reflexivity.
      * eexists. reflexivity.
    + reflexivity.
Qed.

(** What the host gets from a running scan, through [DuckArrowScanFunction]
    and [duckarrow_go_scan_next]. *)
Lemma host_scan_outcome
    (init : option (option main.ScanStream -> list Z
                    -> option string * option main.ScanStream))
    (fuel : nat) (gs : cpp.DuckArrowScanGlobalState) (st : main.ScanStream) :
  cpp.initialized gs = true -> cpp.finished gs = false ->
  main.running st ->
  (length (main.remaining_rows output st) < fuel)%nat ->
  cpp.host_scan init (Some main.duckarrow_go_scan_next) fuel gs (Some st) output
  = Some (if main.ends_with_error st then cpp.Thrown "Error during scan"
          else cpp.Returned (main.remaining_rows output st)).
Proof.
  intros Hi Hf. revert st. induction fuel as [|fuel IH]; intros st Hrun Hlen; [lia|].
  cbn [cpp.host_scan]. unfold cpp.DuckArrowScanFunction. rewrite Hf, Hi.
  destruct (scan_next_step st Hrun)
    as [(Hnil & h' & out & Heq)
       | (n & st' & c & Heq & Hn & Hsz & Hl & Hrows & Hrun' & Hend)].
  - rewrite Heq, Hnil. destruct (main.ends_with_error st); reflexivity.
  - rewrite Heq.
    assert (E1 : Z.ltb n 0 = false) by (apply Z.ltb_ge; lia).
    assert (E2 : Z.eqb n 0 = false) by (apply Z.eqb_neq; lia).
    rewrite E1, E2. cbn [main.chunk_size]. rewrite E2.
    rewrite IH; [|exact Hrun'|rewrite Hrows, length_app, Hl in Hlen; lia].
    rewrite Hend. destruct (main.ends_with_error st); [reflexivity|].
    rewrite Hrows. unfold main.chunk_rows. cbn [main.vectors main.chunk_size].
    rewrite Hsz. reflexivity.
Qed.

(** X22.  One call of [duckarrow_go_scan_next] on a running scan, with a
    chunk whose vectors have any types: either it writes the next rows of the
    stream, in their order, at least one and at most 2048, the chunk has the
    size that is returned, and the scan keeps running behind them; or
    nothing is left to deliver, and it returns 0, or -1 when the reader has
    come to its error.  A row is written as [convertArrowToDuckDBVector]
    writes it: each slot is what [cell_at] gives, a null stays a null, a
    string ends at its first NUL byte, and the text of an array of another
    type is assigned as a string element whatever the type of the vector
    is, which every slot carries with it. *)
Theorem scan_next_emits (st : main.ScanStream) :
  main.running st ->
  (main.remaining_rows output st = [] /\
   exists h' out,
     main.duckarrow_go_scan_next (Some st) output
       = ((if main.ends_with_error st then -1 else 0)%Z, h', out)) \/
  (exists n st' c,
     main.duckarrow_go_scan_next (Some st) output = (n, Some st', Some c) /\
     (0 < n <= main.maxChunkSize)%Z /\ main.chunk_size c = n /\
     length (main.chunk_rows c) = Z.to_nat n /\
     main.remaining_rows output st
       = (main.chunk_rows c ++ main.remaining_rows output st')%list /\
     main.running st' /\ main.ends_with_error st' = main.ends_with_error st).
Proof. exact (scan_next_step st). Qed.

(** X15.  A running scan whose reader does not come to an error hands to
    the host, through [DuckArrowScanFunction] and [duckarrow_go_scan_next],
    what is still to be written of the stream, row by row in the order of
    the stream, up to the first record batch without rows: that batch ends
    the scan, and what lies behind it, batches or an error, is never read.
    A row is written as [convertArrowToDuckDBVector] writes it: each slot is
    what [cell_at] gives, a null stays a null, a string ends at its first
    NUL byte, and the text of an array of another type is assigned as a
    string element whatever the type of the vector is, which every slot
    carries with it. *)
Theorem host_scan_delivers
    (init : option (option main.ScanStream -> list Z
                    -> option string * option main.ScanStream))
    (fuel : nat) (gs : cpp.DuckArrowScanGlobalState) (st : main.ScanStream) :
  cpp.initialized gs = true -> cpp.finished gs = false ->
  main.running st -> main.ends_with_error st = false ->
  (length (main.remaining_rows output st) < fuel)%nat ->
  cpp.host_scan init (Some main.duckarrow_go_scan_next) fuel gs (Some st) output
  = Some (cpp.Returned (main.remaining_rows output st)).
Proof.
  intros Hi Hf Hrun Hend Hlen.
  rewrite (host_scan_outcome init fuel gs st Hi Hf Hrun Hlen), Hend. reflexivity.
Qed.

(** X16.  When the reader of a running scan reports an error behind batches
    that all have rows, the scan of the host ends with the exception
    [Error during scan]: the error is not taken for the end of the data. *)
Theorem host_scan_error
    (init : option (option main.ScanStream -> list Z
                    -> option string * option main.ScanStream))
    (fuel : nat) (gs : cpp.DuckArrowScanGlobalState) (st : main.ScanStream) :
  cpp.initialized gs = true -> cpp.finished gs = false ->
  main.running st -> main.ends_with_error st = true ->
  (length (main.remaining_rows output st) < fuel)%nat ->
  cpp.host_scan init (Some main.duckarrow_go_scan_next) fuel gs (Some st) output
  = Some (cpp.Thrown "Error during scan").
Proof.
  intros Hi Hf Hrun Hend Hlen.
  rewrite (host_scan_outcome init fuel gs st Hi Hf Hrun Hlen), Hend. reflexivity.
Qed.

End Streaming.

Lemma scan_next_emits_witness :
  exists st',
    main.duckarrow_go_scan_next (Some sample.scan_stream) sample.scan_types
    = (2%Z, Some st',
       Some (main.mkChunk
               [main.mkVector (Some cpp.BIGINT) [Some (main.CellInt64 1); None];
                main.mkVector (Some cpp.VARCHAR)
                              [Some (main.CellString "x"); Some (main.CellString "y")];
                main.mkVector (Some cpp.SMALLINT)
                              [Some (main.CellString "7"); Some (main.CellString "8")]]
               2)).
Proof.
  destruct (scan_next_emits sample.scan_types sample.scan_stream)
    as [[Hnil _] | (n & st' & c & Heq & _)].
  - split; [split|split].
    + intros r [= <-]. cbn. repeat constructor; cbn; lia.
    + intros b H. discriminate H.
    + reflexivity.
    + eexists. reflexivity.
  - vm_compute in Hnil. discriminate Hnil.
  - exists st'. rewrite Heq. vm_compute in Heq. injection Heq as <- _ <-. reflexivity.
Defined.

Lemma host_scan_delivers_witness :
  cpp.host_scan None (Some main.duckarrow_go_scan_next) 3
    (cpp.mkGlobalState true false []) (Some sample.scan_stream) sample.scan_types
  = Some (cpp.Returned
            [[(Some cpp.BIGINT, Some (main.CellInt64 1));
              (Some cpp.VARCHAR, Some (main.CellString "x"));
              (Some cpp.SMALLINT, Some (main.CellString "7"))];
             [(Some cpp.BIGINT, None);
              (Some cpp.VARCHAR, Some (main.CellString "y"));
              (Some cpp.SMALLINT, Some (main.CellString "8"))]]).
Proof.
  apply (host_scan_delivers sample.scan_types None 3
           (cpp.mkGlobalState true false []) sample.scan_stream).
  - reflexivity.
  - reflexivity.
  - split; [split|split].
    + intros r [= <-]. cbn. repeat constructor; cbn; lia.
    + intros b H. discriminate H.
    + reflexivity.
    + eexists. reflexivity.
  - reflexivity.
  - vm_compute. lia.
Defined.

Lemma host_scan_error_witness :
  cpp.host_scan None (Some main.duckarrow_go_scan_next) 2
    (cpp.mkGlobalState true false []) (Some sample.failing_stream) [cpp.BIGINT]
  = Some (cpp.Thrown "Error during scan").
Proof.
  apply (host_scan_error [cpp.BIGINT] None 2 (cpp.mkGlobalState true false [])
           sample.failing_stream).
  - reflexivity.
  - reflexivity.
  - split; [split|split].
    + intros r [= <-]. cbn. repeat constructor; cbn; lia.
    + intros b H. discriminate H.
    + reflexivity.
    + eexists. reflexivity.
  - reflexivity.
  - vm_compute. lia.
Defined.

(** ** Column types across the language boundary *)

Lemma digit_cases (n : Z) :
  In (Go.digit (n mod 10))
     ["0"; "1"; "2"; "3"; "4"; "5"; "6"; "7"; "8"; "9"]%char.
Proof.
  pose proof (Z.mod_pos_bound n 10 ltac:(lia)) as H.
  assert (Hc : n mod 10 = 0 \/ n mod 10 = 1 \/ n mod 10 = 2 \/ n mod 10 = 3 \/
               n mod 10 = 4 \/ n mod 10 = 5 \/ n mod 10 = 6 \/ n mod 10 = 7 \/
               n mod 10 = 8 \/ n mod 10 = 9) by lia.
  repeat (destruct Hc as [Hc|Hc]; [rewrite Hc; cbn; tauto|]).
  rewrite Hc; cbn; tauto.
Qed.

Lemma digit_value (n : Z) :
  cpp.isdigit (Go.digit (n mod 10)) = true /\
  Z.of_nat (nat_of_ascii (Go.digit (n mod 10))) - 48 = n mod 10.
Proof.
  pose proof (Z.mod_pos_bound n 10 ltac:(lia)) as H.
  assert (Hc : n mod 10 = 0 \/ n mod 10 = 1 \/ n mod 10 = 2 \/ n mod 10 = 3 \/
               n mod 10 = 4 \/ n mod 10 = 5 \/ n mod 10 = 6 \/ n mod 10 = 7 \/
               n mod 10 = 8 \/ n mod 10 = 9) by lia.
  repeat (destruct Hc as [Hc|Hc]; [rewrite Hc; split; reflexivity|]).
  rewrite Hc; split; reflexivity.
Qed.

(** The digits that [Sprint_int] writes are read back by [read_digits]. *)
Lemma read_digits_from (fuel : nat) (n : Z) (acc : string) (a : option Z) :
  0 <= n < 2 ^ Z.of_nat (S fuel) ->
  exists k, 0 <= k /\
    cpp.read_digits (Go.digits_from (S fuel) n acc) a
    = cpp.read_digits acc (Some (10 ^ k * match a with Some v => v | None => 0 end + n)).
Proof.
  revert n acc a. induction fuel as [|fuel IH]; intros n acc a Hn.
  - assert (Hlt : Z.ltb n 10 = true).
    { apply Z.ltb_lt. change (2 ^ Z.of_nat 1) with 2 in Hn. lia. }
    cbn [Go.digits_from]. rewrite Hlt. cbn [cpp.read_digits].
    destruct (digit_value n) as [-> ->]. exists 1. split; [lia|].
    rewrite Z.mod_small by (apply Z.ltb_lt in Hlt; lia). reflexivity.
  - remember (S fuel) as f eqn:Hf. cbn [Go.digits_from].
    destruct (Z.ltb n 10) eqn:Hlt.
    + cbn [cpp.read_digits]. destruct (digit_value n) as [-> ->]. exists 1. split; [lia|].
      rewrite Z.mod_small by (apply Z.ltb_lt in Hlt; lia). reflexivity.
    + apply Z.ltb_ge in Hlt. subst f.
      assert (Hdiv : 0 <= n / 10 < 2 ^ Z.of_nat (S fuel)).
      { split; [apply Z.div_pos; lia|].
        apply Z.div_lt_upper_bound; [lia|].
        replace (Z.of_nat (S (S fuel))) with (Z.of_nat (S fuel) + 1) in Hn by lia.
        rewrite Z.pow_add_r, Z.pow_1_r in Hn by lia. lia. }
      destruct (IH (n / 10) (String (Go.digit (n mod 10)) acc) a Hdiv) as (k & Hk & ->).
      cbn [cpp.read_digits]. destruct (digit_value n) as [-> ->].
      exists (k + 1). split; [lia|]. f_equal. f_equal.
      rewrite Z.pow_add_r, Z.pow_1_r by lia.
      pose proof (Z.div_mod n 10 ltac:(lia)). lia.
Qed.

(** What [Sprint_int] writes starts with a digit when the number is not
    negative, and holds no letter, bracket or comma. *)
Lemma digits_from_chars (P : ascii -> Prop) (fuel : nat) (n : Z) (acc : string) :
  (forall c, In c ["0"; "1"; "2"; "3"; "4"; "5"; "6"; "7"; "8"; "9"]%char -> P c) ->
  Forall P (list_ascii_of_string acc) ->
  Forall P (list_ascii_of_string (Go.digits_from fuel n acc)).
Proof.
  intros HP. revert n acc. induction fuel as [|fuel IH]; intros n acc Hacc; [exact Hacc|].
  cbn [Go.digits_from].
  assert (H1 : Forall P (list_ascii_of_string (String (Go.digit (n mod 10)) acc))).
  { cbn [list_ascii_of_string]. constructor; [apply HP, digit_cases | exact Hacc]. }
  destruct (Z.ltb n 10); [exact H1 | apply IH, H1].
Qed.

Lemma digits_from_head (fuel : nat) (n : Z) (acc : string) :
  exists d r, Go.digits_from (S fuel) n acc = String d r /\ cpp.isdigit d = true.
Proof.
  revert n acc. induction fuel as [|fuel IH]; intros n acc.
  - cbn [Go.digits_from]. destruct (Z.ltb n 10);
      eexists _, _; (split; [reflexivity | apply digit_value]).
  - remember (S fuel) as f. cbn [Go.digits_from]. destruct (Z.ltb n 10).
    + eexists _, _; (split; [reflexivity | apply digit_value]).
    + subst f. apply IH.
Qed.

Lemma Sprint_int_chars (P : ascii -> Prop) (n : Z) :
  (forall c, In c ["0"; "1"; "2"; "3"; "4"; "5"; "6"; "7"; "8"; "9"; "-"]%char -> P c) ->
  Forall P (list_ascii_of_string (Go.Sprint_int n)).
Proof.
  intros HP. unfold Go.Sprint_int. destruct (Z.ltb n 0).
  - cbn [list_ascii_of_string]. constructor; [apply HP; cbn; tauto|].
    apply digits_from_chars; [|constructor]. intros c Hc. apply HP. cbn in *. tauto.
  - apply digits_from_chars; [|constructor]. intros c Hc. apply HP. cbn in *. tauto.
Qed.

Lemma log2_fuel (n : Z) : 0 <= n -> 0 <= n < 2 ^ Z.of_nat (S (Z.to_nat (Z.log2 n))).
Proof.
  intros Hn. split; [exact Hn|].
  replace (Z.of_nat (S (Z.to_nat (Z.log2 n)))) with (Z.succ (Z.log2 n))
    by (pose proof (Z.log2_nonneg n); lia).
  destruct (Z.eq_dec n 0) as [->|Hnz]; [reflexivity|].
  apply Z.log2_spec. lia.
Qed.

(** [std::stoi] reads back what [Sprintf("%d")] writes for an [int32]. *)
Lemma stoi_Sprint_int (n : Z) :
  - 2 ^ 31 <= n <= 2 ^ 31 - 1 -> cpp.stoi (Go.Sprint_int n) = Some n.
Proof.
  intros Hn. unfold Go.Sprint_int. destruct (Z.ltb n 0) eqn:Hneg.
  - apply Z.ltb_lt in Hneg. unfold cpp.stoi. cbn [cpp.skip_space].
    change (cpp.isspace "-") with false. cbv iota.
    destruct (read_digits_from (Z.to_nat (Z.log2 (- n))) (- n) "" None
                (log2_fuel (- n) ltac:(lia))) as (k & _ & ->).
    cbn [cpp.read_digits]. rewrite Z.mul_0_r, Z.add_0_l, Z.opp_involutive.
    assert (E : Z.leb (- 2 ^ 31) n && Z.leb n (2 ^ 31 - 1) = true).
    { apply andb_true_iff. split; apply Z.leb_le; lia. }
    rewrite E. reflexivity.
  - apply Z.ltb_ge in Hneg. unfold cpp.stoi.
    destruct (digits_from_head (Z.to_nat (Z.log2 n)) n "") as (d & r & Heq & Hd).
    assert (Hsp : cpp.skip_space (String d r) = String d r).
    { cbn [cpp.skip_space]. unfold cpp.isspace, cpp.isdigit in *.
      destruct (Nat.eqb (nat_of_ascii d) 32) eqn:E1.
      - apply Nat.eqb_eq in E1. rewrite E1 in Hd. discriminate Hd.
      - destruct (Nat.leb 9 (nat_of_ascii d) && Nat.leb (nat_of_ascii d) 13) eqn:E2;
          [|reflexivity].
        apply andb_true_iff in E2 as [_ E2]. apply andb_true_iff in Hd as [Hd _].
        apply Nat.leb_le in E2, Hd. lia. }
    rewrite Heq, Hsp.
    destruct d as [[] [] [] [] [] [] [] []]; try discriminate Hd;
      rewrite <- Heq;
      destruct (read_digits_from (Z.to_nat (Z.log2 n)) n "" None (log2_fuel n Hneg))
        as (k & _ & ->);
      cbn [cpp.read_digits]; rewrite Z.mul_0_r, Z.add_0_l;
      (assert (E : Z.leb (- 2 ^ 31) n && Z.leb n (2 ^ 31 - 1) = true)
        by (apply andb_true_iff; split; apply Z.leb_le; lia));
      rewrite E; reflexivity.
Qed.

Lemma Upper_append (a b : string) : cpp.Upper (a ++ b) = cpp.Upper a ++ cpp.Upper b.
Proof.
  induction a as [|x a IH]; [reflexivity|].
  rewrite append_cons. cbn [cpp.Upper]. rewrite IH. reflexivity.
Qed.

Lemma Upper_fixed (s : string) :
  Forall (fun c => cpp.toupper c = c) (list_ascii_of_string s) -> cpp.Upper s = s.
Proof.
  induction s as [|x s IH]; [reflexivity|]. cbn [list_ascii_of_string cpp.Upper].
  intros H. inversion H as [|? ? Hx Hs]. rewrite Hx, IH by exact Hs. reflexivity.
Qed.

Lemma find_append (a b : string) (c : ascii) :
  Forall (fun x => Ascii.eqb x c = false) (list_ascii_of_string a) ->
  cpp.find (a ++ b) c = option_map (Nat.add (String.length a)) (cpp.find b c).
Proof.
  induction a as [|x a IH]; cbn [list_ascii_of_string]; intros H.
  - change ("" ++ b) with b. destruct (cpp.find b c); reflexivity.
  - inversion H as [|? ? Hx Ha]. rewrite append_cons. cbn [cpp.find].
    rewrite Hx, (IH Ha). destruct (cpp.find b c); reflexivity.
Qed.

Lemma Sprint_int_Upper (n : Z) : cpp.Upper (Go.Sprint_int n) = Go.Sprint_int n.
Proof.
  apply Upper_fixed, Sprint_int_chars. intros c Hc. cbn in Hc.
  repeat (destruct Hc as [<-|Hc]; [reflexivity|]). destruct Hc.
Qed.

Lemma Sprint_int_find (n : Z) (c : ascii) :
  In c ["("; ")"; ","]%char ->
  Forall (fun x => Ascii.eqb x c = false) (list_ascii_of_string (Go.Sprint_int n)).
Proof.
  intros Hc. apply Sprint_int_chars. intros x Hx. cbn in Hc, Hx.
  repeat (destruct Hc as [<-|Hc];
          [repeat (destruct Hx as [<-|Hx]; [reflexivity|]); destruct Hx|]).
  destruct Hc.
Qed.

Lemma substring_prefix_min (a b : string) (n : nat) :
  n = String.length a -> String.substring 0 n (a ++ b) = a.
Proof. intros ->. apply substring_append_length. Qed.

Lemma substring_suffix (a b : string) (n m : nat) :
  n = String.length a -> m = String.length b -> String.substring n m (a ++ b) = b.
Proof.
  intros -> ->.
  replace (String.length b) with (String.length (a ++ b) - String.length a)%nat
    by (rewrite length_append; lia).
  apply substring_skip_prefix.
Qed.

(** The type name that [arrowTypeToString] writes for a decimal type is
    read back by [FlightSQLTypeToDuckDB]. *)
Lemma decimal_type_roundtrip (precision scale : Z) :
  - 2 ^ 31 <= precision <= 2 ^ 31 - 1 -> - 2 ^ 31 <= scale <= 2 ^ 31 - 1 ->
  cpp.FlightSQLTypeToDuckDB (main.arrowTypeToString (main.DECIMAL128 precision scale))
  = cpp.LogicalType_DECIMAL (cpp.clamp_precision precision) scale.
Proof.
  intros Hp Hs. cbn [main.arrowTypeToString].
  pose proof (stoi_Sprint_int precision Hp) as HstoiP.
  pose proof (stoi_Sprint_int scale Hs) as HstoiS.
  pose proof (Sprint_int_Upper precision) as HupP.
  pose proof (Sprint_int_Upper scale) as HupS.
  pose proof (Sprint_int_find precision) as HfP.
  pose proof (Sprint_int_find scale) as HfS.
  set (P := Go.Sprint_int precision) in *. set (S_ := Go.Sprint_int scale) in *.
  clearbody P S_.
  assert (Hup : cpp.Upper ("DECIMAL(" ++ P ++ "," ++ S_ ++ ")")
                = "DECIMAL(" ++ P ++ "," ++ S_ ++ ")").
  { rewrite !Upper_append, HupP, HupS. reflexivity. }
  unfold cpp.FlightSQLTypeToDuckDB. rewrite Hup.
  change (cpp.decimal_type ("DECIMAL(" ++ P ++ "," ++ S_ ++ ")")
          = cpp.LogicalType_DECIMAL (cpp.clamp_precision precision) scale).
  unfold cpp.decimal_type.
  change (cpp.find ("DECIMAL(" ++ P ++ "," ++ S_ ++ ")") "(") with (Some 7%nat).
  assert (Hend : cpp.find ("DECIMAL(" ++ P ++ "," ++ S_ ++ ")") ")"
                 = Some (8 + (String.length P + (1 + (String.length S_ + 0))))%nat).
  { rewrite (find_append "DECIMAL(") by (repeat constructor).
    rewrite (find_append P) by (apply HfP; cbn; tauto).
    rewrite (find_append ",") by (repeat constructor).
    rewrite (find_append S_) by (apply HfS; cbn; tauto).
    reflexivity. }
  rewrite Hend.
  assert (Hlt : Nat.ltb (8 + (String.length P + (1 + (String.length S_ + 0)))) (7 + 1) = false)
    by (apply Nat.ltb_ge; lia).
  rewrite Hlt.
  assert (Hparams : cpp.substr ("DECIMAL(" ++ P ++ "," ++ S_ ++ ")") (7 + 1)
            (Some (8 + (String.length P + (1 + (String.length S_ + 0))) - 7 - 1)%nat)
          = P ++ "," ++ S_).
  { unfold cpp.substr.
    change (String.substring (7 + 1) ?n ("DECIMAL(" ++ ?r)) with (String.substring 0 n r).
    rewrite <- (append_assoc P "," (S_ ++ ")")), <- (append_assoc (P ++ ",") S_ ")").
    rewrite (append_assoc P "," S_).
    apply substring_prefix_min.
    rewrite !length_append. cbn [String.length]. lia. }
  rewrite Hparams.
  assert (Hcomma : cpp.find (P ++ "," ++ S_) "," = Some (String.length P + 0)%nat).
  { rewrite (find_append P) by (apply HfP; cbn; tauto). reflexivity. }
  rewrite Hcomma.
  assert (H1 : cpp.substr (P ++ "," ++ S_) 0 (Some (String.length P + 0)%nat) = P).
  { unfold cpp.substr. apply substring_prefix_min.
    rewrite !length_append. cbn [String.length]. lia. }
  assert (H2 : cpp.substr (P ++ "," ++ S_) (String.length P + 0 + 1) None = S_).
  { unfold cpp.substr. rewrite <- (append_assoc P "," S_).
    apply substring_suffix; rewrite !length_append; cbn [String.length]; lia. }
  rewrite H1, HstoiP, H2, HstoiS. reflexivity.
Qed.

(** X17.  The column types of a scan across the language boundary: the
    name that [arrowTypeToString] writes for an Arrow type is read by
    [FlightSQLTypeToDuckDB] as the host type of the same kind.  For a
    decimal type it calls [LogicalType::DECIMAL] with the precision, cut to
    38, and the scale, each as the [uint8_t] parameter receives it, that is
    modulo 256: a precision from 0 to 38 and a scale from 0 to 255 arrive as
    they are.  Only strings and the types that the Go side has no name for
    are declared as [VARCHAR]. *)
Theorem declared_type_of_arrow_type (t : main.ArrowType) :
  main.int32_fields t ->
  cpp.FlightSQLTypeToDuckDB (main.arrowTypeToString t)
  = match t with
    | main.STRING | main.LARGE_STRING | main.OTHER => cpp.VARCHAR
    | main.INT64 => cpp.BIGINT
    | main.INT32 => cpp.INTEGER
    | main.INT16 => cpp.SMALLINT
    | main.INT8 => cpp.TINYINT
    | main.UINT64 => cpp.UBIGINT
    | main.UINT32 => cpp.UINTEGER
    | main.UINT16 => cpp.USMALLINT
    | main.UINT8 => cpp.UTINYINT
    | main.FLOAT64 => cpp.DOUBLE
    | main.FLOAT32 => cpp.FLOAT
    | main.BOOL => cpp.BOOLEAN
    | main.TIMESTAMP => cpp.TIMESTAMP
    | main.DATE32 | main.DATE64 => cpp.DATE
    | main.TIME32 | main.TIME64 => cpp.TIME
    | main.BINARY | main.LARGE_BINARY => cpp.BLOB
    | main.DECIMAL128 precision scale =>
        cpp.DECIMAL (Z.min precision 38 mod 256) (scale mod 256)
    end /\
  forall precision scale,
    t = main.DECIMAL128 precision scale ->
    0 <= precision <= 38 -> 0 <= scale <= 255 ->
    cpp.FlightSQLTypeToDuckDB (main.arrowTypeToString t) = cpp.DECIMAL precision scale.
Proof.
  assert (Hdec : forall precision scale,
            main.int32_fields (main.DECIMAL128 precision scale) ->
            cpp.FlightSQLTypeToDuckDB
              (main.arrowTypeToString (main.DECIMAL128 precision scale))
            = cpp.DECIMAL (Z.min precision 38 mod 256) (scale mod 256)).
  { intros precision scale [Hp Hs]. rewrite (decimal_type_roundtrip _ _ Hp Hs).
    unfold cpp.LogicalType_DECIMAL, cpp.uint8_t, cpp.clamp_precision. f_equal. f_equal.
    destruct (Z.ltb 38 precision) eqn:E; [apply Z.ltb_lt in E|apply Z.ltb_ge in E]; lia. }
  intros H. split.
  - destruct t; try reflexivity. apply Hdec, H.
  - intros precision scale -> Hp Hs. rewrite (Hdec _ _ H).
    rewrite Z.min_l by lia. rewrite !Z.mod_small by lia. reflexivity.
Qed.

Lemma declared_type_of_arrow_type_witness :
  cpp.FlightSQLTypeToDuckDB "DECIMAL(50,-1)" = cpp.DECIMAL 38 255.
Proof.
  refine (proj1 (declared_type_of_arrow_type (main.DECIMAL128 50 (-1)) _)).
  unfold main.int32_fields. split; split; (vm_compute; discriminate).
Defined.

(** ** Binding and freeing a scan *)

(** A connection that [Get] hands out beside the pool is a new client,
    with both its handles. *)
Lemma Get_unmanaged_client (p : flight.Pool) (w : flight.World) (cfg : flight.Config)
    (t_since t_now : Z) (d : flight.DialOutcome)
    (cr : flight.ConnectionResult) (p1 : flight.Pool) (w1 : flight.World)
    (tr : list flight.Event) :
  flight.Get p w cfg t_since t_now d = (Ok cr, p1, w1, tr) ->
  flight.IsPooled cr = false ->
  exists cl, flight.heap w1 !! flight.CR_Client cr = Some cl /\ flight.IsHealthy cl = true.
Proof.
  unfold flight.Get.
  destruct (flight.clients p !! flight.configKey cfg) as [pc0|].
  - destruct (flight.inUse pc0).
    + destruct d; unfold flight.Connect; cbn; intros [= <- <- <- <-] _.
      eexists. split; [apply lookup_insert_eq | reflexivity].
    + destruct (flight.IsHealthy_at w (flight.client pc0) && _).
      * intros [= <- <- <- <-] H. discriminate H.
      * unfold flight.connect_and_add.
        destruct (flight.Connect _ cfg d) as [[a|e] w'];
          intros [= <- <- <- <-] H; discriminate H.
  - unfold flight.connect_and_add.
    destruct (flight.Connect w cfg d) as [[a|e] w'];
      intros [= <- <- <- <-] H; discriminate H.
Qed.

(** X18.  A bind that fails keeps no connection: whatever the reason, every
    pool entry that is in use when [duckarrow_go_scan_table_bind] returns an
    error was in use, with the same client, when it was called; and every
    client that the call has added to the store is either the client of a
    pool entry or has both its handles closed, so a connection that did not
    come from the pool is closed. *)
Theorem scan_bind_error_returns_connection
    (g : main.DuckArrowConfig) (s : flight.Pool * flight.World)
    (uri schemaName tableName : option string)
    (t_since t_now t_release : Z) (d : flight.DialOutcome)
    (o : flight.StmtOutcome flight.Reader) (fields : list main.Field) :
  let R := main.duckarrow_go_scan_table_bind g s uri schemaName tableName
             t_since t_now t_release d o fields in
  main.bind_error (fst (fst R)) <> None ->
  (forall k pc, flight.clients (fst (snd (fst R))) !! k = Some pc ->
                flight.inUse pc = true -> flight.clients (fst s) !! k = Some pc) /\
  (forall a c, flight.heap (snd (snd (fst R))) !! a = Some c ->
               flight.heap (snd s) !! a = None ->
     (exists k pc, flight.clients (fst (snd (fst R))) !! k = Some pc /\
                   flight.client pc = a) \/
     flight.handles_of c ⊆ flight.closed (snd (snd (fst R)))).
Proof.
  assert (Hsame : (forall k pc, flight.clients (fst s) !! k = Some pc ->
                     flight.inUse pc = true -> flight.clients (fst s) !! k = Some pc) /\
                  (forall a c, flight.heap (snd s) !! a = Some c ->
                     flight.heap (snd s) !! a = None ->
                     (exists k pc, flight.clients (fst s) !! k = Some pc /\
                                   flight.client pc = a) \/
                     flight.handles_of c ⊆ flight.closed (snd s))).
  { split; [intros k pc H _; exact H|]. intros a c H Hn. rewrite H in Hn. discriminate. }
  unfold main.duckarrow_go_scan_table_bind.
  destruct uri as [uriStr|]; [|cbn [fst snd]; intros _; exact Hsame].
  destruct tableName as [tableStr|]; [|cbn [fst snd]; intros _; exact Hsame].
  cbn [main.GetDuckArrowConfig]. clear Hsame.
  set (cfg := flight.mkConfig _ _ _ _).
  destruct (flight.Get _ _ _ _ _ _) as [[[[cr|e] p1] w1] tr] eqn:HGet.
  - destruct (flight.Query _ o) as [[reader|e] log] eqn:HQ; cbn [fst snd main.bind_error].
    + intros Hne. contradiction Hne. reflexivity.
    + intros _. exact (Get_give_back _ _ _ _ _ t_release _ _ _ _ _ HGet).
  - cbn [fst snd]. intros _. split.
    + intros k pc H Hin.
      pose proof (Get_in_use_after (fst s) (snd s) cfg t_since t_now d k pc) as HG.
      rewrite HGet in HG.
      destruct (HG H Hin) as [H'|(_ & cr' & Hcr & _)]; [exact H' | discriminate Hcr].
    + intros a c H Hn.
      pose proof (Get_new_client (fst s) (snd s) cfg t_since t_now d a c) as HN.
      rewrite HGet in HN. destruct (HN H Hn) as (cr' & Hcr & _). discriminate Hcr.
Qed.

Lemma scan_bind_error_returns_connection_witness :
  let s := flight.step flight.initial (flight.OpGet sample.config 0 0 flight.DialOk) in
  let R := main.duckarrow_go_scan_table_bind
             (main.mkGlobal "" "user" "pass" false) s
             (Some "grpc://localhost:31337") None (Some "t")
             1 1 2 flight.DialOk (flight.ExecuteFails "no such table") [] in
  (forall k pc, flight.clients (fst (snd (fst R))) !! k = Some pc ->
                flight.inUse pc = true -> flight.clients (fst s) !! k = Some pc) /\
  (forall a c, flight.heap (snd (snd (fst R))) !! a = Some c ->
               flight.heap (snd s) !! a = None ->
     (exists k pc, flight.clients (fst (snd (fst R))) !! k = Some pc /\
                   flight.client pc = a) \/
     flight.handles_of c ⊆ flight.closed (snd (snd (fst R)))).
Proof.
  intros s R.
  apply (scan_bind_error_returns_connection
           (main.mkGlobal "" "user" "pass" false) s
           (Some "grpc://localhost:31337") None (Some "t")
           1 1 2 flight.DialOk (flight.ExecuteFails "no such table") []).
  vm_compute. discriminate.
Defined.

(** X19.  A scan that is bound and then freed keeps no connection: every
    pool entry that is in use after [duckarrow_go_scan_free] was in use, with
    the same client, before [duckarrow_go_scan_table_bind]; and a connection
    that did not come from the pool has both its handles closed. *)
Theorem scan_bind_free_returns_connection
    (g : main.DuckArrowConfig) (s : flight.Pool * flight.World)
    (uri schemaName tableName : option string)
    (t_since t_now t_release t_free : Z) (d : flight.DialOutcome)
    (o : flight.StmtOutcome flight.Reader) (fields : list main.Field)
    (c : main.ScanConn) (b : main.ScanBindData) :
  let R := main.duckarrow_go_scan_table_bind g s uri schemaName tableName
             t_since t_now t_release d o fields in
  main.bind_handle (fst (fst R)) = Some (c, b) ->
  let s2 := main.duckarrow_go_scan_free (snd (fst R)) (Some c) t_free in
  (forall k pc, flight.clients (fst s2) !! k = Some pc -> flight.inUse pc = true ->
                flight.clients (fst s) !! k = Some pc) /\
  (main.IsPooled c = false ->
   exists p cl, main.Client c = Some p /\ flight.heap (snd (snd (fst R))) !! p = Some cl /\
                flight.IsHealthy cl = true /\
                flight.handles_of cl ⊆ flight.closed (snd s2)).
Proof.
  unfold main.duckarrow_go_scan_table_bind.
  destruct uri as [uriStr|]; [|cbn; intros H; discriminate H].
  destruct tableName as [tableStr|]; [|cbn; intros H; discriminate H].
  cbn [main.GetDuckArrowConfig].
  set (cfg := flight.mkConfig _ _ _ _).
  destruct (flight.Get _ _ _ _ _ _) as [[[[cr|e] p1] w1] tr] eqn:HGet;
    [|cbn; intros H; discriminate H].
  destruct (flight.Query _ o) as [[reader|e] log] eqn:HQ;
    cbn [fst snd main.bind_handle]; [|intros H; discriminate H].
  intros [= <- <-]. unfold main.duckarrow_go_scan_free.
  cbn [main.Client main.IsPooled main.Config]. split.
  - exact (proj1 (Get_give_back _ _ _ _ _ t_free _ _ _ _ _ HGet)).
  - intros Hp.
    destruct (Get_unmanaged_client _ _ _ _ _ _ _ _ _ _ HGet Hp) as (cl & Hcl & Hh).
    exists (flight.CR_Client cr), cl. split; [reflexivity|]. split; [exact Hcl|].
    split; [exact Hh|].
    unfold main.give_back. rewrite Hp. cbn [fst snd]. unfold flight.Close_at.
    rewrite Hcl. cbn. apply union_subseteq_l.
Qed.

Lemma scan_bind_free_returns_connection_witness :
  let s1 := flight.step flight.initial (flight.OpGet sample.config 0 0 flight.DialOk) in
  let c := main.mkScanConn (Some 5%nat) sample.config false "grpc://localhost:31337"
                           ["BIGINT"] in
  let R := main.duckarrow_go_scan_table_bind
             (main.mkGlobal "" "user" "pass" false) s1
             (Some "grpc://localhost:31337") None (Some "t")
             1 1 2 flight.DialOk (flight.Executed (flight.mkReader [] None))
             [main.mkField "a" main.INT64] in
  let s2 := main.duckarrow_go_scan_free (snd (fst R)) (Some c) 3 in
  (forall k pc, flight.clients (fst s2) !! k = Some pc -> flight.inUse pc = true ->
                flight.clients (fst s1) !! k = Some pc) /\
  (main.IsPooled c = false ->
   exists p cl, main.Client c = Some p /\ flight.heap (snd (snd (fst R))) !! p = Some cl /\
                flight.IsHealthy cl = true /\
                flight.handles_of cl ⊆ flight.closed (snd s2)).
Proof.
  intros s1 c R s2.
  apply (scan_bind_free_returns_connection
           (main.mkGlobal "" "user" "pass" false) s1
           (Some "grpc://localhost:31337") None (Some "t")
           1 1 2 3 flight.DialOk (flight.Executed (flight.mkReader [] None))
           [main.mkField "a" main.INT64] c (main.mkScan "" "t" ["a"] [] None)).
  vm_compute. reflexivity.
Defined.

(** A type name that [arrowTypeToString] writes holds no NUL byte. *)
Lemma has_nul_append (a b : string) :
  main.has_nul (a ++ b) = main.has_nul a || main.has_nul b.
Proof.
  unfold main.has_nul. induction a as [|c a IH]; [reflexivity|].
  rewrite append_cons. cbn [list_ascii_of_string existsb]. rewrite IH.
  apply orb_assoc.
Qed.

Lemma Sprint_int_no_nul (n : Z) : main.has_nul (Go.Sprint_int n) = false.
Proof.
  assert (H : Forall (fun c => Ascii.eqb c Go.nul = false)
                     (list_ascii_of_string (Go.Sprint_int n))).
  { apply Sprint_int_chars. intros c Hc. cbn in Hc.
    repeat (destruct Hc as [<-|Hc]; [reflexivity|]). destruct Hc. }
  unfold main.has_nul. induction H as [|c l Hc _ IH]; [reflexivity|].
  cbn [existsb]. rewrite Hc, IH. reflexivity.
Qed.

Lemma arrowTypeToString_no_nul (t : main.ArrowType) :
  main.has_nul (main.arrowTypeToString t) = false.
Proof.
  destruct t; try reflexivity. cbn [main.arrowTypeToString].
  rewrite !has_nul_append, !Sprint_int_no_nul. reflexivity.
Qed.

(** X20.  After a successful bind, [duckarrow_go_scan_get_column] describes
    the columns of the schema that the schema query returned: for an index
    below the column count the host reads the name of that field, up to its
    first NUL byte if it has one, and the name of its type; for any other
    index it gets nothing. *)
Theorem scan_get_column_after_bind
    (g : main.DuckArrowConfig) (s : flight.Pool * flight.World)
    (uri schemaName tableName : option string)
    (t_since t_now t_release : Z) (d : flight.DialOutcome)
    (o : flight.StmtOutcome flight.Reader) (fields : list main.Field)
    (c : main.ScanConn) (b : main.ScanBindData) (index : Z) :
  let R := main.duckarrow_go_scan_table_bind g s uri schemaName tableName
             t_since t_now t_release d o fields in
  main.bind_handle (fst (fst R)) = Some (c, b) ->
  Z.of_nat (length fields) < 2 ^ 63 ->
  0 <= index < 2 ^ 64 ->
  main.column_count (fst (fst R)) = Z.of_nat (length fields) /\
  main.duckarrow_go_scan_get_column (Some (c, b)) index
  = match nth_error fields (Z.to_nat index) with
    | Some field => (Some (Go.CString (main.Name field)),
                     Some (main.arrowTypeToString (main.Type_ field)))
    | None => (None, None)
    end /\
  (forall field, nth_error fields (Z.to_nat index) = Some field ->
     main.has_nul (main.Name field) = false ->
     main.duckarrow_go_scan_get_column (Some (c, b)) index
     = (Some (main.Name field), Some (main.arrowTypeToString (main.Type_ field)))).
Proof.
  unfold main.duckarrow_go_scan_table_bind.
  destruct uri as [uriStr|]; [|cbn; intros H; discriminate H].
  destruct tableName as [tableStr|]; [|cbn; intros H; discriminate H].
  cbn [main.GetDuckArrowConfig].
  destruct (flight.Get _ _ _ _ _ _) as [[[[cr|e] p1] w1] tr];
    [|cbn; intros H; discriminate H].
  destruct (flight.Query _ o) as [[reader|e] log];
    cbn [fst snd main.bind_handle main.column_count]; [|intros H; discriminate H].
  intros [= <- <-] Hlen Hidx. split; [now rewrite length_map|].
  match goal with |- ?A /\ _ => assert (Hmain : A) end;
    [|split; [exact Hmain|];
      intros field Hf Hnul; rewrite Hmain, Hf, (CString_no_nul _ Hnul); reflexivity].
  unfold main.duckarrow_go_scan_get_column.
  cbn [main.ColumnNames main.ColumnTypes]. rewrite length_map.
  unfold main.int_of_size_t. rewrite (Z.mod_small index) by lia.
  destruct (Z.ltb index (2 ^ 63)) eqn:E63.
  - apply Z.ltb_lt in E63.
    assert (E0 : Z.ltb index 0 = false) by (apply Z.ltb_ge; lia).
    rewrite E0. cbn [orb].
    destruct (Z.leb (Z.of_nat (length fields)) index) eqn:Ele.
    + apply Z.leb_le in Ele.
      rewrite (proj2 (nth_error_None fields (Z.to_nat index))) by lia. reflexivity.
    + apply Z.leb_gt in Ele.
      destruct (nth_error fields (Z.to_nat index)) as [field|] eqn:Hn.
      * rewrite (nth_indep _ "" (main.Name field)) by (rewrite length_map; lia).
        rewrite (nth_indep (map (fun f => main.arrowTypeToString (main.Type_ f)) fields) ""
                   (main.arrowTypeToString (main.Type_ field)))
          by (rewrite length_map; lia).
        rewrite (map_nth main.Name),
                (map_nth (fun f => main.arrowTypeToString (main.Type_ f))).
        rewrite (nth_error_nth _ _ _ Hn).
        rewrite (CString_no_nul _ (arrowTypeToString_no_nul _)). reflexivity.
      * apply nth_error_None in Hn. lia.
  - apply Z.ltb_ge in E63.
    assert (E0 : Z.ltb (index - 2 ^ 64) 0 = true) by (apply Z.ltb_lt; lia).
    rewrite E0. cbn [orb].
    rewrite (proj2 (nth_error_None fields (Z.to_nat index))) by lia. reflexivity.
Qed.

Lemma scan_get_column_after_bind_witness :
  let c := main.mkScanConn (Some 2%nat) sample.config true "grpc://localhost:31337"
                           ["BIGINT"; "DECIMAL(10,2)"] in
  let b := main.mkScan "" "t" ["a"; "b" ++ Go.NUL ++ "c"] [] None in
  main.duckarrow_go_scan_get_column (Some (c, b)) 1 = (Some "b", Some "DECIMAL(10,2)").
Proof.
  intros c b.
  refine (proj1 (proj2 (scan_get_column_after_bind
           (main.mkGlobal "" "user" "pass" false) flight.initial
           (Some "grpc://localhost:31337") None (Some "t")
           0 0 1 flight.DialOk (flight.Executed (flight.mkReader [] None))
           [main.mkField "a" main.INT64;
            main.mkField ("b" ++ Go.NUL ++ "c") (main.DECIMAL128 10 2)]
           c b 1 _ _ _))).
  - vm_compute. reflexivity.
  - cbn [length]. lia.
  - lia.
Defined.

(** ** The table cache of a schema *)



